(** * lion-mobile: the streaming classification orchestrator

    A shallow embedding of the streaming [App] component (the audio
    accumulator, the chunk scheduler, the WAV encoder, the upload /
    submit / poll client, the score parser, the detection state machine
    and the history ledger) and of the single-request [App.tsx] flow.

    JavaScript numbers are IEEE-754 binary64 values; they are modelled
    by [spec_float] at precision 53 and maximal exponent 1024, so every
    arithmetic operation below rounds exactly as the engine does.
    Integer quantities that stay far below 2^53 (array lengths, byte
    offsets, the millisecond clock of [Date.now()]) are exact in that
    arithmetic and are modelled by [nat] and [Z].  Strings are sequences
    of code units; every code unit outside ASCII behaves, for the two
    regular expressions of the program, like any other character that
    is neither a digit nor a letter of the label, so lists of [ascii]
    are used.  React state ([useState]) and refs ([useRef]) are fields
    of one explicit component state that is threaded through the
    handlers.  Refs are read as last written.  A state cell is read as
    the render that created the reading function shows it: a handler
    called from the interface belongs to the latest render and reads
    the cells as last written, the functions called by an interval
    timer belong to the render in which the timer was set. *)

From Stdlib Require Import ZArith List Lia Bool Arith.
From Stdlib Require Import Ascii String.
From Stdlib Require Import Floats.SpecFloat.
Import ListNotations.

Set Implicit Arguments.
Open Scope Z_scope.

(* ================================================================== *)
(** ** JavaScript numbers *)

Module Num.

Definition prec : Z := 53.
Definition emax : Z := 1024.

Definition number := spec_float.

Definition add : number -> number -> number := SFadd prec emax.
Definition mul : number -> number -> number := SFmul prec emax.
Definition div : number -> number -> number := SFdiv prec emax.
Definition sqrt : number -> number := SFsqrt prec emax.

(** [a < b] and [a > b]; both are false as soon as one side is NaN. *)
Definition ltb (a b : number) : bool := SFltb a b.
Definition gtb (a b : number) : bool := SFltb b a.

(** An integer literal, or an integer-valued quantity such as
    [array.length], as a number. *)
Definition of_Z (z : Z) : number := binary_normalize prec emax z 0 false.
Definition of_nat (n : nat) : number := of_Z (Z.of_nat n).

Definition zero : number := S754_zero false.

(** [Math.min] and [Math.max] of two arguments: NaN is contagious and
    [-0] is smaller than [+0]. *)
Definition Math_min (a b : number) : number :=
  match a, b with
  | S754_nan, _ | _, S754_nan => S754_nan
  | S754_zero sa, S754_zero sb => S754_zero (sa || sb)
  | _, _ => if ltb b a then b else a
  end.

Definition Math_max (a b : number) : number :=
  match a, b with
  | S754_nan, _ | _, S754_nan => S754_nan
  | S754_zero sa, S754_zero sb => S754_zero (sa && sb)
  | _, _ => if ltb a b then b else a
  end.

(** The integer obtained by dropping the fraction of a finite number
    (the [truncate] step of [ToIntegerOrInfinity]); NaN and the
    infinities are mapped to 0, as the typed-array conversions do. *)
Definition trunc (x : number) : Z :=
  match x with
  | S754_finite s m e =>
      let a := match e with
               | Zneg k => Z.shiftr (Zpos m) (Zpos k)
               | _ => Z.shiftl (Zpos m) e
               end in
      if s then - a else a
  | _ => 0
  end.

(** [Math.floor], for the finite values; the others are returned as
    they are. *)
Definition floorZ (x : number) : Z :=
  match x with
  | S754_finite s m e =>
      match e with
      | Zneg k =>
          if s then - ((Zpos m + 2 ^ Zpos k - 1) / 2 ^ Zpos k)
          else Zpos m / 2 ^ Zpos k
      | _ => if s then - (Zpos m * 2 ^ e) else Zpos m * 2 ^ e
      end
  | _ => 0
  end.

Definition Math_floor (x : number) : number :=
  match x with
  | S754_finite _ _ _ => binary_normalize prec emax (floorZ x) 0 false
  | _ => x
  end.

(** The least integer not below a finite number. *)
Definition ceilZ (x : number) : Z := - floorZ (SFopp x).

(** The conversions applied by [DataView.prototype.set*]. *)
Definition wrap (w : Z) (z : Z) : Z := z mod 2 ^ w.
Definition ToUint8 (z : Z) : Z := wrap 8 z.
Definition ToUint16 (z : Z) : Z := wrap 16 z.
Definition ToUint32 (z : Z) : Z := wrap 32 z.
Definition ToInt16 (z : Z) : Z :=
  let u := wrap 16 z in if u <? 2 ^ 15 then u else u - 2 ^ 16.

End Num.

(* ================================================================== *)
(** ** RMS volume (the silence gate) *)

Module Volume.
Import Num.

(** [calculateRMS] of the streaming component. *)
Definition calculateRMS (audioData : list number) : number :=
  if (List.length audioData =? 0)%nat then zero
  else
    let sum := fold_left (fun acc val => add acc (mul val val)) audioData zero in
    sqrt (div sum (of_nat (List.length audioData))).

(** The formula in the words of the specification: the square root of
    the mean of the squared samples, the samples being summed in
    order. *)
Definition square (x : number) : number := mul x x.
Definition total (xs : list number) : number := fold_left add xs zero.
Definition mean (xs : list number) : number :=
  div (total xs) (of_nat (List.length xs)).
Definition rms_formula (xs : list number) : number :=
  sqrt (mean (map square xs)).

(** A value is usable by the gate [volume < MIN_VOLUME_THRESHOLD] when
    it is NaN, a zero, or a number that is not negative. *)
Definition not_negative (x : number) : bool :=
  match x with
  | S754_finite true _ _ | S754_infinity true => false
  | _ => true
  end.

End Volume.

(* ================================================================== *)
(** ** Fallible steps *)

(** A step that may throw returns [None]; [let*] sequences such steps
    and stops at the first one that throws. *)
Definition bind {A B : Type} (x : option A) (k : A -> option B) : option B :=
  match x with
  | Some a => k a
  | None => None
  end.

Notation "'let*' x ':=' c 'in' k" := (bind c (fun x => k))
  (at level 10, x name, c at level 100, k at level 200).

(* ================================================================== *)
(** ** WAV encoder *)

Module Wav.
Import Num.

(** An [ArrayBuffer] is a sequence of bytes, each a value below 256;
    a fresh one is filled with zeros. *)
Definition ArrayBuffer := list Z.
Definition new_ArrayBuffer (n : nat) : ArrayBuffer := repeat 0 n.

(** The [n] little-endian bytes of [v], least significant first. *)
Fixpoint le_bytes (n : nat) (v : Z) : list Z :=
  match n with
  | O => []
  | S k => v mod 256 :: le_bytes k (v / 256)
  end.

Fixpoint from_le (bs : list Z) : Z :=
  match bs with
  | [] => 0
  | b :: rest => b + 256 * from_le rest
  end.

(** Writing through a [DataView]: a write that does not fit in the
    buffer throws a [RangeError]. *)
Definition write_at (off : nat) (bs : list Z) (view : ArrayBuffer)
  : option ArrayBuffer :=
  if (off + List.length bs <=? List.length view)%nat
  then Some (firstn off view ++ bs ++ skipn (off + List.length bs) view)
  else None.

Definition read_at (off n : nat) (view : ArrayBuffer) : option (list Z) :=
  if (off + n <=? List.length view)%nat
  then Some (firstn n (skipn off view))
  else None.

Definition setUint8 (view : ArrayBuffer) (off : nat) (v : Z) :=
  write_at off (le_bytes 1 (ToUint8 v)) view.
Definition setUint16 (view : ArrayBuffer) (off : nat) (v : Z) :=
  write_at off (le_bytes 2 (ToUint16 v)) view.
Definition setUint32 (view : ArrayBuffer) (off : nat) (v : Z) :=
  write_at off (le_bytes 4 (ToUint32 v)) view.
Definition setInt16 (view : ArrayBuffer) (off : nat) (v : Z) :=
  write_at off (le_bytes 2 (ToInt16 v mod 2 ^ 16)) view.

Definition getUint16 (view : ArrayBuffer) (off : nat) : option Z :=
  let* bs := read_at off 2 view in Some (from_le bs).
Definition getUint32 (view : ArrayBuffer) (off : nat) : option Z :=
  let* bs := read_at off 4 view in Some (from_le bs).
Definition getInt16 (view : ArrayBuffer) (off : nat) : option Z :=
  let* bs := read_at off 2 view in Some (ToInt16 (from_le bs)).

Definition charCodeAt (c : ascii) : Z := Z.of_nat (nat_of_ascii c).

(** The local helper [writeString]. *)
Fixpoint writeString (view : ArrayBuffer) (offset : nat) (str : string)
  : option ArrayBuffer :=
  match str with
  | EmptyString => Some view
  | String c rest =>
      let* view := setUint8 view offset (charCodeAt c) in
      writeString view (S offset) rest
  end.

(** One turn of the sample loop: clamp, scale, convert. *)
Definition clamp (x : number) : number :=
  Math_max (of_Z (-1)) (Math_min (of_Z 1) x).

Definition pcm16 (x : number) : Z :=
  ToInt16 (trunc (mul (clamp x) (of_Z 32767))).

Fixpoint writeSamples (view : ArrayBuffer) (offset : nat)
         (audioData : list number) : option ArrayBuffer :=
  match audioData with
  | [] => Some view
  | x :: rest =>
      let sample := clamp x in
      let* view := setInt16 view offset (trunc (mul sample (of_Z 32767))) in
      writeSamples view (offset + 2) rest
  end.

Record Blob := { blob_bytes : ArrayBuffer; blob_type : string }.

(** [createWavBlob]. *)
Definition createWavBlob (audioData : list number) (sampleRate : number)
  : option Blob :=
  let length := List.length audioData in
  let view := new_ArrayBuffer (44 + length * 2) in
  let* view := writeString view 0 "RIFF" in
  let* view := setUint32 view 4 (36 + Z.of_nat length * 2) in
  let* view := writeString view 8 "WAVE" in
  let* view := writeString view 12 "fmt " in
  let* view := setUint32 view 16 16 in
  let* view := setUint16 view 20 1 in
  let* view := setUint16 view 22 1 in
  let* view := setUint32 view 24 (trunc sampleRate) in
  let* view := setUint32 view 28 (trunc (mul sampleRate (of_Z 2))) in
  let* view := setUint16 view 32 2 in
  let* view := setUint16 view 34 16 in
  let* view := writeString view 36 "data" in
  let* view := setUint32 view 40 (Z.of_nat length * 2) in
  let* view := writeSamples view 44 audioData in
  Some {| blob_bytes := view; blob_type := "audio/wav" |}.

(** Reading the canonical 44-byte header back. *)
Record WavHeader := {
  audioFormat : Z;
  numChannels : Z;
  sampleRateHz : Z;
  bitsPerSample : Z
}.

Fixpoint bytes_eqb (xs ys : list Z) : bool :=
  match xs, ys with
  | [], [] => true
  | x :: xs, y :: ys => (x =? y) && bytes_eqb xs ys
  | _, _ => false
  end.

Definition tag_at (view : ArrayBuffer) (off : nat) (tag : string) : bool :=
  match read_at off (String.length tag) view with
  | Some bs => bytes_eqb bs (map charCodeAt (list_ascii_of_string tag))
  | None => false
  end.

Definition parseHeader (view : ArrayBuffer) : option WavHeader :=
  if tag_at view 0 "RIFF" && tag_at view 8 "WAVE"
     && tag_at view 12 "fmt " && tag_at view 36 "data"
  then
    let* fmt := getUint16 view 20 in
    let* ch := getUint16 view 22 in
    let* rate := getUint32 view 24 in
    let* bits := getUint16 view 34 in
    Some {| audioFormat := fmt; numChannels := ch;
            sampleRateHz := rate; bitsPerSample := bits |}
  else None.

Definition WAVE_FORMAT_PCM : Z := 1.

(** The bytes the encoder is expected to produce: the stored form of
    one sample, and the 44 bytes that precede the samples. *)
Definition sample_bytes (x : number) : list Z :=
  le_bytes 2 (pcm16 x mod 2 ^ 16).

Definition tag_bytes (tag : string) : list Z :=
  map charCodeAt (list_ascii_of_string tag).

Definition header_bytes (sampleRate : number) (n : nat) : list Z :=
  tag_bytes "RIFF"
  ++ le_bytes 4 (ToUint32 (36 + Z.of_nat n * 2))
  ++ tag_bytes "WAVE"
  ++ tag_bytes "fmt "
  ++ le_bytes 4 (ToUint32 16)
  ++ le_bytes 2 (ToUint16 1)
  ++ le_bytes 2 (ToUint16 1)
  ++ le_bytes 4 (ToUint32 (trunc sampleRate))
  ++ le_bytes 4 (ToUint32 (trunc (mul sampleRate (of_Z 2))))
  ++ le_bytes 2 (ToUint16 2)
  ++ le_bytes 2 (ToUint16 16)
  ++ tag_bytes "data"
  ++ le_bytes 4 (ToUint32 (Z.of_nat n * 2)).

End Wav.

(* ================================================================== *)
(** ** Regular expressions and the score parser *)

Module RegExp.
Import Num.

Definition str := list ascii.
Definition lit (s : string) : str := list_ascii_of_string s.

Definition is_digit (c : ascii) : bool :=
  let n := nat_of_ascii c in (48 <=? n)%nat && (n <=? 57)%nat.

(** Canonicalisation under the [i] flag: an ASCII lower-case letter is
    replaced by its upper-case form, every other code unit is kept. *)
Definition canonicalize (c : ascii) : ascii :=
  let n := nat_of_ascii c in
  if (97 <=? n)%nat && (n <=? 122)%nat then ascii_of_nat (n - 32) else c.

(** The character sets of the two expressions: a literal character
    (compared after canonicalisation, both expressions carry the [i]
    flag), [\d] and [[^0-9]]. *)
Inductive cset := Exactly (c : ascii) | Digit | NotDigit.

Definition mem (cs : cset) (c : ascii) : bool :=
  match cs with
  | Exactly p => Ascii.eqb (canonicalize p) (canonicalize c)
  | Digit => is_digit c
  | NotDigit => negb (is_digit c)
  end.

(** A pattern is a sequence of atoms; the quantifiers are greedy and
    [Open] / [Close] delimit capture group 1. *)
Inductive atom :=
| One (cs : cset)
| Star (cs : cset)
| Plus (cs : cset)
| Opt (cs : cset)
| Open
| Close.

Definition regex := list atom.

(** A run of literal characters. *)
Definition literal (l : str) : regex := map (fun c => One (Exactly c)) l.

Definition push (grp : bool) (cap : str) (c : ascii) : str :=
  if grp then cap ++ [c] else cap.

Definition pushes (grp : bool) (cap seg : str) : str :=
  if grp then cap ++ seg else cap.

(** Greedy repetition with backtracking: consume while possible, and
    on failure of what follows give the characters back one by one. *)
Fixpoint star (cs : cset) (k : str -> str -> option str)
         (grp : bool) (s cap : str) : option str :=
  match s with
  | c :: s' =>
      if mem cs c then
        match star cs k grp s' (push grp cap c) with
        | Some r => Some r
        | None => k s cap
        end
      else k s cap
  | [] => k s cap
  end.

(** The backtracking matcher, anchored at the head of [s]; [grp] tells
    whether the capture group is open and [cap] is what it holds so
    far.  The answer is the content of group 1. *)
Fixpoint run (r : regex) (grp : bool) (s cap : str) : option str :=
  match r with
  | [] => Some cap
  | One cs :: rest =>
      match s with
      | c :: s' => if mem cs c then run rest grp s' (push grp cap c) else None
      | [] => None
      end
  | Star cs :: rest => star cs (run rest grp) grp s cap
  | Plus cs :: rest =>
      match s with
      | c :: s' =>
          if mem cs c
          then star cs (run rest grp) grp s' (push grp cap c)
          else None
      | [] => None
      end
  | Opt cs :: rest =>
      match s with
      | c :: s' =>
          if mem cs c then
            match run rest grp s' (push grp cap c) with
            | Some r => Some r
            | None => run rest grp s cap
            end
          else run rest grp s cap
      | [] => run rest grp s cap
      end
  | Open :: rest => run rest true s []
  | Close :: rest => run rest false s cap
  end.

(** [String.prototype.match] with a non-global expression: the match
    at the leftmost position where the matcher succeeds, or [null].
    Only group 1 of the match array is kept. *)
Fixpoint String_match (s : str) (r : regex) : option str :=
  match run r false s [] with
  | Some g1 => Some g1
  | None =>
      match s with
      | [] => None
      | _ :: s' => String_match s' r
      end
  end.

(** What it means for a pattern to match at the head of [s], without
    reference to the search order of the matcher: [Matches r grp s cap
    out] holds when some choice of repetitions makes [r] match a
    prefix of [s] and leaves [out] in group 1. *)
Inductive Matches : regex -> bool -> str -> str -> str -> Prop :=
| M_nil grp s cap : Matches [] grp s cap cap
| M_one cs rest grp c s cap out :
    mem cs c = true ->
    Matches rest grp s (push grp cap c) out ->
    Matches (One cs :: rest) grp (c :: s) cap out
| M_star_stop cs rest grp s cap out :
    Matches rest grp s cap out ->
    Matches (Star cs :: rest) grp s cap out
| M_star_step cs rest grp c s cap out :
    mem cs c = true ->
    Matches (Star cs :: rest) grp s (push grp cap c) out ->
    Matches (Star cs :: rest) grp (c :: s) cap out
| M_plus cs rest grp c s cap out :
    mem cs c = true ->
    Matches (Star cs :: rest) grp s (push grp cap c) out ->
    Matches (Plus cs :: rest) grp (c :: s) cap out
| M_opt_skip cs rest grp s cap out :
    Matches rest grp s cap out ->
    Matches (Opt cs :: rest) grp s cap out
| M_opt_take cs rest grp c s cap out :
    mem cs c = true ->
    Matches rest grp s (push grp cap c) out ->
    Matches (Opt cs :: rest) grp (c :: s) cap out
| M_open rest grp s cap out :
    Matches rest true s [] out ->
    Matches (Open :: rest) grp s cap out
| M_close rest grp s cap out :
    Matches rest false s cap out ->
    Matches (Close :: rest) grp s cap out.

(** [parseFloat] on the texts the capture group can hold: the value of
    the longest prefix made of digits with at most one dot, correctly
    rounded; NaN when that prefix holds no digit. *)
Fixpoint span (p : ascii -> bool) (s : str) : str * str :=
  match s with
  | c :: s' =>
      if p c then let (a, b) := span p s' in (c :: a, b) else ([], s)
  | [] => ([], [])
  end.

Definition digit_val (c : ascii) : Z := Z.of_nat (nat_of_ascii c) - 48.

Definition digits_value (ds : str) : Z :=
  fold_left (fun a c => 10 * a + digit_val c) ds 0.

(** The number nearest to [m / 10 ^ k]. *)
Definition decimal (m : Z) (k : nat) : number :=
  match m with
  | Zpos _ =>
      let '(q, e, l) := SFdiv_core_binary prec emax m 0 (10 ^ Z.of_nat k) 0 in
      binary_round_aux prec emax false q e l
  | _ => zero
  end.

Definition parseFloat (s : str) : number :=
  let (d1, s1) := span is_digit s in
  let d2 := match s1 with
            | "."%char :: s2 => fst (span is_digit s2)
            | _ => []
            end in
  match d1 ++ d2 with
  | [] => S754_nan
  | ds => decimal (digits_value ds) (List.length d2)
  end.

End RegExp.

Module ScoreParser.
Import Num RegExp.

Definition number_group : regex :=
  [Open; Plus Digit; Opt (Exactly "."%char); Star Digit; Close].

(** The expression made of the label, any run of characters other
    than digits, the captured number (digits, an optional dot, maybe
    more digits) and a percent sign, with the [i] flag. *)
Definition labelled (label : string) : regex :=
  literal (lit label)
  ++ Star NotDigit :: number_group ++ [One (Exactly "%"%char)].

Definition aiRegex : regex := labelled "AI Generated".
Definition realRegex : regex := labelled "Real Voice".

(** The first lines of [handleStreamingResult] (and of the
    single-request [processAudio]): the two percentages. *)
Definition parseScores (result : str) : number * number :=
  let aiMatch := String_match result aiRegex in
  let realMatch := String_match result realRegex in
  let aiPercent :=
    match aiMatch with Some g1 => parseFloat g1 | None => zero end in
  let realPercent :=
    match realMatch with Some g1 => parseFloat g1 | None => zero end in
  (aiPercent, realPercent).

(** *** The pattern in words

    [<label><non-digit>*<number>%] occurs in [s] at position [i] with
    number text [num]. *)
Definition same_letters (a b : str) : Prop :=
  map canonicalize a = map canonicalize b.

Definition number_text (num : str) : Prop :=
  exists d1 dot d2,
    num = d1 ++ dot ++ d2
    /\ d1 <> [] /\ forallb is_digit d1 = true
    /\ (dot = [] \/ dot = ["."%char])
    /\ forallb is_digit d2 = true.

Definition occurs_at (label : string) (s : str) (i : nat) (num : str) : Prop :=
  exists pre lab gap rest,
    s = pre ++ lab ++ gap ++ num ++ "%"%char :: rest
    /\ List.length pre = i
    /\ same_letters lab (lit label)
    /\ forallb (fun c => negb (is_digit c)) gap = true
    /\ number_text num.

Definition first_occurrence (label : string) (s : str) (i : nat) (num : str)
  : Prop :=
  occurs_at label s i num
  /\ forall j num', (j < i)%nat -> ~ occurs_at label s j num'.

Definition no_occurrence (label : string) (s : str) : Prop :=
  forall i num, ~ occurs_at label s i num.

Definition not_percent (c : ascii) : bool := negb (Ascii.eqb c "%"%char).

(** *** The pattern in words, with the case of letters spelled out

    Two characters are the same up to case when they are equal, or
    when one is an upper-case ASCII letter (code 65 to 90) and the
    other is the lower-case letter, 32 code units above it.  Nothing
    here refers to the matcher. *)
Definition is_upper (c : ascii) : bool :=
  let n := nat_of_ascii c in (65 <=? n)%nat && (n <=? 90)%nat.

Definition same_letter (c d : ascii) : Prop :=
  c = d
  \/ (is_upper c = true /\ nat_of_ascii d = (nat_of_ascii c + 32)%nat)
  \/ (is_upper d = true /\ nat_of_ascii c = (nat_of_ascii d + 32)%nat).

Definition ignoring_case (a b : str) : Prop := Forall2 same_letter a b.

Definition labelled_at (label : string) (s : str) (i : nat) (num : str)
  : Prop :=
  exists pre lab gap rest,
    s = pre ++ lab ++ gap ++ num ++ "%"%char :: rest
    /\ List.length pre = i
    /\ ignoring_case lab (lit label)
    /\ forallb (fun c => negb (is_digit c)) gap = true
    /\ number_text num.

Definition first_labelled (label : string) (s : str) (i : nat) (num : str)
  : Prop :=
  labelled_at label s i num
  /\ forall j num', (j < i)%nat -> ~ labelled_at label s j num'.

Definition not_labelled (label : string) (s : str) : Prop :=
  forall i num, ~ labelled_at label s i num.

(** The percentage extracted for one label. *)
Definition percent_of (label : string) (result : str) : number :=
  match String_match result (labelled label) with
  | Some g1 => parseFloat g1
  | None => zero
  end.

End ScoreParser.

(* ================================================================== *)
(** ** JavaScript values, as far as the poll loop looks at them *)

Module JS.
Import Num RegExp.

Local Unset Elimination Schemes.

Inductive js :=
| JNull
| JUndefined
| JBool (b : bool)
| JNum (n : number)
| JStr (s : str)
| JArr (items : list js)
| JObj (fields : list (str * js)).

Local Set Elimination Schemes.

(** [ToBoolean]. *)
Definition truthy (v : js) : bool :=
  match v with
  | JNull | JUndefined => false
  | JBool b => b
  | JNum (S754_zero _) | JNum S754_nan => false
  | JNum _ => true
  | JStr [] => false
  | JStr _ => true
  | JArr _ | JObj _ => true
  end.

(** [v[0]]; reading a property of [null] or [undefined] throws. *)
Definition index0 (v : js) : option js :=
  match v with
  | JNull | JUndefined => None
  | JArr (x :: _) => Some x
  | JStr (c :: _) => Some (JStr [c])
  | _ => Some JUndefined
  end.

Fixpoint lookup (key : str) (fields : list (str * js)) : js :=
  match fields with
  | [] => JUndefined
  | (k, v) :: rest =>
      if list_eq_dec ascii_dec k key then v else lookup key rest
  end.

(** [v.event_id]. *)
Definition event_id (v : js) : option js :=
  match v with
  | JNull | JUndefined => None
  | JObj fields => Some (lookup (lit "event_id") fields)
  | _ => Some JUndefined
  end.

(** [text.split('\n')]. *)
Fixpoint split_lines (text : str) : list str :=
  match text with
  | [] => [[]]
  | c :: rest =>
      if Ascii.eqb c "010"%char then [] :: split_lines rest
      else
        match split_lines rest with
        | line :: lines => (c :: line) :: lines
        | [] => [[c]]
        end
  end.

Fixpoint startsWith (s prefix : str) : bool :=
  match prefix, s with
  | [], _ => true
  | p :: prefix', c :: s' => Ascii.eqb c p && startsWith s' prefix'
  | _ :: _, [] => false
  end.

(** [s.slice(6)]. *)
Definition slice6 (s : str) : str := skipn 6 s.

(** [Array.prototype.slice(start)] for an integer [start]: a negative
    [start] counts from the end. *)
Definition slice {A : Type} (start : Z) (l : list A) : list A :=
  let len := Z.of_nat (List.length l) in
  let k := if start <? 0 then Z.max (len + start) 0 else Z.min start len in
  skipn (Z.to_nat k) l.

(** A reader for a fragment of JSON, used in the examples: [null],
    [true], [false], unsigned integers, string literals without
    escapes, and arrays of these without white space.  On such texts
    it answers what [JSON.parse] answers. *)
Fixpoint string_body (s acc : str) : option (str * str) :=
  match s with
  | [] => None
  | c :: rest =>
      if Ascii.eqb c "034"%char then Some (acc, rest)
      else if Ascii.eqb c "092"%char then None
      else if (nat_of_ascii c <? 32)%nat then None
      else string_body rest (acc ++ [c])
  end.

Definition scalar (s : str) : option (js * str) :=
  match s with
  | "034"%char :: rest =>
      match string_body rest [] with
      | Some (body, rest') => Some (JStr body, rest')
      | None => None
      end
  | "n"%char :: "u"%char :: "l"%char :: "l"%char :: rest => Some (JNull, rest)
  | "t"%char :: "r"%char :: "u"%char :: "e"%char :: rest =>
      Some (JBool true, rest)
  | "f"%char :: "a"%char :: "l"%char :: "s"%char :: "e"%char :: rest =>
      Some (JBool false, rest)
  | _ =>
      match span is_digit s with
      | ([], _) => None
      | ("0"%char :: _ :: _, _) => None
      | (ds, rest) => Some (JNum (of_Z (digits_value ds)), rest)
      end
  end.

Fixpoint elements (fuel : nat) (s : str) : option (list js) :=
  match fuel with
  | O => None
  | S fuel' =>
      match scalar s with
      | Some (v, ","%char :: rest) =>
          match elements fuel' rest with
          | Some vs => Some (v :: vs)
          | None => None
          end
      | Some (v, ["]"%char]) => Some [v]
      | _ => None
      end
  end.

Definition JSON_parse_fragment (s : str) : option js :=
  match s with
  | ["["%char; "]"%char] => Some (JArr [])
  | "["%char :: rest =>
      match elements (List.length rest) rest with
      | Some vs => Some (JArr vs)
      | None => None
      end
  | _ =>
      match scalar s with
      | Some (v, []) => Some v
      | _ => None
      end
  end.

End JS.

(* ================================================================== *)
(** ** The streaming component *)

Module Streaming.
Import Num RegExp ScoreParser Volume Wav JS.

Record DetectionResult := {
  isAI : bool;
  aiPercent : number;
  realPercent : number;
  timestamp : Z;
  chunkId : nat
}.

Record StreamingConfig := {
  RATE : number;
  CHANNELS : number;
  CHUNK_DURATION : number;
  STREAM_INTERVAL : Z;
  BUFFER_DURATION : number;
  MIN_VOLUME_THRESHOLD : number
}.

(** The configuration literal of the component; 0.0001 is the number
    nearest to 1/10000. *)
Definition streamingConfig : StreamingConfig := {|
  RATE := of_Z 22050;
  CHANNELS := of_Z 1;
  CHUNK_DURATION := of_Z 4;
  STREAM_INTERVAL := 500;
  BUFFER_DURATION := of_Z 8;
  MIN_VOLUME_THRESHOLD := decimal 1 4
|}.

(** The texts shown as [streamingStatus]. *)
Inductive status :=
| NoStatus
| WaitingForAudio
| Buffering (bufferDuration : number)
| TooQuiet
| Processing (id : nat)
| ErrorProcessing (id : nat)
| ChunkVerdict (id : nat) (ai : bool)
| Stopped.

(** What the component does to the outside: console lines, local
    notifications and the calls of one round trip. *)
Inductive effect :=
| LogResult (id : nat) (result : str)
| LogDetectionEvent (id : nat)
| Notification (aiPercent : number)
| LogContinuing (count : nat)
| LogEnded (count : nat)
| LogChunkError (id : nat)
| WriteFile (id : nat)
| Upload (id : nat)
| Predict
| Poll
| Sleep (ms : Z)
| DeleteFile (id : nat).

(** The [useState] cells that the functions called by the interval
    timer read, as one render shows them.  [processStreamingChunk],
    [processAudioChunk] and [handleStreamingResult] are created anew
    by every render and close over the cells of that render; the
    setters and the refs are the same in every render. *)
Record Render := {
  render_chunkCount : nat;
  render_detectionEvent : bool
}.

(** A chunk handed to [processAudioChunk] whose round trip has not
    finished yet, with the render whose [processAudioChunk] runs it. *)
Record Job := {
  job_chunkId : nat;
  job_chunkData : list number;
  job_blob : option Blob;
  job_render : Render
}.

(** The component: its [useState] cells, its [useRef] cells, and the
    two things it shares with the outside (what it has emitted, and
    the round trips still running).  [streamingInterval] is the cell
    [streamingIntervalRef]: [None] for [null], else the interval, given
    by the render whose [processStreamingChunk] its callback calls. *)
Record App := {
  isRecording : bool;
  lastResult : option DetectionResult;
  history : list DetectionResult;
  streamingStatus : status;
  detectionEvent : bool;
  chunkCount : nat;
  audioBuffer : list number;
  streamingInterval : option Render;
  isStreaming : bool;
  lastProcessTime : Z;
  consecutiveDetections : nat;
  effects : list effect;
  inflight : list Job
}.

Definition initial : App := {|
  isRecording := false; lastResult := None; history := [];
  streamingStatus := NoStatus; detectionEvent := false; chunkCount := 0;
  audioBuffer := []; streamingInterval := None; isStreaming := false;
  lastProcessTime := 0; consecutiveDetections := 0;
  effects := []; inflight := []
|}.

Definition setIsRecording (v : bool) (a : App) : App :=
  {| isRecording := v; lastResult := lastResult a; history := history a;
     streamingStatus := streamingStatus a; detectionEvent := detectionEvent a;
     chunkCount := chunkCount a; audioBuffer := audioBuffer a;
     streamingInterval := streamingInterval a; isStreaming := isStreaming a;
     lastProcessTime := lastProcessTime a;
     consecutiveDetections := consecutiveDetections a;
     effects := effects a; inflight := inflight a |}.

Definition setLastResult (v : option DetectionResult) (a : App) : App :=
  {| isRecording := isRecording a; lastResult := v; history := history a;
     streamingStatus := streamingStatus a; detectionEvent := detectionEvent a;
     chunkCount := chunkCount a; audioBuffer := audioBuffer a;
     streamingInterval := streamingInterval a; isStreaming := isStreaming a;
     lastProcessTime := lastProcessTime a;
     consecutiveDetections := consecutiveDetections a;
     effects := effects a; inflight := inflight a |}.

Definition setHistory (f : list DetectionResult -> list DetectionResult)
           (a : App) : App :=
  {| isRecording := isRecording a; lastResult := lastResult a;
     history := f (history a);
     streamingStatus := streamingStatus a; detectionEvent := detectionEvent a;
     chunkCount := chunkCount a; audioBuffer := audioBuffer a;
     streamingInterval := streamingInterval a; isStreaming := isStreaming a;
     lastProcessTime := lastProcessTime a;
     consecutiveDetections := consecutiveDetections a;
     effects := effects a; inflight := inflight a |}.

Definition setStreamingStatus (v : status) (a : App) : App :=
  {| isRecording := isRecording a; lastResult := lastResult a;
     history := history a;
     streamingStatus := v; detectionEvent := detectionEvent a;
     chunkCount := chunkCount a; audioBuffer := audioBuffer a;
     streamingInterval := streamingInterval a; isStreaming := isStreaming a;
     lastProcessTime := lastProcessTime a;
     consecutiveDetections := consecutiveDetections a;
     effects := effects a; inflight := inflight a |}.

Definition setDetectionEvent (v : bool) (a : App) : App :=
  {| isRecording := isRecording a; lastResult := lastResult a;
     history := history a;
     streamingStatus := streamingStatus a; detectionEvent := v;
     chunkCount := chunkCount a; audioBuffer := audioBuffer a;
     streamingInterval := streamingInterval a; isStreaming := isStreaming a;
     lastProcessTime := lastProcessTime a;
     consecutiveDetections := consecutiveDetections a;
     effects := effects a; inflight := inflight a |}.

Definition setChunkCount (v : nat) (a : App) : App :=
  {| isRecording := isRecording a; lastResult := lastResult a;
     history := history a;
     streamingStatus := streamingStatus a; detectionEvent := detectionEvent a;
     chunkCount := v; audioBuffer := audioBuffer a;
     streamingInterval := streamingInterval a; isStreaming := isStreaming a;
     lastProcessTime := lastProcessTime a;
     consecutiveDetections := consecutiveDetections a;
     effects := effects a; inflight := inflight a |}.

Definition setAudioBuffer (v : list number) (a : App) : App :=
  {| isRecording := isRecording a; lastResult := lastResult a;
     history := history a;
     streamingStatus := streamingStatus a; detectionEvent := detectionEvent a;
     chunkCount := chunkCount a; audioBuffer := v;
     streamingInterval := streamingInterval a; isStreaming := isStreaming a;
     lastProcessTime := lastProcessTime a;
     consecutiveDetections := consecutiveDetections a;
     effects := effects a; inflight := inflight a |}.

Definition setStreamingInterval (v : option Render) (a : App) : App :=
  {| isRecording := isRecording a; lastResult := lastResult a;
     history := history a;
     streamingStatus := streamingStatus a; detectionEvent := detectionEvent a;
     chunkCount := chunkCount a; audioBuffer := audioBuffer a;
     streamingInterval := v; isStreaming := isStreaming a;
     lastProcessTime := lastProcessTime a;
     consecutiveDetections := consecutiveDetections a;
     effects := effects a; inflight := inflight a |}.

Definition setIsStreaming (v : bool) (a : App) : App :=
  {| isRecording := isRecording a; lastResult := lastResult a;
     history := history a;
     streamingStatus := streamingStatus a; detectionEvent := detectionEvent a;
     chunkCount := chunkCount a; audioBuffer := audioBuffer a;
     streamingInterval := streamingInterval a; isStreaming := v;
     lastProcessTime := lastProcessTime a;
     consecutiveDetections := consecutiveDetections a;
     effects := effects a; inflight := inflight a |}.

Definition setLastProcessTime (v : Z) (a : App) : App :=
  {| isRecording := isRecording a; lastResult := lastResult a;
     history := history a;
     streamingStatus := streamingStatus a; detectionEvent := detectionEvent a;
     chunkCount := chunkCount a; audioBuffer := audioBuffer a;
     streamingInterval := streamingInterval a; isStreaming := isStreaming a;
     lastProcessTime := v;
     consecutiveDetections := consecutiveDetections a;
     effects := effects a; inflight := inflight a |}.

Definition setConsecutiveDetections (v : nat) (a : App) : App :=
  {| isRecording := isRecording a; lastResult := lastResult a;
     history := history a;
     streamingStatus := streamingStatus a; detectionEvent := detectionEvent a;
     chunkCount := chunkCount a; audioBuffer := audioBuffer a;
     streamingInterval := streamingInterval a; isStreaming := isStreaming a;
     lastProcessTime := lastProcessTime a;
     consecutiveDetections := v;
     effects := effects a; inflight := inflight a |}.

Definition emit (es : list effect) (a : App) : App :=
  {| isRecording := isRecording a; lastResult := lastResult a;
     history := history a;
     streamingStatus := streamingStatus a; detectionEvent := detectionEvent a;
     chunkCount := chunkCount a; audioBuffer := audioBuffer a;
     streamingInterval := streamingInterval a; isStreaming := isStreaming a;
     lastProcessTime := lastProcessTime a;
     consecutiveDetections := consecutiveDetections a;
     effects := effects a ++ es; inflight := inflight a |}.

Definition setInflight (v : list Job) (a : App) : App :=
  {| isRecording := isRecording a; lastResult := lastResult a;
     history := history a;
     streamingStatus := streamingStatus a; detectionEvent := detectionEvent a;
     chunkCount := chunkCount a; audioBuffer := audioBuffer a;
     streamingInterval := streamingInterval a; isStreaming := isStreaming a;
     lastProcessTime := lastProcessTime a;
     consecutiveDetections := consecutiveDetections a;
     effects := effects a; inflight := v |}.

(** The render that shows the cells of [a]: the latest one when a
    handler is called from the interface. *)
Definition render_of (a : App) : Render :=
  {| render_chunkCount := chunkCount a;
     render_detectionEvent := detectionEvent a |}.

(** The hysteresis part of [handleStreamingResult]: the branch on
    [isAI] that raises and ends detection events.  [detectionEvent] is
    a state cell, read as the render [seen] of the function shows it;
    [consecutiveDetectionsRef] is a ref, read as last written. *)
Definition detect (seen : Render) (isAI : bool) (aiPercent : number)
           (chunkId : nat) (a : App) : App :=
  if isAI then
    let a := setConsecutiveDetections (S (consecutiveDetections a)) a in
    if negb (render_detectionEvent seen) then
      let a := setDetectionEvent true a in
      emit [LogDetectionEvent chunkId; Notification aiPercent] a
    else
      emit [LogContinuing (consecutiveDetections a)] a
  else
    if render_detectionEvent seen && (0 <? consecutiveDetections a)%nat then
      let a := emit [LogEnded (consecutiveDetections a)] a in
      let a := setDetectionEvent false a in
      setConsecutiveDetections 0 a
    else a.

(** [handleStreamingResult] of the render [seen]; [now] is the value
    of [new Date()]. *)
Definition handleStreamingResult (seen : Render) (result : str)
           (chunkId : nat) (now : Z) (a : App) : App :=
  let a := emit [LogResult chunkId result] a in
  let (aiPercent, realPercent) := parseScores result in
  let isAI := gtb aiPercent (of_Z 30) in
  let detectionResult :=
    {| isAI := isAI; aiPercent := aiPercent; realPercent := realPercent;
       timestamp := now; chunkId := chunkId |} in
  let a := setLastResult (Some detectionResult) a in
  let a := setHistory (fun prev => firstn 20 (detectionResult :: prev)) a in
  let a := detect seen isAI aiPercent chunkId a in
  setStreamingStatus (ChunkVerdict chunkId isAI) a.

(** The edges of a detection event among the emitted effects: the
    alert (notification) raised when an event starts, and the line
    logged when it ends. *)
Definition rising (e : effect) : bool :=
  match e with Notification _ => true | _ => false end.
Definition falling (e : effect) : bool :=
  match e with LogEnded _ => true | _ => false end.

Definition count_rising (es : list effect) : nat :=
  List.length (filter rising es).
Definition count_falling (es : list effect) : nat :=
  List.length (filter falling es).

(** The state machine driven by a sequence of classified chunks,
    each given by its [isAI] flag, its score and its chunk id; the
    chunks of one session are all handled by the functions of one
    render. *)
Definition detect_all (seen : Render) (steps : list (bool * number * nat))
           (a : App) : App :=
  fold_left (fun a '(isAI, aiPercent, chunkId) =>
               detect seen isAI aiPercent chunkId a) steps a.

(** The chunks of a sequence that are classified as AI. *)
Definition count_ai (steps : list (bool * number * nat)) : nat :=
  List.length (filter (fun '(isAI, _, _) => isAI) steps).

(** The record built for one result text. *)
Definition resultOf (result : str) (chunkId : nat) (now : Z)
  : DetectionResult :=
  {| isAI := gtb (fst (parseScores result)) (of_Z 30);
     aiPercent := fst (parseScores result);
     realPercent := snd (parseScores result);
     timestamp := now; chunkId := chunkId |}.

(** A sequence of results handled one after the other by the
    functions of one render. *)
Definition handle_all (seen : Render) (inputs : list (str * nat * Z))
           (a : App) : App :=
  fold_left (fun a '(result, chunkId, now) =>
               handleStreamingResult seen result chunkId now a) inputs a.

(** The results of a sequence that are classified as AI. *)
Definition count_ai_results (inputs : list (str * nat * Z)) : nat :=
  List.length (filter (fun '(result, chunkId, now) =>
                         isAI (resultOf result chunkId now)) inputs).

(** *** The chunk scheduler *)

Definition bufferDuration (bufferCopy : list number) : number :=
  div (of_nat (List.length bufferCopy)) (RATE streamingConfig).

(** The chunk taken from a copy of the buffer:
    [bufferCopy.slice(-samplesNeeded)]. *)
Definition samplesNeeded : number :=
  Math_floor (mul (CHUNK_DURATION streamingConfig) (RATE streamingConfig)).

Definition chunkOf (bufferCopy : list number) : list number :=
  slice (trunc (SFopp samplesNeeded)) bufferCopy.

(** The duration gate, as a test on the number of buffered samples. *)
Definition refused (n : Z) : bool :=
  ltb (div (of_Z n) (RATE streamingConfig)) (CHUNK_DURATION streamingConfig).

(** [processStreamingChunk] of the render [seen], called by the
    interval timer at time [now] (the value of [Date.now()]), up to
    the point where the round trip of the chunk is started.
    [chunkCount] is a state cell, read as [seen] shows it; the other
    cells read are refs.  [createWavBlob] runs at once; the rest of
    [processAudioChunk] waits for the network, so the chunk joins the
    round trips in flight. *)
Definition processStreamingChunk (seen : Render) (now : Z) (a : App) : App :=
  if negb (isStreaming a) || (List.length (audioBuffer a) =? 0)%nat then a
  else if now - lastProcessTime a <? STREAM_INTERVAL streamingConfig then a
  else
    let a := setLastProcessTime now a in
    let bufferCopy := audioBuffer a in
    if ltb (bufferDuration bufferCopy) (CHUNK_DURATION streamingConfig)
    then setStreamingStatus (Buffering (bufferDuration bufferCopy)) a
    else
      let volume := calculateRMS bufferCopy in
      if ltb volume (MIN_VOLUME_THRESHOLD streamingConfig)
      then setStreamingStatus TooQuiet a
      else
        let chunkData := chunkOf bufferCopy in
        let currentChunkId := (render_chunkCount seen + 1)%nat in
        let a := setChunkCount currentChunkId a in
        let a := setStreamingStatus (Processing currentChunkId) a in
        match createWavBlob chunkData (RATE streamingConfig) with
        | Some wavBlob =>
            setInflight (inflight a ++ [{| job_chunkId := currentChunkId;
                                           job_chunkData := chunkData;
                                           job_blob := Some wavBlob;
                                           job_render := seen |}]) a
        | None =>
            setStreamingStatus (ErrorProcessing currentChunkId)
                               (emit [LogChunkError currentChunkId] a)
        end.

(** *** The round trip *)

(** What the outside answers during one round trip: whether the chunk
    could be written to the cache directory, the answer to the upload
    ([None] when [fetch] rejects, else the [ok] flag and the parsed
    body), the answer to the submit call, the text answered to the
    i-th poll, and whether the temporary file could be deleted. *)
Record Net := {
  write_ok : bool;
  upload_response : option (bool * option js);
  predict_response : option (option js);
  poll_response : nat -> option str;
  delete_ok : bool
}.

Section Polling.
(** [JSON.parse]: [None] when it throws. *)
Variable JSON_parse : str -> option js.

(** The inner [for ... of] loop over the lines of one response;
    [result] is the variable declared before the polling loop. *)
Fixpoint scanLines (lines : list str) (result : js) : js :=
  match lines with
  | [] => result
  | line :: rest =>
      if startsWith line (lit "data: ") then
        match JSON_parse (slice6 line) with
        | Some (JArr (first :: _)) => first
        | _ => scanLines rest result
        end
      else scanLines rest result
  end.

(** The polling loop [for (let i = 0; i < 10; i++)], with
    [remaining] turns left before [i] reaches 10.  The answer is the
    calls made and the final value of [result], or [None] when a
    call threw. *)
Fixpoint pollLoop (poll : nat -> option str) (remaining i : nat)
         (result : js) : list effect * option js :=
  match remaining with
  | O => ([], Some result)
  | S remaining' =>
      match poll i with
      | None => ([Poll], None)
      | Some text =>
          let result := scanLines (split_lines text) result in
          if truthy result then ([Poll], Some result)
          else
            let '(calls, final) := pollLoop poll remaining' (S i) result in
            (Poll :: Sleep 200 :: calls, final)
      end
  end.

(** How a round trip ends: with a text handed to
    [handleStreamingResult], with nothing to hand over, or in the
    [catch] block. *)
Inductive outcome :=
| Handled (result : js)
| NoResult
| Caught.

(** [processAudioChunk] from the write of the temporary file to the
    end of the polling loop. *)
Definition roundTrip (net : Net) (chunkId : nat) : list effect * outcome :=
  if negb (write_ok net) then ([WriteFile chunkId], Caught)
  else
    match upload_response net with
    | None | Some (false, _) | Some (true, None) =>
        ([WriteFile chunkId; Upload chunkId], Caught)
    | Some (true, Some uploadResult) =>
        match index0 uploadResult with
        | None => ([WriteFile chunkId; Upload chunkId], Caught)
        | Some filePath =>
            match predict_response net with
            | None | Some None =>
                ([WriteFile chunkId; Upload chunkId; Predict], Caught)
            | Some (Some predictionResult) =>
                match event_id predictionResult with
                | None =>
                    ([WriteFile chunkId; Upload chunkId; Predict], Caught)
                | Some eventId =>
                    let '(calls, final) :=
                      pollLoop (poll_response net) 10 0 JNull in
                    ([WriteFile chunkId; Upload chunkId; Predict] ++ calls,
                     match final with
                     | None => Caught
                     | Some result =>
                         if truthy result then Handled result else NoResult
                     end)
                end
            end
        end
    end.

(** The end of [processAudioChunk] of the render [seen]: the result,
    if any, goes to [handleStreamingResult] of that render; a result
    that is not a string makes [result.match] throw after the first
    console line; then the temporary file is deleted. *)
Definition processAudioChunk (seen : Render) (net : Net) (chunkId : nat)
           (now : Z) (a : App) : App :=
  let '(calls, out) := roundTrip net chunkId in
  let a := emit calls a in
  let cleanup :=
    if delete_ok net then [DeleteFile chunkId]
    else [DeleteFile chunkId; LogChunkError chunkId] in
  match out with
  | Handled (JStr result) =>
      emit cleanup (handleStreamingResult seen result chunkId now a)
  | Handled _ => emit [LogChunkError chunkId] a
  | NoResult => emit cleanup a
  | Caught => emit [LogChunkError chunkId] a
  end.

(** *** The session *)

(** [startRecording], called from the interface; [capture_ok] tells
    whether the capture could be started.  The callback of the
    interval calls the [processStreamingChunk] of the render that
    [startRecording] itself belongs to: the one that shows the cells
    as they are when the handler is called, before it resets them. *)
Definition startRecording (capture_ok : bool) (a : App) : App :=
  let seen := render_of a in
  let a := setAudioBuffer [] a in
  let a := setChunkCount 0 a in
  let a := setConsecutiveDetections 0 a in
  let a := setDetectionEvent false a in
  let a := setIsStreaming true a in
  if capture_ok then
    let a := setIsRecording true a in
    let a := setStreamingStatus WaitingForAudio a in
    setStreamingInterval (Some seen) a
  else
    let a := setIsRecording false a in
    setIsStreaming false a.

(** [stopRecording], called from the interface; [release_ok] tells
    whether the capture could be released. *)
Definition stopRecording (release_ok : bool) (a : App) : App :=
  if negb (isRecording a) then a
  else
    let a := setIsStreaming false a in
    let a := setIsRecording false a in
    let a := match streamingInterval a with
             | Some _ => setStreamingInterval None a
             | None => a
             end in
    if release_ok then setStreamingStatus Stopped a else a.

(** What can happen to the component: the user starts or stops the
    session, the interval timer fires, the round trip of the k-th
    chunk in flight comes to its end. *)
Inductive event :=
| Start (capture_ok : bool)
| Stop (release_ok : bool)
| Tick (now : Z)
| RoundTripEnds (k : nat) (net : Net) (now : Z).

Definition remove_nth {A : Type} (k : nat) (l : list A) : list A :=
  firstn k l ++ skipn (S k) l.

Definition step (e : event) (a : App) : App :=
  match e with
  | Start capture_ok => startRecording capture_ok a
  | Stop release_ok => stopRecording release_ok a
  | Tick now =>
      match streamingInterval a with
      | Some seen => processStreamingChunk seen now a
      | None => a
      end
  | RoundTripEnds k net now =>
      match nth_error (inflight a) k with
      | Some job =>
          processAudioChunk (job_render job) net (job_chunkId job) now
                            (setInflight (remove_nth k (inflight a)) a)
      | None => a
      end
  end.

Definition run_events (es : list event) (a : App) : App :=
  fold_left (fun a e => step e a) es a.

End Polling.

Definition count_uploads (es : list effect) : nat :=
  List.length (filter (fun e => match e with Upload _ => true | _ => false end) es).

Definition count_polls (es : list effect) : nat :=
  List.length (filter (fun e => match e with Poll => true | _ => false end) es).

(** *** Reference points for the statements below *)

(** The job that [processStreamingChunk] of the render [seen] starts
    when it gets past every gate. *)
Definition next_job (seen : Render) (a : App) (wavBlob : Blob) : Job :=
  {| job_chunkId := (render_chunkCount seen + 1)%nat;
     job_chunkData := chunkOf (audioBuffer a);
     job_blob := Some wavBlob;
     job_render := seen |}.

(** The payload of a line of a poll response, and the first element
    of the first payload that is a non-empty array. *)
Definition payload (JSON_parse : str -> option js) (line : str) : option js :=
  if startsWith line (lit "data: ") then JSON_parse (slice6 line) else None.

Definition first_of_array (v : option js) : list js :=
  match v with
  | Some (JArr (first :: _)) => [first]
  | _ => []
  end.

Definition first_array (JSON_parse : str -> option js) (lines : list str)
  : option js :=
  hd_error (flat_map (fun line => first_of_array (payload JSON_parse line)) lines).

(** The first payload that is an array whose first element is a
    non-empty string. *)
Definition nonempty_string (v : option js) : list str :=
  match v with
  | Some (JArr (JStr (c :: s) :: _)) => [c :: s]
  | _ => []
  end.

Definition first_string_array (JSON_parse : str -> option js)
           (lines : list str) : option str :=
  hd_error (flat_map (fun line => nonempty_string (payload JSON_parse line)) lines).

Definition is_sleep_200 (e : effect) : bool :=
  match e with Sleep ms => ms =? 200 | _ => true end.

(** The part of the component a detection result can change, and the
    part that tells whether the session goes on. *)
Definition verdicts (a : App) :=
  (lastResult a, history a, detectionEvent a, consecutiveDetections a).

Definition session (a : App) :=
  (isRecording a, isStreaming a, streamingInterval a, chunkCount a,
   audioBuffer a, lastProcessTime a, inflight a).

(** *** A statement that the code does not satisfy *)

(** The scan of a response selects the first payload that is an array
    whose first element is a non-empty string. *)
Definition selects_first_string (JSON_parse : str -> option js) : Prop :=
  forall lines r,
    first_string_array JSON_parse lines = Some r ->
    scanLines JSON_parse lines JNull = JStr r.

(** *** A session for the examples *)

(** Four seconds of samples: a click of full amplitude followed by
    silence. *)
Definition four_seconds : list number :=
  of_Z 1 :: repeat zero (Z.to_nat 88199).

(** A session that has been started, with four seconds of samples put
    in its buffer.  The component never writes a sample itself; this
    state serves to run the scheduler on a buffer that passes its
    gates. *)
Definition recording : App :=
  setAudioBuffer four_seconds (startRecording true initial).

Definition quote : ascii := "034"%char.
Definition newline : ascii := "010"%char.

(** A response whose first data line carries the array [[7]] and whose
    second data line carries a result text. *)
Definition number_then_text : str :=
  lit "data: [7]" ++ [newline]
  ++ lit "data: [" ++ [quote] ++ lit "AI Generated: 90%" ++ [quote] ++ lit "]".

(** A response as the classifier sends it when the job is complete. *)
Definition complete_response : str :=
  lit "event: complete" ++ [newline]
  ++ lit "data: [" ++ [quote]
  ++ lit "AI Generated: 90% | Real Voice: 10%" ++ [quote] ++ lit "]"
  ++ [newline].

(** A network on which every call succeeds and every poll is answered
    by [text]. *)
Definition answering (text : str) : Net :=
  {| write_ok := true;
     upload_response := Some (true, Some (JArr [JStr (lit "/tmp/chunk.wav")]));
     predict_response :=
       Some (Some (JObj [(lit "event_id", JStr (lit "e1"))]));
     poll_response := fun _ => Some text;
     delete_ok := true |}.

End Streaming.

(* ================================================================== *)
(** ** The single-request flow ([App.tsx]) *)

Module SingleRequest.
Import Num RegExp ScoreParser.

Record DetectionResult := {
  isAI : bool;
  aiPercent : number;
  realPercent : number;
  timestamp : Z
}.

(** The result built by [processAudio] once polling has produced the
    text [result]. *)
Definition detectionResult (result : str) (now : Z) : DetectionResult :=
  let (aiPercent, realPercent) := parseScores result in
  let isAI := gtb aiPercent (of_Z 50) in
  {| isAI := isAI; aiPercent := aiPercent; realPercent := realPercent;
     timestamp := now |}.

Definition pushHistory (d : DetectionResult) (prev : list DetectionResult)
  : list DetectionResult :=
  firstn 10 (d :: prev).

End SingleRequest.

(* ================================================================== *)
(** ** What the statements on the streaming component observe *)

Module Observed.
Import Num Streaming.

Definition is_sleep (e : effect) : bool :=
  match e with Sleep _ => true | _ => false end.

Definition is_delete (e : effect) : bool :=
  match e with DeleteFile _ => true | _ => false end.

Definition is_write (e : effect) : bool :=
  match e with WriteFile _ => true | _ => false end.

Definition count_sleeps (es : list effect) : nat :=
  List.length (filter is_sleep es).

Definition count_deletes (es : list effect) : nat :=
  List.length (filter is_delete es).

Definition count_writes (es : list effect) : nat :=
  List.length (filter is_write es).

(** The milliseconds spent in [setTimeout] delays. *)
Definition waited (es : list effect) : Z :=
  fold_right (fun e total => match e with Sleep ms => ms + total | _ => total end)
             0 es.

(** Whether the temporary file of a round trip is deleted, by the way
    the round trip ends. *)
Definition cleans_up (out : outcome) : bool :=
  match out with
  | Handled (JS.JStr _) | NoResult => true
  | _ => false
  end.

(** A sample that is a zero of either sign. *)
Definition is_zero (x : number) : bool :=
  match x with S754_zero _ => true | _ => false end.

(** A number that is neither NaN nor negative: a zero, a positive
    finite number or [+Infinity]. *)
Definition is_score (x : number) : bool :=
  match x with
  | S754_zero _ | S754_finite false _ _ | S754_infinity false => true
  | _ => false
  end.

(** The cells as they are when no event has written a sample, a
    result or a call. *)
Definition untouched (a : App) : Prop :=
  audioBuffer a = [] /\ inflight a = [] /\ chunkCount a = 0%nat
  /\ effects a = [] /\ lastResult a = None /\ history a = []
  /\ detectionEvent a = false /\ consecutiveDetections a = 0%nat.

(** The ASCII letters, the only characters whose case the [i] flag
    ignores. *)
Definition is_letter (c : ascii) : bool :=
  let n := nat_of_ascii c in
  ((65 <=? n) && (n <=? 90) || (97 <=? n) && (n <=? 122))%nat.

(** [lines.join('\n')], the inverse of [text.split('\n')]. *)
Fixpoint join_lines (lines : list RegExp.str) : RegExp.str :=
  match lines with
  | [] => []
  | [line] => line
  | line :: rest => line ++ newline :: join_lines rest
  end.

Definition no_newline (line : RegExp.str) : bool :=
  forallb (fun c => negb (Ascii.eqb c newline)) line.

End Observed.

(* ================================================================== *)
(** ** The recorder of [App.tsx]: thirty seconds, then one request *)

Module Recorder.
Import Num RegExp ScoreParser JS SingleRequest.

(** [a >= b]; false as soon as one side is NaN. *)
Definition geb (a b : number) : bool := SFleb b a.

(** [Math.round]: the nearest integer, a tie going up. *)
Definition roundZ (x : number) : Z :=
  match x with
  | S754_finite s m e =>
      match e with
      | Zneg k =>
          if s then - ((2 * Zpos m + 2 ^ Zpos k - 1) / 2 ^ (Zpos k + 1))
          else (2 * Zpos m + 2 ^ Zpos k) / 2 ^ (Zpos k + 1)
      | _ => if s then - (Zpos m * 2 ^ e) else Zpos m * 2 ^ e
      end
  | _ => 0
  end.

(** *** The progress timer *)

(** The function handed to [setProgress] by the interval callback of
    [startRecording]: the new value of [progress], and whether the
    callback clears the interval and calls [stopRecording]. *)
Definition progressUpdater (prev : number) : number * bool :=
  let newProgress := add prev (div (of_Z 1) (of_Z 30)) in
  (Math_min newProgress (of_Z 1), geb newProgress (of_Z 1)).

(** The timer started by [startRecording]: the progress cell, whether
    the interval is still set, and how many times the callback has
    called [stopRecording]. *)
Record Timer := {
  progress : number;
  running : bool;
  stops : nat
}.

(** [setProgress(0)] followed by [setInterval(..., 1000)]. *)
Definition started : Timer :=
  {| progress := of_Z 0; running := true; stops := 0 |}.

(** One firing of the interval. *)
Definition tick (t : Timer) : Timer :=
  if running t then
    let (p, fire) := progressUpdater (progress t) in
    {| progress := p;
       running := negb fire;
       stops := if fire then S (stops t) else stops t |}
  else t.

Definition ticks (n : nat) (t : Timer) : Timer := Nat.iter n tick t.

(** The seconds shown under the bar: [Math.round(progress * 30)]. *)
Definition shownSeconds (progress : number) : Z :=
  roundZ (mul progress (of_Z 30)).

(** *** The request *)

(** The text that stands for a match without capture groups
    ([GetSubstitution]): in the replacement text [$$] stands for a
    dollar sign, [$&] for the matched text, [$`] for the text before
    the match and [$'] for the text after it; every other character
    stands for itself, a dollar sign that starts none of these four
    included. *)
Fixpoint getSubstitution (matched before after replacement : str) : str :=
  match replacement with
  | [] => []
  | c :: r =>
      if Ascii.eqb c "$"%char then
        match r with
        | d :: r' =>
            if Ascii.eqb d "$"%char
            then "$"%char :: getSubstitution matched before after r'
            else if Ascii.eqb d "&"%char
            then matched ++ getSubstitution matched before after r'
            else if Ascii.eqb d "`"%char
            then before ++ getSubstitution matched before after r'
            else if Ascii.eqb d "'"%char
            then after ++ getSubstitution matched before after r'
            else c :: getSubstitution matched before after r
        | [] => [c]
        end
      else c :: getSubstitution matched before after r
  end.

(** The search of [s.replace(pattern, replacement)] for a pattern
    that is a string, with [before] the part of the text already
    passed: the first occurrence is replaced. *)
Fixpoint replace_from (before pattern replacement s : str) : str :=
  if startsWith s pattern
  then getSubstitution pattern before (skipn (List.length pattern) s)
                       replacement
       ++ skipn (List.length pattern) s
  else match s with
       | [] => []
       | c :: s' => c :: replace_from (before ++ [c]) pattern replacement s'
       end.

(** [s.replace(pattern, replacement)], both arguments strings. *)
Definition replace (pattern replacement s : str) : str :=
  replace_from [] pattern replacement s.

(** [pattern] occurs in [s] at index [k]. *)
Definition occurs (pattern s : str) (k : nat) : Prop :=
  exists pre post, s = pre ++ pattern ++ post /\ List.length pre = k.

(** Where the component runs: [isDevelopment], and whether
    [Platform.OS] is ['ios']. *)
Record Env := {
  isDevelopment : bool;
  ios : bool
}.

Inductive effect :=
| LogError (what : string)
| Alert (title message : string)
| Upload (uri : str) (type name : string)
| Predict (filePath : js)
| Poll (eventId : js)
| Sleep (ms : Z)
| Notification (aiPercent : number)
| DeleteFile (path : str)
| StopAndUnload
| StopScreenRecorder.

(** What the outside answers during one request: the answer to the
    upload ([None] when [fetch] rejects, else the [ok] flag and the
    parsed body), the answer to the submit call, the text answered to
    the i-th poll, and whether the notification could be scheduled.
    (Whether the file could be deleted changes nothing: a failure is
    only logged.) *)
Record Net := {
  upload_response : option (bool * option js);
  predict_response : option (option js);
  poll_response : nat -> option str;
  notify_ok : bool
}.

(** The recording kept in [devRecording]: what [getURI()] answers. *)
Record Recording := { getURI : option str }.

Record App := {
  isRecording : bool;
  isProcessing : bool;
  lastResult : option DetectionResult;
  history : list DetectionResult;
  devRecording : option Recording;
  effects : list effect
}.

Definition setIsRecording (v : bool) (a : App) : App :=
  {| isRecording := v; isProcessing := isProcessing a;
     lastResult := lastResult a; history := history a;
     devRecording := devRecording a; effects := effects a |}.

Definition setIsProcessing (v : bool) (a : App) : App :=
  {| isRecording := isRecording a; isProcessing := v;
     lastResult := lastResult a; history := history a;
     devRecording := devRecording a; effects := effects a |}.

Definition setLastResult (v : option DetectionResult) (a : App) : App :=
  {| isRecording := isRecording a; isProcessing := isProcessing a;
     lastResult := v; history := history a;
     devRecording := devRecording a; effects := effects a |}.

Definition setHistory (f : list DetectionResult -> list DetectionResult)
           (a : App) : App :=
  {| isRecording := isRecording a; isProcessing := isProcessing a;
     lastResult := lastResult a; history := f (history a);
     devRecording := devRecording a; effects := effects a |}.

Definition setDevRecording (v : option Recording) (a : App) : App :=
  {| isRecording := isRecording a; isProcessing := isProcessing a;
     lastResult := lastResult a; history := history a;
     devRecording := v; effects := effects a |}.

Definition emit (es : list effect) (a : App) : App :=
  {| isRecording := isRecording a; isProcessing := isProcessing a;
     lastResult := lastResult a; history := history a;
     devRecording := devRecording a; effects := effects a ++ es |}.

(** The part appended to the form: the file as it is in development
    mode; in production the recording, whose [file://] prefix is
    removed on iOS. *)
Definition formPart (env : Env) (audioPath : str) : effect :=
  if isDevelopment env then Upload audioPath "audio/wav" "audio.wav"
  else Upload (if ios env then replace (lit "file://") [] audioPath
               else audioPath)
              "video/mp4" "recording.mp4".

Section Request.
(** [JSON.parse]: [None] when it throws. *)
Variable JSON_parse : str -> option js.

(** The polling loop [for (let i = 0; i < 30; i++)], with [remaining]
    turns left; the lines of a response are scanned as in the
    streaming component.  The answer is the calls made and the final
    value of [result], or [None] when a call threw. *)
Fixpoint pollResult (eventId : js) (poll : nat -> option str)
         (remaining i : nat) (result : js) : list effect * option js :=
  match remaining with
  | O => ([], Some result)
  | S remaining' =>
      match poll i with
      | None => ([Poll eventId], None)
      | Some text =>
          let result :=
            Streaming.scanLines JSON_parse (split_lines text) result in
          if truthy result then ([Poll eventId], Some result)
          else
            let '(calls, final) :=
              pollResult eventId poll remaining' (S i) result in
            (Poll eventId :: Sleep 1000 :: calls, final)
      end
  end.

(** [processAudio] from the upload to the end of the polling loop:
    the calls made, and the value of [result] ([None] when something
    threw on the way). *)
Definition request (env : Env) (net : Net) (audioPath : str)
  : list effect * option js :=
  match upload_response net with
  | None | Some (false, _) | Some (true, None) =>
      ([formPart env audioPath], None)
  | Some (true, Some uploadResult) =>
      match index0 uploadResult with
      | None => ([formPart env audioPath], None)
      | Some filePath =>
          match predict_response net with
          | None | Some None =>
              ([formPart env audioPath; Predict filePath], None)
          | Some (Some predictionResult) =>
              match event_id predictionResult with
              | None => ([formPart env audioPath; Predict filePath], None)
              | Some eventId =>
                  let '(calls, final) :=
                    pollResult eventId (poll_response net) 30 0 JNull in
                  ([formPart env audioPath; Predict filePath] ++ calls, final)
              end
          end
      end
  end.

(** The [catch] block of [processAudio]. *)
Definition processingFailed (a : App) : App :=
  emit [LogError "Processing error:"; Alert "Error" "Failed to process audio"] a.

(** [processAudio]; [now] is the value of [new Date()].  A result that
    is not a string makes [result.match] throw; a notification that
    cannot be scheduled throws after the result has been stored. *)
Definition processAudio (env : Env) (net : Net) (audioPath : str) (now : Z)
           (a : App) : App :=
  let '(calls, final) := request env net audioPath in
  let a := emit calls a in
  let a :=
    match final with
    | None => processingFailed a
    | Some result =>
        if truthy result then
          match result with
          | JStr text =>
              let d := detectionResult text now in
              let a := setLastResult (Some d) a in
              let a := setHistory (pushHistory d) a in
              if isAI d then
                let a := emit [Notification (aiPercent d)] a in
                if notify_ok net then emit [DeleteFile audioPath] a
                else processingFailed a
              else emit [DeleteFile audioPath] a
          | _ => processingFailed a
          end
        else emit [DeleteFile audioPath] a
    end in
  setIsProcessing false a.

(** What the recorder answers when it is stopped: whether
    [stopAndUnloadAsync()] succeeds, and the path answered by
    [ScreenRecorder.stopRecording()] ([None] when it rejects). *)
Record Capture := {
  unload_ok : bool;
  videoPath : option str
}.

(** The [catch] block of [stopRecording]. *)
Definition stopFailed (a : App) : App :=
  emit [LogError "Failed to stop recording:";
        Alert "Error" "Failed to stop recording"] a.

(** [stopRecording] of a render that shows [devRecording] as [held]:
    [devRecording] is a state cell, read as the render of the function
    shows it. *)
Definition stopRecordingOf (held : option Recording) (env : Env)
           (cap : Capture) (net : Net) (now : Z) (a : App) : App :=
  let a := setIsRecording false a in
  if isDevelopment env then
    match held with
    | Some recording =>
        let a := emit [StopAndUnload] a in
        if unload_ok cap then
          match getURI recording with
          | Some (c :: uri) =>
              let a := setDevRecording None a in
              let a := setIsProcessing true a in
              processAudio env net (c :: uri) now a
          | _ => stopFailed a
          end
        else stopFailed a
    | None => stopFailed a
    end
  else
    let a := emit [StopScreenRecorder] a in
    match videoPath cap with
    | Some path =>
        let a := setIsProcessing true a in
        processAudio env net path now a
    | None => stopFailed a
    end.

(** [stopRecording] called from the interface: the handler belongs to
    the latest render, which shows the cells as last written. *)
Definition stopRecording (env : Env) (cap : Capture) (net : Net) (now : Z)
           (a : App) : App :=
  stopRecordingOf (devRecording a) env cap net now a.

(** One firing of the interval together with the component.  The
    callback belongs to the render in which [startRecording] ran, and
    so does the [stopRecording] it calls: [held] is [devRecording] as
    that render shows it. *)
Definition firing (held : option Recording) (env : Env) (cap : Capture)
           (net : Net) (now : Z) (ta : Timer * App) : Timer * App :=
  let (t, a) := ta in
  if running t then
    let (p, fire) := progressUpdater (progress t) in
    ({| progress := p;
        running := negb fire;
        stops := if fire then S (stops t) else stops t |},
     if fire then stopRecordingOf held env cap net now a else a)
  else ta.

Definition firings (held : option Recording) (env : Env) (cap : Capture)
           (net : Net) (now : Z) (n : nat) (ta : Timer * App) : Timer * App :=
  Nat.iter n (firing held env cap net now) ta.

End Request.

Definition is_poll (e : effect) : bool :=
  match e with Poll _ => true | _ => false end.
Definition is_upload (e : effect) : bool :=
  match e with Upload _ _ _ => true | _ => false end.
Definition is_notification (e : effect) : bool :=
  match e with Notification _ => true | _ => false end.
Definition is_delete (e : effect) : bool :=
  match e with DeleteFile _ => true | _ => false end.

Definition count (p : effect -> bool) (es : list effect) : nat :=
  List.length (filter p es).

Definition waited (es : list effect) : Z :=
  fold_right (fun e total => match e with Sleep ms => ms + total | _ => total end)
             0 es.

(** The result text a request ends with, if any. *)
Definition resultText (final : option js) : option str :=
  match final with
  | Some (JStr (c :: text)) => Some (c :: text)
  | _ => None
  end.

End Recorder.

(* ================================================================== *)
(** ** The microphone recorder *)

Module MicRecorder.
Import Num RegExp ScoreParser JS.

(** What [recording.getStatusAsync()] answers, as far as the monitor
    reads it. *)
Record Status := {
  isRecording : bool;
  durationMillis : Z
}.

(** The interval callback of [startRecording], once the status has
    arrived: the value given to [setProgress], and whether the
    callback clears the interval and calls [stopRecording]; [None]
    when the status says that nothing is being recorded. *)
Definition monitor (status : Status) : option (number * bool) :=
  if isRecording status then
    Some (Math_min (div (of_Z (durationMillis status)) (of_Z 30000)) (of_Z 1),
          30000 <=? durationMillis status)
  else None.

Record Verdict := {
  isAI : bool;
  aiPercent : number;
  realPercent : number
}.

Record App := {
  recording : option Recorder.Recording;
  isProcessing : bool;
  progress : number;
  lastResult : option Verdict;
  effects : list Recorder.effect
}.

Definition setRecording (v : option Recorder.Recording) (a : App) : App :=
  {| recording := v; isProcessing := isProcessing a; progress := progress a;
     lastResult := lastResult a; effects := effects a |}.

Definition setIsProcessing (v : bool) (a : App) : App :=
  {| recording := recording a; isProcessing := v; progress := progress a;
     lastResult := lastResult a; effects := effects a |}.

Definition setProgress (v : number) (a : App) : App :=
  {| recording := recording a; isProcessing := isProcessing a; progress := v;
     lastResult := lastResult a; effects := effects a |}.

Definition setLastResult (v : option Verdict) (a : App) : App :=
  {| recording := recording a; isProcessing := isProcessing a;
     progress := progress a; lastResult := v; effects := effects a |}.

Definition emit (es : list Recorder.effect) (a : App) : App :=
  {| recording := recording a; isProcessing := isProcessing a;
     progress := progress a; lastResult := lastResult a;
     effects := effects a ++ es |}.

(** The verdict read from a result text. *)
Definition verdict (text : str) : Verdict :=
  let (aiPercent, realPercent) := parseScores text in
  {| isAI := gtb aiPercent (of_Z 50); aiPercent := aiPercent;
     realPercent := realPercent |}.

Section Request.
(** [JSON.parse]: [None] when it throws. *)
Variable JSON_parse : str -> option js.

(** The [catch] block of [processAudio]. *)
Definition processingFailed (a : App) : App :=
  emit [Recorder.LogError "Error:";
        Recorder.Alert "Error" "Failed to process audio"] a.

(** [processAudio] from the upload to the end of the polling loop.
    The upload, the submit call and the polls are those of the request
    of [App.tsx] for a sound file; a refused upload is logged with the
    text of its body before the error is thrown ([None] as the body
    stands there for a text that cannot be read: nothing is logged). *)
Definition request (net : Recorder.Net) (audioUri : str)
  : list Recorder.effect * option js :=
  match Recorder.upload_response net with
  | Some (false, Some errorText) =>
      ([Recorder.Upload audioUri "audio/wav" "audio.wav";
        Recorder.LogError "Upload error:"], None)
  | _ =>
      Recorder.request JSON_parse
        {| Recorder.isDevelopment := true; Recorder.ios := false |}
        net audioUri
  end.

(** [processAudio].  The notification is scheduled before the verdict
    is stored; the [finally] block clears the processing flag and
    deletes the recording. *)
Definition processAudio (net : Recorder.Net) (audioUri : str) (a : App)
  : App :=
  let '(calls, final) := request net audioUri in
  let a := emit calls a in
  let store (v : Verdict) (a : App) : App :=
    setLastResult (Some v) (setProgress (of_Z 0) a) in
  let a :=
    match final with
    | None => processingFailed a
    | Some result =>
        if truthy result then
          match result with
          | JStr text =>
              let v := verdict text in
              if isAI v then
                let a := emit [Recorder.Notification (aiPercent v)] a in
                if Recorder.notify_ok net then store v a
                else processingFailed a
              else store v a
          | _ => processingFailed a
          end
        else a
    end in
  let a := setIsProcessing false a in
  emit [Recorder.DeleteFile audioUri] a.

(** [stopRecording] of a render that shows the cell [recording] as
    [seen]; [unload_ok] tells whether the recorder could be stopped
    and the audio mode set back.  Nothing catches a failure there: the
    handler ends, with the recording already cleared. *)
Definition stopRecordingOf (seen : option Recorder.Recording)
           (unload_ok : bool) (net : Recorder.Net) (a : App) : App :=
  match seen with
  | None => a
  | Some held =>
      let a := setRecording None a in
      let a := emit [Recorder.StopAndUnload] a in
      if unload_ok then
        match Recorder.getURI held with
        | Some (c :: uri) =>
            processAudio net (c :: uri) (setIsProcessing true a)
        | _ => a
        end
      else a
  end.

(** [stopRecording] called from the interface: the handler belongs to
    the latest render, which shows the cells as last written. *)
Definition stopRecording (unload_ok : bool) (net : Recorder.Net) (a : App)
  : App :=
  stopRecordingOf (recording a) unload_ok net a.

(** One firing of the interval of [startRecording] on the component,
    once the status has arrived, and whether the interval is cleared.
    The callback belongs to the render in which [startRecording] ran,
    and so does the [stopRecording] it calls: [seen] is the cell
    [recording] as that render shows it (the recorder the callback
    asks for its status is the local constant of [startRecording]). *)
Definition monitorFiring (seen : option Recorder.Recording)
           (unload_ok : bool) (net : Recorder.Net) (status : Status)
           (a : App) : App * bool :=
  match monitor status with
  | None => (a, false)
  | Some (prog, fired) =>
      let a := setProgress prog a in
      if fired then (stopRecordingOf seen unload_ok net a, true)
      else (a, false)
  end.

End Request.

(** The verdict that [processAudio] stores: the one read from the text
    the request ends with, unless its notification could not be
    scheduled. *)
Definition stored (net : Recorder.Net) (final : option js) : option Verdict :=
  match Recorder.resultText final with
  | Some text =>
      if isAI (verdict text) && negb (Recorder.notify_ok net) then None
      else Some (verdict text)
  | None => None
  end.

End MicRecorder.

(* ================================================================== *)
(** ** The simulated detector *)

Module Simulation.
Import Num RegExp.

Inductive kind := voice | text.

Record DetectionResult := {
  isAI : bool;
  aiPercent : number;
  timestamp : Z;
  type : option kind
}.

Record DetectionStats := {
  total : nat;
  ai : nat;
  real : nat;
  alerts : nat
}.

Inductive effect :=
| ClearInterval
| Notification (aiPercent : number).

Record App := {
  lastResult : option DetectionResult;
  stats : DetectionStats;
  effects : list effect
}.

Definition initial : App :=
  {| lastResult := None;
     stats := {| total := 0; ai := 0; real := 0; alerts := 0 |};
     effects := [] |}.

(** The values the interval callback reads from the scope it was
    created in. *)
Record Seen := {
  isRecording : bool;
  voiceDetectionEnabled : bool;
  textDetectionEnabled : bool
}.

(** [array[i]] for a number [i]: [undefined] unless [i] is an index
    of the array. *)
Definition at_index {A : Type} (array : list A) (i : number) : option A :=
  match i with
  | S754_zero _ => nth_error array 0
  | S754_finite false _ _ =>
      if SFeqb (Math_floor i) i then nth_error array (Z.to_nat (floorZ i))
      else None
  | _ => None
  end.

(** The function handed to [setStats]. *)
Definition updateStats (result : DetectionResult) (prev : DetectionStats)
  : DetectionStats :=
  {| total := total prev + 1;
     ai := ai prev + (if isAI result then 1 else 0);
     real := real prev + (if isAI result then 0 else 1);
     alerts := alerts prev + (if isAI result then 1 else 0) |}.

(** One firing of the interval of [startDetectionSimulation]; [r1],
    [r2] and [r3] are the values of the three calls of
    [Math.random()], in the order they are made, and [now] is the
    value of [new Date()]. *)
Definition simulate (seen : Seen) (r1 r2 r3 : number) (now : Z) (a : App)
  : App :=
  if negb (isRecording seen) then
    {| lastResult := lastResult a; stats := stats a;
       effects := effects a ++ [ClearInterval] |}
  else
    let types :=
      (if voiceDetectionEnabled seen then [voice] else [])
      ++ (if textDetectionEnabled seen then [text] else []) in
    if (List.length types =? 0)%nat then a
    else
      let randomType :=
        at_index types (Math_floor (mul r1 (of_nat (List.length types)))) in
      let isAIDetected := gtb r2 (decimal 83 2) in
      let result :=
        {| isAI := isAIDetected;
           aiPercent := if isAIDetected
                        then add (of_Z 78) (mul r3 (of_Z 22))
                        else mul r3 (of_Z 32);
           timestamp := now;
           type := randomType |} in
      {| lastResult := Some result;
         stats := updateStats result (stats a);
         effects := effects a
                    ++ (if isAI result then [Notification (aiPercent result)]
                        else []) |}.

(** A sequence of firings, each with what it sees, its random values
    and its time. *)
Definition simulate_all
           (firings : list (Seen * number * number * number * Z)) (a : App)
  : App :=
  fold_left (fun a '(seen, r1, r2, r3, now) => simulate seen r1 r2 r3 now a)
            firings a.

Definition count_notifications (es : list effect) : nat :=
  List.length (filter (fun e => match e with Notification _ => true
                                        | _ => false end) es).

(** The counters agree with one another and with what has been
    emitted. *)
Definition consistent (a : App) : Prop :=
  total (stats a) = (ai (stats a) + real (stats a))%nat
  /\ alerts (stats a) = ai (stats a)
  /\ count_notifications (effects a) = alerts (stats a)
  /\ (lastResult a = None <-> total (stats a) = 0%nat).

End Simulation.

(* ================================================================== *)
(** * Properties *)

Section VolumeFacts.
Import Num Volume.

Lemma fold_squares (xs : list number) (acc : number) :
  fold_left (fun a v => add a (mul v v)) xs acc
  = fold_left add (map square xs) acc.
Proof.
  revert acc; induction xs as [| x xs IH]; intro acc; simpl.
  - reflexivity.
  - rewrite IH. reflexivity.
Qed.

Lemma round_not_negative (m e : Z) (l : location) :
  not_negative (binary_round_aux prec emax false m e l) = true.
Proof.
  unfold binary_round_aux.
  destruct (shr_fexp prec emax m e l) as [mrs1 e1].
  destruct (shr_fexp prec emax _ e1 loc_Exact) as [mrs2 e2].
  destruct (shr_m mrs2); simpl; try reflexivity.
  destruct (e2 <=? _); reflexivity.
Qed.

Lemma sqrt_not_negative (x : number) : not_negative (sqrt x) = true.
Proof.
  destruct x as [s | s | | s m e]; simpl; try reflexivity.
  - destruct s; reflexivity.
  - destruct s; simpl; try reflexivity.
    unfold sqrt, SFsqrt.
    destruct (SFsqrt_core_binary prec emax (Zpos m) e) as [[mz ez] lz].
    apply round_not_negative.
Qed.

(** C10. [calculateRMS] is a total function: on the empty sequence it
    answers 0 without dividing, on every other sequence it answers the
    square root of the mean of the squared samples, and its answer is
    never a negative number, so the comparison of the volume gate is
    defined on every input. *)
Theorem calculateRMS_total :
  calculateRMS [] = zero
  /\ (forall xs, xs <> [] -> calculateRMS xs = rms_formula xs)
  /\ (forall xs, not_negative (calculateRMS xs) = true).
Proof.
  split; [reflexivity | split].
  - intros xs Hne. unfold calculateRMS, rms_formula, mean, total.
    destruct xs as [| x xs]; [contradiction |].
    cbn [List.length Nat.eqb]. rewrite fold_squares, length_map. reflexivity.
  - intros xs. unfold calculateRMS.
    destruct (List.length xs =? 0)%nat; [reflexivity | apply sqrt_not_negative].
Qed.

Lemma calculateRMS_total_witness :
  [of_Z 3; of_Z 4] <> []
  /\ calculateRMS [of_Z 3; of_Z 4] = rms_formula [of_Z 3; of_Z 4].
Proof.
  split; [discriminate |].
  apply (proj1 (proj2 calculateRMS_total)). discriminate.
Defined.

End VolumeFacts.

(* ------------------------------------------------------------------ *)

Section WavFacts.
Import Num Wav.

Lemma le_bytes_length (n : nat) (v : Z) : List.length (le_bytes n v) = n.
Proof.
  revert v; induction n as [| n IH]; intro v; simpl; [| rewrite IH]; reflexivity.
Qed.

Lemma write_at_app (pre old post bs : list Z) :
  List.length old = List.length bs ->
  write_at (List.length pre) bs (pre ++ old ++ post) = Some (pre ++ bs ++ post).
Proof.
  intro Hlen. unfold write_at.
  rewrite !length_app, Hlen.
  replace (_ <=? _)%nat with true by (symmetry; apply Nat.leb_le; lia).
  rewrite firstn_app, Nat.sub_diag, firstn_all. simpl. rewrite app_nil_r.
  rewrite skipn_app, skipn_all2 by lia. simpl.
  replace (_ - _)%nat with (List.length old) by lia.
  rewrite skipn_app, skipn_all, Nat.sub_diag. reflexivity.
Qed.

Lemma writeSamples_app (xs : list number) (pre : list Z) :
  writeSamples (pre ++ repeat 0 (List.length xs * 2)) (List.length pre) xs
  = Some (pre ++ flat_map sample_bytes xs).
Proof.
  revert pre; induction xs as [| x xs IH]; intro pre.
  - simpl. reflexivity.
  - cbn [writeSamples List.length Nat.mul Nat.add repeat flat_map].
    unfold setInt16.
    change (0 :: 0 :: repeat 0 (List.length xs * 2))
      with ([0; 0] ++ repeat 0 (List.length xs * 2)).
    rewrite write_at_app by reflexivity.
    cbn [bind].
    replace (List.length pre + 2)%nat
      with (List.length (pre ++ sample_bytes x))
      by (rewrite length_app; reflexivity).
    rewrite app_assoc, IH, <- app_assoc. reflexivity.
Qed.


Lemma header_bytes_length (sampleRate : number) (n : nat) :
  List.length (header_bytes sampleRate n) = 44%nat.
Proof. reflexivity. Qed.

(** The encoder never throws, and its output is the header followed by
    the stored samples. *)
Lemma createWavBlob_bytes (audioData : list number) (sampleRate : number) :
  createWavBlob audioData sampleRate
  = Some {| blob_bytes := header_bytes sampleRate (List.length audioData)
                          ++ flat_map sample_bytes audioData;
            blob_type := "audio/wav" |}.
Proof.
  unfold createWavBlob.
  set (n := List.length audioData).
  set (v1 := 36 + Z.of_nat n * 2). set (v2 := Z.of_nat n * 2).
  set (r1 := trunc sampleRate). set (r2 := trunc (mul sampleRate (of_Z 2))).
  unfold new_ArrayBuffer.
  cbn -[Z.modulo Z.div ToUint32 ToUint16 Z.mul Z.add Z.pow writeSamples].
  match goal with
  | |- context [writeSamples ?b 44%nat audioData] =>
      replace b with (header_bytes sampleRate n ++ repeat 0 (n * 2))
        by reflexivity
  end.
  rewrite <- (header_bytes_length sampleRate n).
  subst n. rewrite writeSamples_app. reflexivity.
Qed.

Lemma from_le_le_bytes (n : nat) (v : Z) :
  from_le (le_bytes n v) = v mod 256 ^ Z.of_nat n.
Proof.
  revert v; induction n as [| n IH]; intro v.
  - simpl. symmetry. apply Z.mod_1_r.
  - cbn [le_bytes from_le]. rewrite IH.
    rewrite Nat2Z.inj_succ, Z.pow_succ_r by lia.
    rewrite Z.rem_mul_r by lia. reflexivity.
Qed.

Lemma ToInt16_range (z : Z) : - 2 ^ 15 <= ToInt16 z < 2 ^ 15.
Proof.
  unfold ToInt16, wrap.
  pose proof (Z.mod_pos_bound z (2 ^ 16) ltac:(lia)) as Hb.
  destruct (Z.ltb_spec (z mod 2 ^ 16) (2 ^ 15)); lia.
Qed.

Lemma ToInt16_mod (z : Z) : ToInt16 z mod 2 ^ 16 = z mod 2 ^ 16.
Proof.
  unfold ToInt16, wrap.
  destruct (Z.ltb_spec (z mod 2 ^ 16) (2 ^ 15)) as [Hlt | Hge].
  - apply Z.mod_mod. lia.
  - replace (z mod 2 ^ 16 - 2 ^ 16) with (z mod 2 ^ 16 + (-1) * 2 ^ 16) by lia.
    rewrite Z.mod_add by lia. apply Z.mod_mod. lia.
Qed.

Lemma ToInt16_stored (z : Z) : ToInt16 (ToInt16 z mod 2 ^ 16) = ToInt16 z.
Proof.
  rewrite ToInt16_mod. unfold ToInt16, wrap.
  rewrite Z.mod_mod by lia. reflexivity.
Qed.

Lemma sample_bytes_length (x : number) : List.length (sample_bytes x) = 2%nat.
Proof. reflexivity. Qed.

Lemma flat_map_sample_length (xs : list number) :
  List.length (flat_map sample_bytes xs) = (2 * List.length xs)%nat.
Proof.
  induction xs as [| x xs IH]; simpl in *; [reflexivity | lia].
Qed.

Lemma skipn_samples (xs : list number) (i : nat) (x : number) :
  nth_error xs i = Some x ->
  exists rest,
    skipn (2 * i) (flat_map sample_bytes xs) = sample_bytes x ++ rest.
Proof.
  revert i; induction xs as [| y xs IH]; intros [| i] H; simpl in H;
    try discriminate.
  - injection H as ->. exists (flat_map sample_bytes xs). reflexivity.
  - destruct (IH i H) as [rest Hrest]. exists rest.
    replace (2 * S i)%nat with (S (S (2 * i))) by lia.
    exact Hrest.
Qed.

Lemma getInt16_sample (pre : list Z) (xs : list number) (i : nat) (x : number) :
  nth_error xs i = Some x ->
  getInt16 (pre ++ flat_map sample_bytes xs) (List.length pre + 2 * i)
  = Some (pcm16 x).
Proof.
  intro H. unfold getInt16, read_at.
  assert (Hi : (i < List.length xs)%nat)
    by (apply nth_error_Some; rewrite H; discriminate).
  rewrite length_app, flat_map_sample_length.
  replace (_ <=? _)%nat with true by (symmetry; apply Nat.leb_le; lia).
  cbn [bind].
  rewrite skipn_app, skipn_all2 by lia.
  replace (List.length pre + 2 * i - List.length pre)%nat with (2 * i)%nat by lia.
  destruct (skipn_samples xs i H) as [rest ->].
  change (firstn 2 ([] ++ sample_bytes x ++ rest)) with (sample_bytes x).
  unfold sample_bytes.
  rewrite from_le_le_bytes.
  change (256 ^ Z.of_nat 2) with (2 ^ 16).
  rewrite Z.mod_mod by lia. unfold pcm16. rewrite ToInt16_stored. reflexivity.
Qed.

Lemma header_bytes_range (sampleRate : number) (n : nat) :
  Forall (fun b => 0 <= b < 256) (header_bytes sampleRate n).
Proof.
  unfold header_bytes, tag_bytes.
  cbn -[Z.modulo Z.div ToUint32 ToUint16 Z.mul Z.add Z.pow trunc mul charCodeAt].
  repeat (apply Forall_cons;
          [ first [ apply Z.mod_pos_bound; lia
                  | vm_compute; split; [discriminate | reflexivity] ]
          | ]).
  apply Forall_nil.
Qed.

Lemma samples_range (xs : list number) :
  Forall (fun b => 0 <= b < 256) (flat_map sample_bytes xs).
Proof.
  induction xs as [| x xs IH]; simpl; [constructor |].
  constructor; [apply Z.mod_pos_bound; lia |].
  constructor; [apply Z.mod_pos_bound; lia | exact IH].
Qed.

(** Comparison of numbers is antisymmetric. *)
Lemma SFcompare_antisym (a b : number) :
  SFcompare b a = option_map CompOpp (SFcompare a b).
Proof.
  destruct a as [sa | sa | | sa ma ea], b as [sb | sb | | sb mb eb];
    try destruct sa; try destruct sb; simpl; try reflexivity;
    rewrite (Z.compare_antisym ea eb);
    destruct (ea ?= eb); simpl; try reflexivity;
    pose proof (Pos.compare_cont_antisym ma mb Eq) as Hm; simpl in Hm;
    rewrite <- Hm; try rewrite CompOpp_involutive; reflexivity.
Qed.

Lemma ltb_asym (a b : number) : ltb a b = true -> ltb b a = false.
Proof.
  unfold ltb, SFltb. rewrite (SFcompare_antisym a b).
  destruct (SFcompare a b) as [[| |] |]; simpl; congruence.
Qed.

(** The clamped sample is never below -1 and never above 1. *)
Lemma clamp_range (x : number) :
  ltb (clamp x) (of_Z (-1)) = false /\ ltb (of_Z 1) (clamp x) = false.
Proof.
  destruct x as [s | s | | s m e].
  - destruct s; split; reflexivity.
  - destruct s; split; reflexivity.
  - split; reflexivity.
  - unfold clamp.
    set (x := S754_finite s m e).
    assert (Hmin : Math_min (of_Z 1) x = if ltb x (of_Z 1) then x else of_Z 1)
      by reflexivity.
    rewrite Hmin.
    destruct (ltb x (of_Z 1)) eqn:Hx1.
    + assert (Hmax : Math_max (of_Z (-1)) x
                     = if ltb (of_Z (-1)) x then x else of_Z (-1))
        by reflexivity.
      rewrite Hmax.
      destruct (ltb (of_Z (-1)) x) eqn:Hx2.
      * split; apply ltb_asym; assumption.
      * split; reflexivity.
    + split; reflexivity.
Qed.

(** Two finite numbers neither of which is below the other are the
    same number. *)
Lemma ltb_neither (s1 s2 : bool) (m1 m2 : positive) (e1 e2 : Z) :
  ltb (S754_finite s1 m1 e1) (S754_finite s2 m2 e2) = false ->
  ltb (S754_finite s2 m2 e2) (S754_finite s1 m1 e1) = false ->
  S754_finite s1 m1 e1 = S754_finite s2 m2 e2.
Proof.
  unfold ltb, SFltb.
  rewrite (SFcompare_antisym (S754_finite s1 m1 e1) (S754_finite s2 m2 e2)).
  cbn [SFcompare].
  destruct s1, s2; cbn; try discriminate;
    destruct (Z.compare_spec e1 e2) as [-> | He | He]; cbn; try discriminate;
    destruct (Pos.compare_cont Eq m1 m2) eqn:Hm; cbn; try discriminate;
    intros _ _; apply Pos.compare_eq in Hm; subst m2; reflexivity.
Qed.

Lemma one_finite : of_Z 1 = S754_finite false 4503599627370496 (-52).
Proof. reflexivity. Qed.

Lemma minus_one_finite : of_Z (-1) = S754_finite true 4503599627370496 (-52).
Proof. reflexivity. Qed.

(** What the clamp does, read off the two comparisons of the sample
    with 1 and with -1: a sample above 1 becomes 1, a sample below -1
    becomes -1, NaN stays NaN, and every other sample is left as it
    is. *)
Lemma clamp_cases (x : number) :
  (ltb (of_Z 1) x = true -> clamp x = of_Z 1)
  /\ (ltb x (of_Z (-1)) = true -> clamp x = of_Z (-1))
  /\ (x = S754_nan -> clamp x = S754_nan)
  /\ (x <> S754_nan -> ltb (of_Z 1) x = false -> ltb x (of_Z (-1)) = false ->
      clamp x = x).
Proof.
  split; [| split; [| split]].
  - intro Hx. unfold clamp.
    assert (Hmin : Math_min (of_Z 1) x = of_Z 1).
    { pose proof (ltb_asym _ _ Hx) as Hx'.
      destruct x as [s | s | | s m e]; try discriminate.
      - destruct s; [discriminate | reflexivity].
      - change (Math_min (of_Z 1) (S754_finite s m e))
          with (if ltb (S754_finite s m e) (of_Z 1)
                then S754_finite s m e else of_Z 1).
        rewrite Hx'. reflexivity. }
    rewrite Hmin. reflexivity.
  - intro Hx. unfold clamp.
    pose proof (ltb_asym _ _ Hx) as Hx'.
    destruct x as [s | s | | s m e]; try discriminate.
    + destruct s; [reflexivity | discriminate].
    + destruct s; [| discriminate].
      set (y := S754_finite true m e) in *.
      assert (Hmin : Math_min (of_Z 1) y = y) by reflexivity.
      rewrite Hmin.
      change (Math_max (of_Z (-1)) y)
        with (if ltb (of_Z (-1)) y then y else of_Z (-1)).
      rewrite Hx'. reflexivity.
  - intros ->. reflexivity.
  - intros Hnan Hhigh Hlow.
    destruct x as [s | s | | s m e].
    + destruct s; reflexivity.
    + destruct s; discriminate.
    + contradiction.
    + unfold clamp. set (y := S754_finite s m e) in *.
      assert (Hmin : Math_min (of_Z 1) y = if ltb y (of_Z 1) then y else of_Z 1)
        by reflexivity.
      rewrite Hmin.
      destruct (ltb y (of_Z 1)) eqn:Hy1.
      * change (Math_max (of_Z (-1)) y)
          with (if ltb (of_Z (-1)) y then y else of_Z (-1)).
        destruct (ltb (of_Z (-1)) y) eqn:Hy2; [reflexivity |].
        subst y. rewrite minus_one_finite in *.
        symmetry. apply ltb_neither; assumption.
      * assert (Hy : y = of_Z 1).
        { subst y. rewrite one_finite in *. apply ltb_neither; assumption. }
        rewrite Hy. reflexivity.
Qed.

(** The value stored for one sample. *)
Lemma pcm16_cases (x : number) :
  - 2 ^ 15 <= pcm16 x < 2 ^ 15
  /\ (ltb (of_Z 1) x = true -> pcm16 x = 32767)
  /\ (ltb x (of_Z (-1)) = true -> pcm16 x = - 32767)
  /\ (x = S754_nan -> pcm16 x = 0)
  /\ (x <> S754_nan -> ltb (of_Z 1) x = false -> ltb x (of_Z (-1)) = false ->
      pcm16 x = ToInt16 (trunc (mul x (of_Z 32767)))).
Proof.
  destruct (clamp_cases x) as (Hhigh & Hlow & Hnan & Hin).
  split; [apply ToInt16_range |].
  split; [intro H; unfold pcm16; rewrite (Hhigh H); reflexivity |].
  split; [intro H; unfold pcm16; rewrite (Hlow H); reflexivity |].
  split; [intro H; unfold pcm16; rewrite (Hnan H); reflexivity |].
  intros H1 H2 H3. unfold pcm16. rewrite (Hin H1 H2 H3). reflexivity.
Qed.

(** C4. For every sample window of length N > 0 and every sample rate
    whose integer value R fits the 32-bit header field, the encoder
    returns (it never throws) a buffer of exactly 44 + 2N bytes; its
    first 44 bytes read back as a RIFF/WAVE header with the PCM format
    tag, 1 channel, 16 bits per sample and sample rate R, all fields
    little-endian; the N following 16-bit little-endian signed values
    are, in order, the input samples clamped to [-1,1], multiplied by
    32767 and truncated to a 16-bit integer: a sample above 1 is
    stored as 32767, a sample below -1 as -32767, and every other
    sample [x] as the 16-bit integer part of [x * 32767] (NaN as
    0). *)
Theorem createWavBlob_layout
        (audioData : list number) (sampleRate : number) (R : Z) :
  (0 < List.length audioData)%nat ->
  trunc sampleRate = R ->
  0 <= R < 2 ^ 32 ->
  exists blob,
    createWavBlob audioData sampleRate = Some blob
    /\ List.length (blob_bytes blob) = (44 + 2 * List.length audioData)%nat
    /\ Forall (fun b => 0 <= b < 256) (blob_bytes blob)
    /\ parseHeader (blob_bytes blob)
       = Some {| audioFormat := WAVE_FORMAT_PCM; numChannels := 1;
                 sampleRateHz := R; bitsPerSample := 16 |}
    /\ (forall i x, nth_error audioData i = Some x ->
          exists v,
            getInt16 (blob_bytes blob) (44 + 2 * i) = Some v
            /\ - 2 ^ 15 <= v < 2 ^ 15
            /\ (ltb (of_Z 1) x = true -> v = 32767)
            /\ (ltb x (of_Z (-1)) = true -> v = - 32767)
            /\ (x = S754_nan -> v = 0)
            /\ (x <> S754_nan ->
                ltb (of_Z 1) x = false -> ltb x (of_Z (-1)) = false ->
                v = ToInt16 (trunc (mul x (of_Z 32767))))).
Proof.
  intros _ HR Hrange.
  rewrite createWavBlob_bytes. eexists. split; [reflexivity |].
  cbn [blob_bytes].
  split; [| split; [| split]].
  - rewrite length_app, header_bytes_length, flat_map_sample_length.
    reflexivity.
  - apply Forall_app. split; [apply header_bytes_range | apply samples_range].
  - unfold parseHeader, tag_at, getUint16, getUint32, read_at.
    rewrite length_app, header_bytes_length.
    unfold header_bytes, tag_bytes.
    cbn -[Z.modulo Z.div ToUint32 ToUint16 Z.mul Z.add Z.pow trunc mul from_le].
    rewrite HR.
    change [ToUint32 R mod 256; (ToUint32 R / 256) mod 256;
            (ToUint32 R / 256 / 256) mod 256;
            (ToUint32 R / 256 / 256 / 256) mod 256]
      with (le_bytes 4 (ToUint32 R)).
    rewrite from_le_le_bytes.
    change (256 ^ Z.of_nat 4) with (2 ^ 32).
    unfold ToUint32, wrap. rewrite (Z.mod_mod R (2 ^ 32)) by lia.
    rewrite (Z.mod_small R (2 ^ 32)) by exact Hrange.
    reflexivity.
  - intros i x Hx. exists (pcm16 x).
    split; [| apply pcm16_cases].
    rewrite <- (header_bytes_length sampleRate (List.length audioData)).
    apply getInt16_sample. exact Hx.
Qed.

(** The samples 2, -3 and 0.5 in a window: 2 and -3 are stored as the
    two ends of the range, 0.5 as the integer part of 16383.5. *)
Lemma createWavBlob_layout_witness :
  exists blob,
    createWavBlob [of_Z 2; of_Z (-3); div (of_Z 1) (of_Z 2)] (of_Z 22050) = Some blob
    /\ List.length (blob_bytes blob) = 50%nat
    /\ getInt16 (blob_bytes blob) 44 = Some 32767
    /\ getInt16 (blob_bytes blob) 46 = Some (-32767)
    /\ getInt16 (blob_bytes blob) 48 = Some 16383.
Proof.
  destruct (@createWavBlob_layout [of_Z 2; of_Z (-3); div (of_Z 1) (of_Z 2)]
              (of_Z 22050) 22050)
    as [blob (Hc & Hl & _ & _ & Hs)].
  - simpl. lia.
  - reflexivity.
  - lia.
  - exists blob. split; [exact Hc | split; [exact Hl |]].
    destruct (Hs 0%nat (of_Z 2) eq_refl) as (v0 & Hg0 & _ & Hhigh & _).
    destruct (Hs 1%nat (of_Z (-3)) eq_refl) as (v1 & Hg1 & _ & _ & Hlow & _).
    destruct (Hs 2%nat (div (of_Z 1) (of_Z 2)) eq_refl)
      as (v2 & Hg2 & _ & _ & _ & _ & Hin).
    rewrite (Hhigh eq_refl) in Hg0. rewrite (Hlow eq_refl) in Hg1.
    rewrite (Hin ltac:(discriminate) eq_refl eq_refl) in Hg2.
    split; [exact Hg0 |]. split; [exact Hg1 |]. exact Hg2.
Defined.

End WavFacts.

(* ------------------------------------------------------------------ *)

Section RegExpFacts.
Import Num RegExp.

(** The matcher only reports matches. *)
Lemma star_sound (cs : cset) (rest : regex) (grp : bool)
      (k : str -> str -> option str) :
  (forall s cap out, k s cap = Some out -> Matches rest grp s cap out) ->
  forall s cap out,
    star cs k grp s cap = Some out ->
    Matches (Star cs :: rest) grp s cap out.
Proof.
  intros Hk s; induction s as [| c s IH]; intros cap out H; simpl in H.
  - apply M_star_stop, Hk, H.
  - destruct (mem cs c) eqn:Hc.
    + destruct (star cs k grp s (push grp cap c)) as [r |] eqn:Hs.
      * injection H as <-. apply M_star_step; [exact Hc | apply IH, Hs].
      * apply M_star_stop, Hk, H.
    + apply M_star_stop, Hk, H.
Qed.

Lemma run_sound (r : regex) :
  forall grp s cap out,
    run r grp s cap = Some out -> Matches r grp s cap out.
Proof.
  induction r as [| a rest IH]; intros grp s cap out H.
  - simpl in H. injection H as <-. constructor.
  - destruct a as [cs | cs | cs | cs | |]; simpl in H.
    + destruct s as [| c s]; [discriminate |].
      destruct (mem cs c) eqn:Hc; [| discriminate].
      apply M_one; [exact Hc | apply IH, H].
    + eapply star_sound; [| exact H]. intros; apply IH; assumption.
    + destruct s as [| c s]; [discriminate |].
      destruct (mem cs c) eqn:Hc; [| discriminate].
      apply M_plus; [exact Hc |].
      eapply star_sound; [| exact H]. intros; apply IH; assumption.
    + destruct s as [| c s].
      * apply M_opt_skip, IH, H.
      * destruct (mem cs c) eqn:Hc.
        -- destruct (run rest grp s (push grp cap c)) as [o |] eqn:Hr.
           ++ injection H as <-. apply M_opt_take; [exact Hc | apply IH, Hr].
           ++ apply M_opt_skip, IH, H.
        -- apply M_opt_skip, IH, H.
    + apply M_open, IH, H.
    + apply M_close, IH, H.
Qed.

(** The matcher finds a match whenever there is one. *)
Lemma star_stop_found (cs : cset) (k : str -> str -> option str)
      (grp : bool) (s cap : str) :
  (exists o, k s cap = Some o) -> exists o, star cs k grp s cap = Some o.
Proof.
  intros [o Ho]. destruct s as [| c s]; simpl.
  - exists o; exact Ho.
  - destruct (mem cs c).
    + destruct (star cs k grp s (push grp cap c)) as [r |].
      * exists r; reflexivity.
      * exists o; exact Ho.
    + exists o; exact Ho.
Qed.

Lemma run_complete (r : regex) (grp : bool) (s cap out : str) :
  Matches r grp s cap out -> exists o, run r grp s cap = Some o.
Proof.
  induction 1 as
    [ grp s cap
    | cs rest grp c s cap out Hc _ IH
    | cs rest grp s cap out _ IH
    | cs rest grp c s cap out Hc _ IH
    | cs rest grp c s cap out Hc _ IH
    | cs rest grp s cap out _ IH
    | cs rest grp c s cap out Hc _ IH
    | rest grp s cap out _ IH
    | rest grp s cap out _ IH ]; simpl.
  - eexists; reflexivity.
  - rewrite Hc. exact IH.
  - apply star_stop_found, IH.
  - rewrite Hc. simpl in IH. destruct IH as [o ->]. exists o; reflexivity.
  - rewrite Hc. exact IH.
  - destruct s as [| c s]; [exact IH |].
    destruct (mem cs c); [| exact IH].
    destruct (run rest grp s (push grp cap c)) as [o |]; [eexists; reflexivity | exact IH].
  - rewrite Hc. destruct IH as [o ->]. exists o; reflexivity.
  - exact IH.
  - exact IH.
Qed.

Lemma pushes_push (grp : bool) (cap seg : str) (c : ascii) :
  pushes grp (push grp cap c) seg = pushes grp cap (c :: seg).
Proof.
  destruct grp; simpl; [rewrite <- app_assoc |]; reflexivity.
Qed.

Lemma pushes_nil (grp : bool) (cap : str) : pushes grp cap [] = cap.
Proof. destruct grp; simpl; [apply app_nil_r | reflexivity]. Qed.

(** Reading a repetition as a segment of the input. *)
Lemma Matches_star_inv (cs : cset) (R : regex) (grp : bool) :
  forall s cap out,
    Matches (Star cs :: R) grp s cap out ->
    exists seg s',
      s = seg ++ s' /\ forallb (mem cs) seg = true
      /\ Matches R grp s' (pushes grp cap seg) out.
Proof.
  induction s as [| c s IH]; intros cap out H; inversion H; subst.
  - exists [], []. rewrite pushes_nil. auto.
  - exists [], (c :: s). rewrite pushes_nil. auto.
  - match goal with
    | Hc : mem cs c = true,
      Hs : Matches (Star cs :: R) grp s (push grp cap c) out |- _ =>
        destruct (IH _ _ Hs) as (seg & s' & -> & Hseg & Hm);
        exists (c :: seg), s'; simpl; rewrite Hc;
        rewrite pushes_push in Hm; auto
    end.
Qed.

Lemma Matches_star_intro (cs : cset) (R : regex) (grp : bool) (s' out : str) :
  forall seg cap,
    forallb (mem cs) seg = true ->
    Matches R grp s' (pushes grp cap seg) out ->
    Matches (Star cs :: R) grp (seg ++ s') cap out.
Proof.
  induction seg as [| c seg IH]; intros cap Hseg Hm; simpl in *.
  - rewrite pushes_nil in Hm. apply M_star_stop, Hm.
  - apply andb_prop in Hseg as [Hc Hseg].
    apply M_star_step; [exact Hc |].
    apply IH; [exact Hseg |]. rewrite pushes_push. exact Hm.
Qed.

Lemma Matches_literal_inv (R : regex) :
  forall l s cap out,
    Matches (literal l ++ R) false s cap out ->
    exists lab s',
      s = lab ++ s' /\ map canonicalize lab = map canonicalize l
      /\ Matches R false s' cap out.
Proof.
  induction l as [| p l IH]; intros s cap out H; simpl in H.
  - exists [], s. auto.
  - inversion H; subst.
    match goal with
    | Hc : mem (Exactly p) ?c = true,
      Hs : Matches (_ ++ R) false _ (push false cap ?c) out |- _ =>
        simpl in Hc; apply Ascii.eqb_eq in Hc;
        destruct (IH _ _ _ Hs) as (lab & s' & -> & Hlab & Hm);
        exists (c :: lab), s'; simpl; rewrite Hlab, Hc; auto
    end.
Qed.

Lemma Matches_literal_intro (R : regex) (s' out cap : str) :
  forall l lab,
    map canonicalize lab = map canonicalize l ->
    Matches R false s' cap out ->
    Matches (literal l ++ R) false (lab ++ s') cap out.
Proof.
  induction l as [| p l IH]; intros [| c lab] Hlab Hm; simpl in *;
    try discriminate.
  - exact Hm.
  - injection Hlab as Hc Hlab.
    apply M_one; [simpl; rewrite Hc; apply Ascii.eqb_refl |].
    simpl. apply IH; assumption.
Qed.

Lemma only_dot (c : ascii) : mem (Exactly "."%char) c = true -> c = "."%char.
Proof.
  destruct c as [[] [] [] [] [] [] [] []]; vm_compute; congruence.
Qed.

Lemma only_percent (c : ascii) : mem (Exactly "%"%char) c = true -> c = "%"%char.
Proof.
  destruct c as [[] [] [] [] [] [] [] []]; vm_compute; congruence.
Qed.

(** The leftmost search. *)
Lemma String_match_here (r : regex) (s o : str) :
  run r false s [] = Some o -> String_match s r = Some o.
Proof. intro H. destruct s; simpl; rewrite H; reflexivity. Qed.

Lemma String_match_some (r : regex) :
  forall s o,
    String_match s r = Some o ->
    exists pre s',
      s = pre ++ s' /\ run r false s' [] = Some o
      /\ forall a b, pre = a ++ b -> b <> [] -> run r false (b ++ s') [] = None.
Proof.
  induction s as [| c s IH]; intros o H; simpl in H.
  - destruct (run r false [] []) as [g |] eqn:Hr; [| discriminate].
    injection H as <-. exists [], []. repeat split; auto.
    intros a b Hab Hb. destruct a, b; try discriminate. congruence.
  - destruct (run r false (c :: s) []) as [g |] eqn:Hr.
    + injection H as <-. exists [], (c :: s). repeat split; auto.
      intros a b Hab Hb. destruct a, b; try discriminate. congruence.
    + destruct (IH _ H) as (pre & s' & -> & Hrun & Hmin).
      exists (c :: pre), s'. repeat split; auto.
      intros a b Hab Hb. destruct a as [| x a]; simpl in Hab.
      * subst b. exact Hr.
      * injection Hab as _ Hab. eapply Hmin; eauto.
Qed.

Lemma String_match_none (r : regex) :
  forall s, String_match s r = None ->
  forall pre s', s = pre ++ s' -> run r false s' [] = None.
Proof.
  induction s as [| c s IH]; intros H pre s' Heq; simpl in H.
  - destruct pre, s'; try discriminate.
    destruct (run r false [] []); [discriminate | reflexivity].
  - destruct (run r false (c :: s) []) eqn:Hr; [discriminate |].
    destruct pre as [| x pre]; simpl in Heq.
    + subst s'. exact Hr.
    + injection Heq as _ Heq. eapply IH; eauto.
Qed.

(** Cutting a text at the first character that fails [p] can be done
    in one way only. *)
Lemma split_unique (p : ascii -> bool) :
  forall a1 a2 b1 b2 c1 c2,
    forallb p a1 = true -> forallb p a2 = true ->
    p c1 = false -> p c2 = false ->
    a1 ++ c1 :: b1 = a2 ++ c2 :: b2 ->
    a1 = a2 /\ c1 :: b1 = c2 :: b2.
Proof.
  induction a1 as [| x a1 IH]; intros [| y a2] b1 b2 c1 c2 H1 H2 Hc1 Hc2 Heq;
    simpl in *.
  - auto.
  - injection Heq as -> _. apply andb_prop in H2 as [H2 _]. congruence.
  - injection Heq as -> _. apply andb_prop in H1 as [H1 _]. congruence.
  - injection Heq as -> Heq.
    apply andb_prop in H1 as [_ H1]. apply andb_prop in H2 as [_ H2].
    destruct (IH _ _ _ _ _ H1 H2 Hc1 Hc2 Heq) as [-> ->]. auto.
Qed.

Lemma Matches_nil_inv grp s cap out : Matches [] grp s cap out -> out = cap.
Proof. inversion 1; reflexivity. Qed.

Lemma Matches_open_inv R grp s cap out :
  Matches (Open :: R) grp s cap out -> Matches R true s [] out.
Proof. inversion 1; assumption. Qed.

Lemma Matches_close_inv R grp s cap out :
  Matches (Close :: R) grp s cap out -> Matches R false s cap out.
Proof. inversion 1; assumption. Qed.

Lemma Matches_one_inv cs R grp s cap out :
  Matches (One cs :: R) grp s cap out ->
  exists c s', s = c :: s' /\ mem cs c = true
               /\ Matches R grp s' (push grp cap c) out.
Proof. inversion 1; subst; eauto. Qed.

Lemma Matches_plus_inv cs R grp s cap out :
  Matches (Plus cs :: R) grp s cap out ->
  exists c s', s = c :: s' /\ mem cs c = true
               /\ Matches (Star cs :: R) grp s' (push grp cap c) out.
Proof. inversion 1; subst; eauto. Qed.

Lemma Matches_opt_inv cs R grp s cap out :
  Matches (Opt cs :: R) grp s cap out ->
  Matches R grp s cap out
  \/ exists c s', s = c :: s' /\ mem cs c = true
                  /\ Matches R grp s' (push grp cap c) out.
Proof. inversion 1; subst; [left; assumption | right; eauto]. Qed.

End RegExpFacts.

Section ScoreParserFacts.
Import Num RegExp ScoreParser.

(** What follows the number group: the percent sign. *)
Lemma tail_inv (s cap out : str) :
  Matches [Star Digit; Close; One (Exactly "%"%char)] true s cap out ->
  exists d2 rest,
    s = d2 ++ "%"%char :: rest /\ forallb is_digit d2 = true
    /\ out = cap ++ d2.
Proof.
  intro H.
  apply Matches_star_inv in H as (d2 & s1 & -> & Hd2 & H).
  apply Matches_close_inv in H.
  apply Matches_one_inv in H as (c & rest & -> & Hc & H).
  apply only_percent in Hc as ->.
  apply Matches_nil_inv in H as ->.
  exists d2, rest. auto.
Qed.

(** The pattern, anchored: it matches at the head of [s] with [num]
    in its group exactly when [s] begins with the label, a run of
    characters that are not digits, the number text and a percent
    sign. *)
Lemma labelled_matches (label : string) (s num : str) :
  Matches (labelled label) false s [] num <-> occurs_at label s 0 num.
Proof.
  unfold labelled, occurs_at, number_group. split.
  - intro H.
    apply Matches_literal_inv in H as (lab & s1 & -> & Hlab & H).
    apply Matches_star_inv in H as (gap & s2 & -> & Hgap & H).
    cbn [pushes app] in H.
    apply Matches_open_inv in H.
    apply Matches_plus_inv in H as (c & s3 & -> & Hc & H).
    apply Matches_star_inv in H as (seg & s4 & -> & Hseg & H).
    cbn [pushes push app] in H.
    apply Matches_opt_inv in H as [H | (c' & s5 & -> & Hc' & H)].
    + apply tail_inv in H as (d2 & rest & -> & Hd2 & ->).
      exists [], lab, gap, rest. repeat split; auto.
      * simpl. rewrite <- !app_assoc. reflexivity.
      * exists (c :: seg), [], d2.
        split; [reflexivity |]. split; [discriminate |].
        split; [apply andb_true_intro; split; [exact Hc | exact Hseg] |].
        split; [left; reflexivity | exact Hd2].
    + apply only_dot in Hc' as ->.
      apply tail_inv in H as (d2 & rest & -> & Hd2 & ->).
      exists [], lab, gap, rest. repeat split; auto.
      * simpl. rewrite <- !app_assoc. reflexivity.
      * exists (c :: seg), ["."%char], d2.
        split; [cbn [push app]; rewrite <- app_assoc; reflexivity |].
        split; [discriminate |].
        split; [apply andb_true_intro; split; [exact Hc | exact Hseg] |].
        split; [right; reflexivity | exact Hd2].
  - intros (pre & lab & gap & rest & -> & Hpre & Hlab & Hgap & Hnum).
    destruct pre; [| discriminate]. cbn [app].
    destruct Hnum as (d1 & dot & d2 & -> & Hne & Hd1 & Hdot & Hd2).
    destruct d1 as [| c d1]; [contradiction |].
    simpl in Hd1. apply andb_prop in Hd1 as [Hc Hd1].
    apply Matches_literal_intro; [exact Hlab |].
    apply Matches_star_intro; [exact Hgap |].
    cbn [pushes app]. apply M_open.
    apply M_plus; [exact Hc |].
    rewrite <- !app_assoc.
    apply Matches_star_intro; [exact Hd1 |].
    cbn [pushes push app].
    assert (Htail : forall cap,
               Matches [Star Digit; Close; One (Exactly "%"%char)] true
                       (d2 ++ "%"%char :: rest) cap (cap ++ d2)).
    { intro cap. apply Matches_star_intro; [exact Hd2 |].
      apply M_close, M_one; [reflexivity |]. simpl. constructor. }
    destruct Hdot as [-> | ->]; cbn [app].
    + apply M_opt_skip. apply Htail.
    + apply M_opt_take; [reflexivity |].
      cbn [push].
      replace (c :: d1 ++ "."%char :: d2)
        with (((c :: d1) ++ ["."%char]) ++ d2)
        by (rewrite <- app_assoc; reflexivity).
      apply Htail.
Qed.

Lemma app_same_length (A : Type) (a1 a2 b1 b2 : list A) :
  List.length a1 = List.length a2 ->
  a1 ++ b1 = a2 ++ b2 -> a1 = a2 /\ b1 = b2.
Proof.
  revert a2; induction a1 as [| x a1 IH]; intros [| y a2] Hlen Heq;
    simpl in *; try discriminate; auto.
  injection Heq as -> Heq. injection Hlen as Hlen.
  destruct (IH _ Hlen Heq) as [-> ->]. auto.
Qed.

Lemma digit_not_percent (c : ascii) : is_digit c = true -> not_percent c = true.
Proof.
  unfold not_percent. destruct (Ascii.eqb_spec c "%"%char) as [-> | _];
    [discriminate | reflexivity].
Qed.

Lemma digits_not_percent (ds : str) :
  forallb is_digit ds = true -> forallb not_percent ds = true.
Proof.
  induction ds as [| c ds IH]; simpl; [reflexivity |].
  intro H. apply andb_prop in H as [Hc Hds].
  rewrite (digit_not_percent _ Hc), (IH Hds). reflexivity.
Qed.

Lemma number_text_shape (num : str) :
  number_text num ->
  forallb not_percent num = true
  /\ exists c t, num = c :: t /\ is_digit c = true.
Proof.
  intros (d1 & dot & d2 & -> & Hne & Hd1 & Hdot & Hd2). split.
  - rewrite !forallb_app, (digits_not_percent _ Hd1), (digits_not_percent _ Hd2).
    destruct Hdot as [-> | ->]; reflexivity.
  - destruct d1 as [| c d1]; [contradiction |].
    simpl in Hd1. apply andb_prop in Hd1 as [Hc _].
    exists c, (d1 ++ dot ++ d2). auto.
Qed.

(** At a given position the pattern captures one number text only. *)
Lemma occurs_at_unique (label : string) (s : str) (i : nat) (n1 n2 : str) :
  occurs_at label s i n1 -> occurs_at label s i n2 -> n1 = n2.
Proof.
  intros (pre1 & lab1 & gap1 & r1 & -> & Hp1 & Hl1 & Hg1 & Hn1)
         (pre2 & lab2 & gap2 & r2 & Heq & Hp2 & Hl2 & Hg2 & Hn2).
  apply app_same_length in Heq as [_ Heq]; [| congruence].
  apply app_same_length in Heq as [_ Heq].
  2:{ unfold same_letters in *.
      rewrite <- (length_map canonicalize lab1), Hl1.
      rewrite <- (length_map canonicalize lab2), Hl2. reflexivity. }
  destruct (number_text_shape Hn1) as (Hq1 & c1 & t1 & E1 & Hc1).
  destruct (number_text_shape Hn2) as (Hq2 & c2 & t2 & E2 & Hc2).
  assert (Hnum : n1 ++ "%"%char :: r1 = n2 ++ "%"%char :: r2).
  { rewrite E1, E2 in Heq. cbn [app] in Heq.
    apply (split_unique (fun c => negb (is_digit c))) in Heq as [_ Heq];
      [| assumption | assumption | rewrite Hc1; reflexivity
       | rewrite Hc2; reflexivity ].
    rewrite E1, E2. exact Heq. }
  apply (split_unique not_percent) in Hnum as [Hnum _];
    auto.
Qed.

Lemma occurs_at_suffix (label : string) (pre s num : str) :
  occurs_at label s 0 num <-> occurs_at label (pre ++ s) (List.length pre) num.
Proof.
  split.
  - intros (p0 & lab & gap & rest & -> & Hp & H).
    destruct p0; [| discriminate].
    exists pre, lab, gap, rest. auto.
  - intros (p0 & lab & gap & rest & Heq & Hp & H).
    apply app_same_length in Heq as [_ ->]; [| congruence].
    exists [], lab, gap, rest. auto.
Qed.

Lemma occurs_at_split (label : string) (s : str) (i : nat) (num : str) :
  occurs_at label s i num ->
  exists pre s', s = pre ++ s' /\ List.length pre = i
                 /\ occurs_at label s' 0 num.
Proof.
  intros (pre & lab & gap & rest & -> & Hp & H).
  exists pre, (lab ++ gap ++ num ++ "%"%char :: rest).
  repeat split; auto. exists [], lab, gap, rest. auto.
Qed.

(** [String.prototype.match] with a labelled pattern: group 1 of the
    leftmost occurrence, and [null] when there is none. *)
Lemma String_match_labelled (label : string) (s : str) :
  match String_match s (labelled label) with
  | Some g1 => exists i, first_occurrence label s i g1
  | None => no_occurrence label s
  end.
Proof.
  destruct (String_match s (labelled label)) as [g1 |] eqn:Hm.
  - apply String_match_some in Hm as (pre & s' & -> & Hrun & Hmin).
    exists (List.length pre). split.
    + apply occurs_at_suffix, labelled_matches, run_sound, Hrun.
    + intros j num' Hj Hocc.
      apply occurs_at_split in Hocc as (p & t & Heq & Hp & Hocc).
      assert (Hcut : exists b, pre = p ++ b /\ b <> [] /\ t = b ++ s').
      { clear - Heq Hp Hj. subst j. revert p Heq Hj.
        induction pre as [| x pre IH]; intros [| y p] Heq Hj; simpl in *;
          try lia.
        - exists (x :: pre). repeat split; auto. discriminate.
        - injection Heq as -> Heq.
          destruct (IH p Heq ltac:(lia)) as (b & -> & Hb & ->).
          exists b. auto. }
      destruct Hcut as (b & -> & Hb & ->).
      apply labelled_matches, run_complete in Hocc as [o Ho].
      rewrite (Hmin p b eq_refl Hb) in Ho. discriminate.
  - intros i num Hocc.
    apply occurs_at_split in Hocc as (p & t & -> & Hp & Hocc).
    apply labelled_matches, run_complete in Hocc as [o Ho].
    rewrite (String_match_none _ Hm p t eq_refl) in Ho. discriminate.
Qed.

Lemma first_occurrence_unique (label : string) (s : str)
      (i j : nat) (n1 n2 : str) :
  first_occurrence label s i n1 -> first_occurrence label s j n2 ->
  i = j /\ n1 = n2.
Proof.
  intros [Ho1 Hm1] [Ho2 Hm2].
  assert (i = j) as ->.
  { destruct (Nat.lt_trichotomy i j) as [Hlt | [-> | Hgt]]; auto.
    - exfalso. exact (Hm2 _ _ Hlt Ho1).
    - exfalso. exact (Hm1 _ _ Hgt Ho2). }
  split; [reflexivity | eapply occurs_at_unique; eauto].
Qed.

Lemma percent_of_spec (label : string) (result : str) :
  (forall i num, first_occurrence label result i num ->
                 percent_of label result = parseFloat num)
  /\ (no_occurrence label result -> percent_of label result = zero)
  /\ ((exists i num, first_occurrence label result i num)
      \/ no_occurrence label result).
Proof.
  unfold percent_of.
  pose proof (String_match_labelled label result) as H.
  destruct (String_match result (labelled label)) as [g1 |].
  - destruct H as [i0 H0]. split; [| split].
    + intros i num Hf.
      destruct (first_occurrence_unique Hf H0) as [_ ->]. reflexivity.
    + intro Hno. exfalso. exact (Hno _ _ (proj1 H0)).
    + left. eauto.
  - split; [| split].
    + intros i num [Ho _]. exfalso. exact (H _ _ Ho).
    + reflexivity.
    + right. exact H.
Qed.

(** Equality after canonicalisation is equality up to the case of an
    ASCII letter. *)
Lemma same_letter_canonicalize (c d : ascii) :
  same_letter c d <-> canonicalize c = canonicalize d.
Proof.
  pose proof (nat_ascii_bounded c) as Hc.
  pose proof (nat_ascii_bounded d) as Hd.
  assert (Hup : forall x y : ascii,
             is_upper x = true ->
             nat_of_ascii y = (nat_of_ascii x + 32)%nat ->
             canonicalize x = canonicalize y).
  { intros x y Hx Hy. unfold is_upper in Hx. unfold canonicalize.
    apply andb_true_iff in Hx as [Hx1 Hx2].
    apply Nat.leb_le in Hx1. apply Nat.leb_le in Hx2.
    replace (97 <=? nat_of_ascii x)%nat with false
      by (symmetry; apply Nat.leb_gt; lia).
    replace ((97 <=? nat_of_ascii y)%nat && (nat_of_ascii y <=? 122)%nat)
      with true
      by (symmetry; apply andb_true_iff; split; apply Nat.leb_le; lia).
    cbn [andb]. rewrite Hy.
    replace (nat_of_ascii x + 32 - 32)%nat with (nat_of_ascii x) by lia.
    symmetry. apply ascii_nat_embedding. }
  assert (Hinj : forall x y : ascii, nat_of_ascii x = nat_of_ascii y -> x = y).
  { intros x y H. rewrite <- (ascii_nat_embedding x), <- (ascii_nat_embedding y).
    rewrite H. reflexivity. }
  split.
  - intros [-> | [[Hu Hn] | [Hu Hn]]];
      [reflexivity | apply Hup; assumption | symmetry; apply Hup; assumption].
  - unfold same_letter, is_upper, canonicalize.
    destruct ((97 <=? nat_of_ascii c)%nat && (nat_of_ascii c <=? 122)%nat)
      eqn:Lc;
      destruct ((97 <=? nat_of_ascii d)%nat && (nat_of_ascii d <=? 122)%nat)
        eqn:Ld; intro H.
    + apply andb_true_iff in Lc as [Lc1 Lc2].
      apply andb_true_iff in Ld as [Ld1 Ld2].
      apply Nat.leb_le in Lc1, Lc2, Ld1, Ld2.
      apply (f_equal nat_of_ascii) in H.
      rewrite !nat_ascii_embedding in H by lia.
      left. apply Hinj. lia.
    + apply andb_true_iff in Lc as [Lc1 Lc2].
      apply Nat.leb_le in Lc1, Lc2.
      apply (f_equal nat_of_ascii) in H.
      rewrite nat_ascii_embedding in H by lia.
      right. right. split; [| lia].
      apply andb_true_iff. split; apply Nat.leb_le; lia.
    + apply andb_true_iff in Ld as [Ld1 Ld2].
      apply Nat.leb_le in Ld1, Ld2.
      apply (f_equal nat_of_ascii) in H.
      rewrite nat_ascii_embedding in H by lia.
      right. left. split; [| lia].
      apply andb_true_iff. split; apply Nat.leb_le; lia.
    + left. exact H.
Qed.

Lemma ignoring_case_same_letters (a b : str) :
  ignoring_case a b <-> same_letters a b.
Proof.
  unfold ignoring_case, same_letters. split.
  - induction 1 as [| c d a b Hcd _ IH]; [reflexivity |].
    cbn [map]. rewrite IH. f_equal. apply same_letter_canonicalize, Hcd.
  - revert b. induction a as [| c a IH]; intros [| d b] H;
      try discriminate; [constructor |].
    cbn [map] in H. injection H as Hcd Hab.
    constructor; [apply same_letter_canonicalize, Hcd | apply IH, Hab].
Qed.

Lemma labelled_at_occurs_at (label : string) (s : str) (i : nat) (num : str) :
  labelled_at label s i num <-> occurs_at label s i num.
Proof.
  unfold labelled_at, occurs_at.
  split; intros (pre & lab & gap & rest & Hs & Hi & Hl & Hg & Hn);
    exists pre, lab, gap, rest; repeat split; try assumption;
    apply ignoring_case_same_letters; exact Hl.
Qed.

Lemma first_labelled_first_occurrence (label : string) (s : str) (i : nat)
      (num : str) :
  first_labelled label s i num <-> first_occurrence label s i num.
Proof.
  unfold first_labelled, first_occurrence.
  split; intros [Ho Hfirst]; (split; [apply labelled_at_occurs_at, Ho |]);
    intros j num' Hj Hocc; apply (Hfirst j num' Hj);
    apply labelled_at_occurs_at; exact Hocc.
Qed.

Lemma not_labelled_no_occurrence (label : string) (s : str) :
  not_labelled label s <-> no_occurrence label s.
Proof.
  unfold not_labelled, no_occurrence.
  split; intros H i num Ho; apply (H i num); apply labelled_at_occurs_at;
    exact Ho.
Qed.

Lemma percent_of_labelled (label : string) (result : str) :
  (forall i num, first_labelled label result i num ->
                 percent_of label result = parseFloat num)
  /\ (not_labelled label result -> percent_of label result = zero)
  /\ ((exists i num, first_labelled label result i num)
      \/ not_labelled label result).
Proof.
  destruct (percent_of_spec label result) as (H1 & H2 & H3).
  split; [| split].
  - intros i num Hf. apply (H1 i), first_labelled_first_occurrence, Hf.
  - intro Hno. apply H2, not_labelled_no_occurrence, Hno.
  - destruct H3 as [(i & num & Hf) | Hno].
    + left. exists i, num. apply first_labelled_first_occurrence, Hf.
    + right. apply not_labelled_no_occurrence, Hno.
Qed.

(** C5. For every input string the score parser returns a pair of
    numbers (it has no failing case): [aiPercent] is the number read
    from the first occurrence of the label AI Generated, in whatever
    case its letters are written, followed by characters that are not
    digits, a number and a percent sign, and 0 when there is no such
    occurrence; [realPercent] is obtained in the same way for the
    label Real Voice.  One of the two cases always applies.  On the
    sample text the result is the pair 82.5 (165/2) and 17.5 (35/2);
    on a text that writes the label in lower case and then again with
    another number, the first number is read. *)
Theorem parseScores_first_match (result : str) :
  (forall i num, first_labelled "AI Generated" result i num ->
                 fst (parseScores result) = parseFloat num)
  /\ (not_labelled "AI Generated" result -> fst (parseScores result) = zero)
  /\ ((exists i num, first_labelled "AI Generated" result i num)
      \/ not_labelled "AI Generated" result)
  /\ (forall i num, first_labelled "Real Voice" result i num ->
                    snd (parseScores result) = parseFloat num)
  /\ (not_labelled "Real Voice" result -> snd (parseScores result) = zero)
  /\ ((exists i num, first_labelled "Real Voice" result i num)
      \/ not_labelled "Real Voice" result)
  /\ parseScores (lit "AI Generated: 82.5% | Real Voice: 17.5%")
     = (div (of_Z 165) (of_Z 2), div (of_Z 35) (of_Z 2))
  /\ parseScores (lit "x ai generated: 12% | AI Generated: 99% | REAL voice 3%")
     = (of_Z 12, of_Z 3).
Proof.
  destruct (percent_of_labelled "AI Generated" result) as (A1 & A2 & A3).
  destruct (percent_of_labelled "Real Voice" result) as (R1 & R2 & R3).
  split; [exact A1 |]. split; [exact A2 |]. split; [exact A3 |].
  split; [exact R1 |]. split; [exact R2 |]. split; [exact R3 |].
  split; vm_compute; reflexivity.
Qed.

(** A text that writes the label in lower case at index 2 and in the
    case of the pattern further on: the occurrence at index 2 is the
    first one, and its number is the one read. *)
Lemma parseScores_first_match_witness :
  first_labelled "AI Generated"
                 (lit "x ai generated: 12% | AI Generated: 99%") 2 (lit "12")
  /\ fst (parseScores (lit "x ai generated: 12% | AI Generated: 99%"))
     = parseFloat (lit "12").
Proof.
  assert (H : first_labelled "AI Generated"
                (lit "x ai generated: 12% | AI Generated: 99%") 2 (lit "12")).
  { split.
    - exists (lit "x "), (lit "ai generated"), (lit ": "),
             (lit " | AI Generated: 99%").
      split; [reflexivity |]. split; [reflexivity |].
      split.
      { unfold ignoring_case.
        repeat first
          [ apply Forall2_nil
          | apply Forall2_cons;
            [first [ left; reflexivity
                   | right; right; split; reflexivity ] |] ]. }
      split; [reflexivity |].
      exists (lit "12"), [], [].
      repeat split; [discriminate | left; reflexivity].
    - intros j num' Hj (pre & lab & gap & rest & Hs & Hlen & Hlab & _).
      unfold ignoring_case in Hlab.
      destruct lab as [| c lab]; [inversion Hlab |].
      assert (Hc : same_letter c "A"%char) by (inversion Hlab; assumption).
      assert (Hhead : c = "x"%char \/ c = " "%char).
      { destruct pre as [| p0 [| p1 pre]]; cbn [List.length] in Hlen;
          [| | lia].
        - left. cbn in Hs. injection Hs as Hs _. congruence.
        - right. cbn in Hs. injection Hs as _ Hs _. congruence. }
      destruct Hhead as [-> | ->];
        destruct Hc as [Hc | [[Hc _] | [_ Hc]]]; discriminate. }
  split; [exact H |].
  exact (proj1 (parseScores_first_match _) 2%nat (lit "12") H).
Defined.

End ScoreParserFacts.

(* ------------------------------------------------------------------ *)

Section DetectionFacts.
Import Num RegExp ScoreParser Streaming.

Lemma count_rising_app (xs ys : list effect) :
  count_rising (xs ++ ys) = (count_rising xs + count_rising ys)%nat.
Proof. unfold count_rising. rewrite filter_app, length_app. reflexivity. Qed.

Lemma count_falling_app (xs ys : list effect) :
  count_falling (xs ++ ys) = (count_falling xs + count_falling ys)%nat.
Proof. unfold count_falling. rewrite filter_app, length_app. reflexivity. Qed.

Lemma detect_all_cons (seen : Render) (isAI : bool) (p : number) (c : nat)
      (steps : list (bool * number * nat)) (a : App) :
  detect_all seen ((isAI, p, c) :: steps) a
  = detect_all seen steps (detect seen isAI p c a).
Proof. reflexivity. Qed.

(** What one result does when the render of the handler shows no
    active event: an AI result alerts, another result emits nothing. *)
Lemma detect_idle_render (seen : Render) (isAI : bool) (p : number) (c : nat)
      (a : App) :
  render_detectionEvent seen = false ->
  effects (detect seen isAI p c a)
  = effects a ++ (if isAI then [LogDetectionEvent c; Notification p] else [])
  /\ detectionEvent (detect seen isAI p c a)
     = (if isAI then true else detectionEvent a)
  /\ consecutiveDetections (detect seen isAI p c a)
     = (if isAI then S (consecutiveDetections a) else consecutiveDetections a).
Proof.
  intro Hseen. unfold detect. rewrite Hseen. cbn [negb andb].
  destruct isAI; cbn [effects emit setDetectionEvent setConsecutiveDetections
                      detectionEvent consecutiveDetections].
  - repeat split.
  - rewrite app_nil_r. repeat split.
Qed.

(** What an AI result does when the render of the handler shows an
    active event: it is reported as a continuation. *)
Lemma detect_active_render (seen : Render) (p : number) (c : nat) (a : App) :
  render_detectionEvent seen = true ->
  effects (detect seen true p c a)
  = effects a ++ [LogContinuing (S (consecutiveDetections a))]
  /\ detectionEvent (detect seen true p c a) = detectionEvent a.
Proof.
  intro Hseen. unfold detect. rewrite Hseen. cbn [negb].
  split; reflexivity.
Qed.

Lemma detect_all_idle_render (seen : Render)
      (steps : list (bool * number * nat)) :
  render_detectionEvent seen = false ->
  forall a,
    count_rising (effects (detect_all seen steps a))
    = (count_rising (effects a) + count_ai steps)%nat
    /\ count_falling (effects (detect_all seen steps a))
       = count_falling (effects a).
Proof.
  intro Hseen.
  induction steps as [| [[isAI p] c] steps IH]; intro a.
  - unfold count_ai. cbn. split; [lia | reflexivity].
  - rewrite detect_all_cons.
    destruct (IH (detect seen isAI p c a)) as [Hr Hf].
    destruct (detect_idle_render seen isAI p c a Hseen) as (He & _).
    rewrite Hr, Hf, He, count_rising_app, count_falling_app.
    unfold count_ai. cbn [filter].
    destruct isAI; cbn; split; lia.
Qed.

(** What [handleStreamingResult] emits when its render shows no
    active event: the console line of the result, and the alert when
    the result is classified as AI. *)
Lemma handleStreamingResult_idle_render (seen : Render) (result : str)
      (c : nat) (now : Z) (a : App) :
  render_detectionEvent seen = false ->
  effects (handleStreamingResult seen result c now a)
  = effects a
    ++ LogResult c result
       :: (if isAI (resultOf result c now)
           then [LogDetectionEvent c;
                 Notification (aiPercent (resultOf result c now))]
           else []).
Proof.
  intro Hseen. unfold handleStreamingResult, resultOf.
  destruct (parseScores result) as [ai real]. cbn [fst snd isAI aiPercent].
  match goal with
  | |- effects (setStreamingStatus _ (detect seen ?i ?p ?k ?x)) = _ =>
      change (effects (setStreamingStatus (ChunkVerdict k i) (detect seen i p k x)))
        with (effects (detect seen i p k x));
      rewrite (proj1 (detect_idle_render seen i p k x Hseen))
  end.
  cbn [effects setHistory setLastResult emit].
  rewrite <- app_assoc. reflexivity.
Qed.

Lemma handle_all_idle_render (seen : Render) (inputs : list (str * nat * Z)) :
  render_detectionEvent seen = false ->
  forall a,
    count_rising (effects (handle_all seen inputs a))
    = (count_rising (effects a) + count_ai_results inputs)%nat
    /\ count_falling (effects (handle_all seen inputs a))
       = count_falling (effects a).
Proof.
  intro Hseen.
  induction inputs as [| [[r c] t] inputs IH]; intro a.
  - unfold count_ai_results. cbn. split; [lia | reflexivity].
  - change (handle_all seen ((r, c, t) :: inputs) a)
      with (handle_all seen inputs (handleStreamingResult seen r c t a)).
    destruct (IH (handleStreamingResult seen r c t a)) as [Hr Hf].
    rewrite Hr, Hf, (handleStreamingResult_idle_render seen r c t a Hseen).
    rewrite count_rising_app, count_falling_app.
    unfold count_ai_results. cbn [filter].
    destruct (isAI (resultOf r c t)); cbn; split; lia.
Qed.

(** C3.  The code does not keep the hysteresis.
    [handleStreamingResult] reads [detectionEvent] as the render of
    the interval callback shows it, and that render is the one in
    which the session was started: the value read never changes during
    the session.  In a session started while no event is active the
    sequence true, true, false raises the alert on both true results
    and emits no falling edge; over any sequence every AI result
    raises the alert and nothing ends an event.  In a session started
    while an event is shown as active no AI result raises the alert:
    each is reported as a continuation. *)
Theorem detection_reads_stale_event (seen : Render) (a0 : App) :
  (forall a capture_ok,
      streamingInterval (startRecording capture_ok a)
      = if capture_ok then Some (render_of a) else streamingInterval a)
  /\ (render_detectionEvent seen = false ->
      (forall p1 c1 p2 c2 p3 c3,
          let a1 := detect seen true p1 c1 a0 in
          let a2 := detect seen true p2 c2 a1 in
          let a3 := detect seen false p3 c3 a2 in
          effects a1 = effects a0 ++ [LogDetectionEvent c1; Notification p1]
          /\ effects a2 = effects a1 ++ [LogDetectionEvent c2; Notification p2]
          /\ effects a3 = effects a2
          /\ count_rising (effects a3) = S (S (count_rising (effects a0)))
          /\ count_falling (effects a3) = count_falling (effects a0)
          /\ detectionEvent a3 = true
          /\ consecutiveDetections a3 = S (S (consecutiveDetections a0)))
      /\ (forall steps,
             let a := detect_all seen steps a0 in
             count_rising (effects a)
             = (count_rising (effects a0) + count_ai steps)%nat
             /\ count_falling (effects a) = count_falling (effects a0))
      /\ (forall inputs,
             let a := handle_all seen inputs a0 in
             count_rising (effects a)
             = (count_rising (effects a0) + count_ai_results inputs)%nat
             /\ count_falling (effects a) = count_falling (effects a0)))
  /\ (render_detectionEvent seen = true ->
      forall p c,
        effects (detect seen true p c a0)
        = effects a0 ++ [LogContinuing (S (consecutiveDetections a0))]
        /\ count_rising (effects (detect seen true p c a0))
           = count_rising (effects a0)).
Proof.
  split; [| split].
  - intros a capture_ok. unfold startRecording.
    destruct capture_ok; reflexivity.
  - intro Hseen. split; [| split].
    + intros p1 c1 p2 c2 p3 c3 a1 a2 a3.
      destruct (detect_idle_render seen true p1 c1 a0 Hseen) as (E1 & D1 & N1).
      destruct (detect_idle_render seen true p2 c2 a1 Hseen) as (E2 & D2 & N2).
      destruct (detect_idle_render seen false p3 c3 a2 Hseen) as (E3 & D3 & N3).
      fold a1 in E1, D1, N1. fold a2 in E2, D2, N2, E3, D3, N3.
      fold a3 in E3, D3, N3.
      rewrite app_nil_r in E3.
      split; [exact E1 |]. split; [exact E2 |]. split; [exact E3 |].
      split; [| split; [| split]].
      * rewrite E3, E2, E1, !count_rising_app. unfold count_rising. cbn. lia.
      * rewrite E3, E2, E1, !count_falling_app. unfold count_falling. cbn. lia.
      * rewrite D3. exact D2.
      * rewrite N3, N2, N1. reflexivity.
    + intros steps. apply detect_all_idle_render, Hseen.
    + intros inputs. apply handle_all_idle_render, Hseen.
  - intros Hseen p c.
    destruct (detect_active_render seen p c a0 Hseen) as [He _].
    split; [exact He |].
    rewrite He, count_rising_app. unfold count_rising. cbn. lia.
Qed.

(** The session started from the initial state: its interval holds
    the render of the initial state, and three results classified as
    AI, AI and not AI, handled in that render, raise two alerts and
    end no event. *)
Lemma detection_reads_stale_event_witness :
  streamingInterval (startRecording true initial) = Some (render_of initial)
  /\ count_ai_results [(lit "AI Generated: 90%", 1%nat, 1000);
                       (lit "AI Generated: 80%", 1%nat, 2000);
                       (lit "AI Generated: 10%", 1%nat, 3000)] = 2%nat
  /\ count_rising
       (effects (handle_all (render_of initial)
                   [(lit "AI Generated: 90%", 1%nat, 1000);
                    (lit "AI Generated: 80%", 1%nat, 2000);
                    (lit "AI Generated: 10%", 1%nat, 3000)]
                   (startRecording true initial))) = 2%nat
  /\ count_falling
       (effects (handle_all (render_of initial)
                   [(lit "AI Generated: 90%", 1%nat, 1000);
                    (lit "AI Generated: 80%", 1%nat, 2000);
                    (lit "AI Generated: 10%", 1%nat, 3000)]
                   (startRecording true initial))) = 0%nat.
Proof.
  destruct (detection_reads_stale_event (render_of initial)
              (startRecording true initial)) as (Hs & Hidle & _).
  split; [exact (Hs initial true) |].
  assert (Hcount : count_ai_results
                     [(lit "AI Generated: 90%", 1%nat, 1000);
                      (lit "AI Generated: 80%", 1%nat, 2000);
                      (lit "AI Generated: 10%", 1%nat, 3000)] = 2%nat)
    by (vm_compute; reflexivity).
  split; [exact Hcount |].
  destruct (proj2 (proj2 (Hidle eq_refl))
              [(lit "AI Generated: 90%", 1%nat, 1000);
               (lit "AI Generated: 80%", 1%nat, 2000);
               (lit "AI Generated: 10%", 1%nat, 3000)]) as [Hr Hf].
  rewrite Hcount in Hr. split; [exact Hr | exact Hf].
Defined.

End DetectionFacts.

(* ------------------------------------------------------------------ *)

Section ResultFacts.
Import Num RegExp ScoreParser Streaming.

Lemma detect_keeps (seen : Render) (isAI : bool) (p : number) (c : nat)
      (a : App) :
  lastResult (detect seen isAI p c a) = lastResult a
  /\ history (detect seen isAI p c a) = history a.
Proof.
  unfold detect.
  destruct isAI; cbn [detectionEvent setConsecutiveDetections].
  - destruct (negb (render_detectionEvent seen)); split; reflexivity.
  - destruct (render_detectionEvent seen && (0 <? consecutiveDetections a)%nat);
      split; reflexivity.
Qed.

(** What [handleStreamingResult] leaves in [lastResult] and in
    [history]. *)
Lemma handleStreamingResult_result (seen : Render) (result : str)
      (chunkId : nat) (now : Z) (a : App) :
  lastResult (handleStreamingResult seen result chunkId now a)
  = Some (resultOf result chunkId now)
  /\ history (handleStreamingResult seen result chunkId now a)
     = firstn 20 (resultOf result chunkId now :: history a).
Proof.
  unfold handleStreamingResult, resultOf.
  destruct (parseScores result) as [ai real]. cbn [fst snd].
  cbn [lastResult history setStreamingStatus].
  match goal with
  | |- context [detect seen ?i ?p ?c ?x] =>
      destruct (detect_keeps seen i p c x) as [-> ->]
  end.
  split; reflexivity.
Qed.

Lemma gtb_strict (x t : number) : SFeqb x t = true -> gtb x t = false.
Proof.
  unfold SFeqb, gtb, ltb, SFltb. rewrite (SFcompare_antisym x t).
  destruct (SFcompare x t) as [[| |] |]; simpl; congruence.
Qed.

(** C6. In both flows [isAI] is the strict comparison of the parsed
    [aiPercent] with the cutoff: 30 for a streaming chunk, 50 for the
    single request.  A score equal to the cutoff does not trigger, and
    the two cutoffs are separate: a score of 40 triggers the streaming
    flow only. *)
Theorem isAI_strict_threshold (seen : Render) (result : str) (chunkId : nat)
        (now : Z) (a : App) :
  (exists d,
      lastResult (handleStreamingResult seen result chunkId now a) = Some d
      /\ aiPercent d = fst (parseScores result)
      /\ isAI d = gtb (aiPercent d) (of_Z 30)
      /\ (SFeqb (aiPercent d) (of_Z 30) = true -> isAI d = false))
  /\ (let d := SingleRequest.detectionResult result now in
      SingleRequest.aiPercent d = fst (parseScores result)
      /\ SingleRequest.isAI d = gtb (SingleRequest.aiPercent d) (of_Z 50)
      /\ (SFeqb (SingleRequest.aiPercent d) (of_Z 50) = true ->
          SingleRequest.isAI d = false))
  /\ isAI (resultOf (lit "AI Generated: 30%") chunkId now) = false
  /\ SingleRequest.isAI (SingleRequest.detectionResult (lit "AI Generated: 50%") now)
     = false
  /\ isAI (resultOf (lit "AI Generated: 40%") chunkId now) = true
  /\ SingleRequest.isAI (SingleRequest.detectionResult (lit "AI Generated: 40%") now)
     = false.
Proof.
  split; [| split].
  - exists (resultOf result chunkId now).
    split; [apply handleStreamingResult_result |].
    split; [reflexivity |]. split; [reflexivity |].
    cbn [isAI aiPercent resultOf]. apply gtb_strict.
  - unfold SingleRequest.detectionResult.
    destruct (parseScores result) as [ai real].
    cbn [fst SingleRequest.aiPercent SingleRequest.isAI].
    split; [reflexivity |]. split; [reflexivity |]. apply gtb_strict.
  - repeat split; vm_compute; reflexivity.
Qed.

Lemma isAI_strict_threshold_witness :
  SFeqb (fst (parseScores (lit "AI Generated: 30.0%"))) (of_Z 30) = true
  /\ exists d,
      lastResult (handleStreamingResult (render_of initial)
                    (lit "AI Generated: 30.0%") 1 0 initial)
      = Some d
      /\ isAI d = false.
Proof.
  split; [vm_compute; reflexivity |].
  destruct (proj1 (isAI_strict_threshold (render_of initial)
                     (lit "AI Generated: 30.0%") 1 0 initial))
    as (d & Hd & Hai & _ & Hstrict).
  exists d. split; [exact Hd |].
  apply Hstrict. rewrite Hai. vm_compute. reflexivity.
Defined.

(** The ledger keeps the twenty most recent entries. *)
Lemma handle_all_history (seen : Render) (inputs : list (str * nat * Z)) :
  forall a,
    (List.length (history a) <= 20)%nat ->
    history (handle_all seen inputs a)
    = firstn 20 (rev (map (fun '(r, c, t) => resultOf r c t) inputs)
                 ++ history a).
Proof.
  induction inputs as [| [[r c] t] inputs IH]; intros a Ha.
  - cbn [handle_all fold_left map rev app]. symmetry.
    apply firstn_all2. exact Ha.
  - cbn [handle_all fold_left map rev].
    change (fold_left _ inputs ?x) with (handle_all seen inputs x).
    rewrite IH.
    + rewrite (proj2 (handleStreamingResult_result seen r c t a)).
      rewrite <- app_assoc. cbn [app].
      set (older := rev _).
      rewrite (firstn_app 20 older (firstn 20 _)).
      rewrite (firstn_app 20 older (_ :: history a)).
      f_equal. rewrite firstn_firstn. f_equal. lia.
    + rewrite (proj2 (handleStreamingResult_result seen r c t a)).
      apply firstn_le_length.
Qed.

(** C7. Whatever is pushed, the ledger never holds more than twenty
    results; a push puts the new result in front, keeps the others in
    their order, and when the ledger is full drops its last entry,
    which is the oldest; after any sequence of pushes the ledger is
    the twenty most recent results, most recent first.  (The ledger of
    the single-request flow is built in the same way, with room for
    ten.) *)
Theorem history_bounded (seen : Render) (result : str) (chunkId : nat)
        (now : Z) (a : App) :
  let a' := handleStreamingResult seen result chunkId now a in
  let d := resultOf result chunkId now in
  (List.length (history a') <= 20)%nat
  /\ history a' = firstn 20 (d :: history a)
  /\ ((List.length (history a) < 20)%nat -> history a' = d :: history a)
  /\ ((List.length (history a) = 20)%nat ->
      history a' = d :: removelast (history a))
  /\ (forall inputs,
         (List.length (history a) <= 20)%nat ->
         (List.length (history (handle_all seen inputs a)) <= 20)%nat
         /\ history (handle_all seen inputs a)
            = firstn 20 (rev (map (fun '(r, c, t) => resultOf r c t) inputs)
                         ++ history a))
  /\ (forall d' prev,
         (List.length (SingleRequest.pushHistory d' prev) <= 10)%nat).
Proof.
  intros a' d.
  pose proof (proj2 (handleStreamingResult_result seen result chunkId now a))
    as H.
  fold a' d in H.
  split; [rewrite H; apply firstn_le_length |].
  split; [exact H |].
  split; [| split].
  - intro Hlt. rewrite H. rewrite (firstn_cons 19). f_equal.
    apply firstn_all2. lia.
  - intro Heq. rewrite H. rewrite (firstn_cons 19). f_equal.
    destruct (history a) as [| x l] using rev_ind; [discriminate |].
    rewrite removelast_last. rewrite length_app in Heq. simpl in Heq.
    rewrite firstn_app. replace (19 - List.length l)%nat with 0%nat by lia.
    rewrite firstn_O, app_nil_r. apply firstn_all2. lia.
  - split.
    + intros inputs Hle. rewrite handle_all_history by exact Hle.
      split; [apply firstn_le_length | reflexivity].
    + intros d' prev. apply firstn_le_length.
Qed.

Lemma history_bounded_witness :
  (List.length (history initial) < 20)%nat
  /\ history (handleStreamingResult (render_of initial)
                (lit "AI Generated: 82.5%") 1 0 initial)
     = [resultOf (lit "AI Generated: 82.5%") 1 0].
Proof.
  split; [simpl; lia |].
  apply (proj1 (proj2 (proj2
           (history_bounded (render_of initial)
              (lit "AI Generated: 82.5%") 1 0 initial)))).
  simpl. lia.
Defined.

End ResultFacts.

(* ------------------------------------------------------------------ *)

(** Binary64 arithmetic: the size of a mantissa, and what rounding to
    nearest does to a quotient of 53 or 54 digits. *)

Section FloatFacts.
Import Num.

Lemma digits2_pos_size (p : positive) : digits2_pos p = Pos.size p.
Proof. induction p as [p IH | p IH |]; simpl; [rewrite IH | rewrite IH |]; reflexivity. Qed.

Lemma Zdigits2_log2 (z : Z) : 0 < z -> Zdigits2 z = Z.log2 z + 1.
Proof.
  destruct z as [| p | p]; try lia. intros _. simpl.
  rewrite digits2_pos_size.
  destruct p as [p | p |]; simpl; try reflexivity; lia.
Qed.

Lemma Zdigits2_bounds (z d : Z) :
  0 < d -> 2 ^ (d - 1) <= z < 2 ^ d -> Zdigits2 z = d.
Proof.
  intros Hd Hz.
  assert (0 < z) by (pose proof (Z.pow_pos_nonneg 2 (d - 1)); lia).
  rewrite Zdigits2_log2 by assumption.
  rewrite (Z.log2_unique z (d - 1)); try lia.
  replace (Z.succ (d - 1)) with d by lia. exact Hz.
Qed.

Lemma fexp_normal (x : Z) : -1021 <= x -> fexp prec emax x = x - 53.
Proof. intro H. unfold fexp, emin, prec, emax. lia. Qed.

(** Rounding to nearest a mantissa of 53 or 54 digits: the exponent
    goes up by one at most, and stays as it is when the mantissa has 53
    digits and is not the largest one. *)
Lemma round_exponent (q e : Z) (l : location) :
  2 ^ 52 <= q < 2 ^ 54 - 2 -> -1074 <= e <= 970 ->
  exists m e',
    binary_round_aux prec emax false q e l = S754_finite false m e'
    /\ e <= e' <= e + 1
    /\ (q < 2 ^ 53 - 1 -> e' = e).
Proof.
  intros Hq He.
  assert (H53 : forall q', 2 ^ 52 <= q' < 2 ^ 53 ->
                  fexp prec emax (Zdigits2 q' + e) - e = 0).
  { intros q' Hq'. rewrite (Zdigits2_bounds (z:=q') (d:=53)) by lia.
    rewrite fexp_normal by lia. lia. }
  assert (H54 : forall q', 2 ^ 53 <= q' < 2 ^ 54 ->
                  fexp prec emax (Zdigits2 q' + e) - e = 1).
  { intros q' Hq'. rewrite (Zdigits2_bounds (z:=q') (d:=54)) by lia.
    rewrite fexp_normal by lia. lia. }
  assert (H53' : forall q', 2 ^ 52 <= q' < 2 ^ 53 ->
                  fexp prec emax (Zdigits2 q' + (e + 1)) - (e + 1) = 0).
  { intros q' Hq'. rewrite (Zdigits2_bounds (z:=q') (d:=53)) by lia.
    rewrite fexp_normal by lia. lia. }
  assert (Hle : forall x, x <= 971 -> (x <=? emax - prec) = true)
    by (intros x Hx; apply Z.leb_le; unfold emax, prec; lia).
  unfold binary_round_aux, shr_fexp.
  destruct (Z_lt_le_dec q (2 ^ 53)) as [Hlt | Hge].
  - (* 53 digits: no first shift *)
    rewrite (H53 q) by lia. cbn [shr].
    set (q' := round_nearest_even _ _).
    assert (Hq' : q' = q \/ q' = q + 1).
    { subst q'.
      destruct l as [| []];
        cbn [round_nearest_even shr_m loc_of_shr_record shr_record_of_loc];
        auto.
      destruct (Z.even q); auto. }
    destruct (Z_lt_le_dec q' (2 ^ 53)) as [Hlt' | Hge'].
    + rewrite (H53 q') by lia. cbn [shr shr_m shr_record_of_loc].
      destruct q' as [| m | m]; try lia.
      rewrite Hle by lia. exists m, e. repeat split; lia.
    + assert (Eq' : q' = 2 ^ 53) by lia.
      rewrite (H54 q') by lia. rewrite Eq'. cbn.
      rewrite Hle by lia. eexists _, (e + 1). repeat split; lia.
  - (* 54 digits: the mantissa is halved first *)
    rewrite (H54 q) by lia.
    destruct q as [| [p | p |] |]; try lia;
      [pose proof (Pos2Z.inj_xI p) as Hp | pose proof (Pos2Z.inj_xO p) as Hp].
    + destruct l as [| []]; cbn [shr iter_pos shr_1 shr_record_of_loc orb];
        set (q' := round_nearest_even _ _);
        (assert (Hq' : 2 ^ 52 <= q' < 2 ^ 53)
          by (subst q'; cbn [round_nearest_even shr_m loc_of_shr_record];
              try destruct (Z.even (Zpos p)); lia));
        rewrite (H53' q' Hq'); cbn [shr shr_m shr_record_of_loc];
        destruct q' as [| m | m]; try lia;
        rewrite Hle by lia; exists m, (e + 1); repeat split; lia.
    + destruct l as [| []]; cbn [shr iter_pos shr_1 shr_record_of_loc orb];
        set (q' := round_nearest_even _ _);
        (assert (Hq' : 2 ^ 52 <= q' < 2 ^ 53)
          by (subst q'; cbn [round_nearest_even shr_m loc_of_shr_record];
              try destruct (Z.even (Zpos p)); lia));
        rewrite (H53' q' Hq'); cbn [shr shr_m shr_record_of_loc];
        destruct q' as [| m | m]; try lia;
        rewrite Hle by lia; exists m, (e + 1); repeat split; lia.
Qed.

Lemma iter_xO (p k : positive) :
  Zpos (Pos.iter xO p k) = Zpos p * 2 ^ Zpos k.
Proof.
  induction k as [| k IH] using Pos.peano_ind.
  - cbn [Pos.iter]. rewrite Pos2Z.inj_xO. lia.
  - rewrite Pos.iter_succ, Pos2Z.inj_xO, IH, Pos2Z.inj_succ.
    rewrite Z.pow_succ_r by lia. lia.
Qed.

(** An exact mantissa of 53 digits is kept as it is. *)
Lemma round_exact (m : positive) (e : Z) :
  2 ^ 52 <= Zpos m < 2 ^ 53 -> -1074 <= e <= 971 ->
  binary_round_aux prec emax false (Zpos m) e loc_Exact = S754_finite false m e.
Proof.
  intros Hm He.
  assert (H53 : fexp prec emax (Zdigits2 (Zpos m) + e) - e = 0).
  { rewrite (Zdigits2_bounds (z:=Zpos m) (d:=53)) by lia.
    rewrite fexp_normal by lia. lia. }
  unfold binary_round_aux, shr_fexp.
  rewrite H53.
  cbn [shr shr_m shr_record_of_loc loc_of_shr_record round_nearest_even].
  rewrite H53. cbn [shr shr_m shr_record_of_loc].
  replace (e <=? emax - prec) with true
    by (symmetry; apply Z.leb_le; unfold emax, prec; lia).
  reflexivity.
Qed.

(** A positive integer below 2^52, as a number: its digits moved up to
    the top of the mantissa. *)
Lemma of_Z_small (n : Z) :
  0 < n < 2 ^ 52 ->
  exists m,
    of_Z n = S754_finite false m (Zdigits2 n - 53)
    /\ Zpos m = n * 2 ^ (53 - Zdigits2 n)
    /\ 2 ^ 52 <= Zpos m < 2 ^ 53.
Proof.
  intros Hn. destruct n as [| p |]; try lia.
  set (d := Zdigits2 (Zpos p)).
  assert (Hd : d = Z.log2 (Zpos p) + 1) by (apply Zdigits2_log2; lia).
  pose proof (Z.log2_spec (Zpos p) ltac:(lia)) as Hlog.
  pose proof (Z.log2_nonneg (Zpos p)) as Hnn.
  assert (Hd52 : d <= 52).
  { destruct (Z_le_gt_dec d 52) as [H | H]; [exact H |].
    assert (2 ^ 52 <= 2 ^ Z.log2 (Zpos p)) by (apply Z.pow_le_mono_r; lia).
    lia. }
  unfold of_Z, binary_normalize, binary_round.
  change (Zpos (digits2_pos p)) with d.
  rewrite Z.add_0_r, fexp_normal by lia.
  unfold shl_align.
  destruct (d - 53 - 0) as [| k | k] eqn:Ek; try lia.
  assert (Hm : Zpos (Pos.iter xO p k) = Zpos p * 2 ^ (53 - d)).
  { rewrite iter_xO. f_equal. f_equal. lia. }
  assert (Hb : 2 ^ 52 <= Zpos p * 2 ^ (53 - d) < 2 ^ 53).
  { replace (2 ^ 52) with (2 ^ (d - 1) * 2 ^ (53 - d))
      by (rewrite <- Z.pow_add_r by lia; f_equal; lia).
    replace (2 ^ 53) with (2 ^ d * 2 ^ (53 - d))
      by (rewrite <- Z.pow_add_r by lia; f_equal; lia).
    assert (0 < 2 ^ (53 - d)) by (apply Z.pow_pos_nonneg; lia).
    replace (Z.log2 (Zpos p)) with (d - 1) in Hlog by lia.
    replace (Z.succ (d - 1)) with d in Hlog by lia.
    split.
    - apply Z.mul_le_mono_nonneg_r; lia.
    - apply Z.mul_lt_mono_pos_r; lia. }
  exists (Pos.iter xO p k).
  split; [| split; [exact Hm | rewrite Hm; exact Hb]].
  apply round_exact; [rewrite Hm; exact Hb | lia].
Qed.

End FloatFacts.

(* ------------------------------------------------------------------ *)

Section SchedulerFacts.
Import Num RegExp ScoreParser Volume Wav JS Streaming.

Lemma samplesNeeded_value : trunc (SFopp samplesNeeded) = - 88200.
Proof. vm_compute. reflexivity. Qed.

Lemma ceil_value :
  ceilZ (mul (CHUNK_DURATION streamingConfig) (RATE streamingConfig)) = 88200.
Proof. vm_compute. reflexivity. Qed.

Lemma RATE_value :
  RATE streamingConfig = S754_finite false 6061057848115200 (-38).
Proof. vm_compute. reflexivity. Qed.

Lemma CHUNK_DURATION_value :
  CHUNK_DURATION streamingConfig = S754_finite false 4503599627370496 (-50).
Proof. vm_compute. reflexivity. Qed.

(** The duration gate refuses every buffer of fewer than 88200
    samples. *)
Lemma refused_below (n : Z) : 0 <= n < 88200 -> refused n = true.
Proof.
  intros Hn. unfold refused. rewrite RATE_value, CHUNK_DURATION_value.
  destruct (Z.eq_dec n 0) as [-> | Hn0]; [reflexivity |].
  destruct (@of_Z_small n ltac:(lia)) as (m & -> & Hm & Hmb).
  set (d := Zdigits2 n) in *.
  assert (Hd : d = Z.log2 n + 1) by (apply Zdigits2_log2; lia).
  pose proof (Z.log2_spec n ltac:(lia)) as Hlog.
  pose proof (Z.log2_nonneg n) as Hnn.
  assert (Hd17 : 1 <= d <= 17).
  { split; [lia |].
    destruct (Z_le_gt_dec d 17) as [H | H]; [exact H |].
    assert (2 ^ 17 <= 2 ^ Z.log2 n) by (apply Z.pow_le_mono_r; lia).
    lia. }
  unfold div, SFdiv, SFdiv_core_binary. cbn [xorb].
  rewrite (Zdigits2_bounds (z:=Zpos m) (d:=53)) by lia.
  change (Zdigits2 (Zpos 6061057848115200)) with 53.
  rewrite fexp_normal by lia.
  replace (Z.min (53 + (d - 53) - (53 + -38) - 53) (d - 53 - -38))
    with (d - 68) by lia.
  replace (d - 53 - -38 - (d - 68)) with 53 by lia.
  cbv iota.
  rewrite Z.shiftl_mul_pow2 by lia.
  destruct (Z.div_eucl (Zpos m * 2 ^ 53) (Zpos 6061057848115200))
    as [q r] eqn:Ediv.
  assert (Hq : q = Zpos m * 2 ^ 53 / 6061057848115200)
    by (unfold Z.div; rewrite Ediv; reflexivity).
  assert (Hqb : 2 ^ 52 <= q < 2 ^ 54 - 2).
  { rewrite Hq. split.
    - apply Z.div_le_lower_bound; lia.
    - apply Z.div_lt_upper_bound; lia. }
  destruct (@round_exponent q (d - 68)
              (new_location (Zpos 6061057848115200) r)
              Hqb ltac:(lia)) as (m' & e' & -> & He' & Hstrict).
  assert (He51 : e' < -50).
  { destruct (Z.eq_dec d 17) as [E17 | N17]; [| lia].
    rewrite Hstrict; [lia |].
    rewrite E17 in Hm. change (2 ^ (53 - 17)) with (2 ^ 36) in Hm.
    rewrite Hq. apply Z.div_lt_upper_bound; lia. }
  unfold ltb, SFltb, SFcompare.
  destruct (Z.compare_spec e' (-50)) as [E | L | G];
    [lia | reflexivity | lia].
Qed.

Lemma gate_length (bufferCopy : list number) :
  ltb (bufferDuration bufferCopy) (CHUNK_DURATION streamingConfig) = false ->
  88200 <= Z.of_nat (List.length bufferCopy).
Proof.
  intro Hgate.
  destruct (Z_lt_le_dec (Z.of_nat (List.length bufferCopy)) 88200) as [Hlt | Hge];
    [| exact Hge].
  assert (Hr : refused (Z.of_nat (List.length bufferCopy)) = true)
    by (apply refused_below; lia).
  unfold refused in Hr. unfold bufferDuration, of_nat in Hgate.
  congruence.
Qed.

Lemma chunkOf_tail (bufferCopy : list number) :
  88200 <= Z.of_nat (List.length bufferCopy) ->
  Z.of_nat (List.length (chunkOf bufferCopy)) = 88200
  /\ exists older, bufferCopy = older ++ chunkOf bufferCopy.
Proof.
  intro Hlen. unfold chunkOf, slice. rewrite samplesNeeded_value.
  replace (- 88200 <? 0) with true by reflexivity.
  rewrite Z.max_l by lia.
  split.
  - rewrite length_skipn. lia.
  - exists (firstn (Z.to_nat (Z.of_nat (List.length bufferCopy) + - 88200))
                   bufferCopy).
    symmetry. apply firstn_skipn.
Qed.

Lemma inflight_grows_not (A : Type) (l : list A) (x : A) : l <> l ++ [x].
Proof.
  intro H. apply (f_equal (@List.length A)) in H.
  rewrite length_app in H. simpl in H. lia.
Qed.

(** A tick either leaves the round trips in flight as they are, or
    adds one job: the chunk id that follows the [chunkCount] shown by
    the render, with the tail of the buffer. *)
Lemma processStreamingChunk_inflight (seen : Render) (now : Z) (a : App) :
  inflight (processStreamingChunk seen now a) = inflight a
  \/ (isStreaming a = true
      /\ audioBuffer a <> []
      /\ STREAM_INTERVAL streamingConfig <= now - lastProcessTime a
      /\ ltb (bufferDuration (audioBuffer a)) (CHUNK_DURATION streamingConfig)
         = false
      /\ ltb (calculateRMS (audioBuffer a)) (MIN_VOLUME_THRESHOLD streamingConfig)
         = false
      /\ exists wavBlob,
          createWavBlob (chunkOf (audioBuffer a)) (RATE streamingConfig)
          = Some wavBlob
          /\ inflight (processStreamingChunk seen now a)
             = inflight a ++ [next_job seen a wavBlob]).
Proof.
  unfold processStreamingChunk.
  destruct (isStreaming a) eqn:Hs; cbn [negb orb]; [| left; reflexivity].
  destruct (audioBuffer a) as [| x xs] eqn:Hb; [left; reflexivity |].
  cbn [List.length Nat.eqb].
  destruct (Z.ltb_spec (now - lastProcessTime a) (STREAM_INTERVAL streamingConfig))
    as [Hlt | Hge]; [left; reflexivity |].
  cbn [audioBuffer setLastProcessTime]. rewrite Hb.
  destruct (ltb (bufferDuration (x :: xs)) (CHUNK_DURATION streamingConfig))
    eqn:Hgate; [left; reflexivity |].
  destruct (ltb (calculateRMS (x :: xs)) (MIN_VOLUME_THRESHOLD streamingConfig))
    eqn:Hvol; [left; reflexivity |].
  rewrite createWavBlob_bytes.
  right. repeat split; try assumption; try discriminate.
  eexists. split; [reflexivity |].
  unfold next_job. rewrite Hb. reflexivity.
Qed.

(** C8. Every chunk that is dispatched holds exactly
    ceil(CHUNK_DURATION * RATE) = 88200 samples, and these are the
    last samples of the buffer, in their order: the buffer is some
    older samples followed by the chunk.  This holds for every buffer
    the duration gate lets through. *)
Theorem chunk_window_is_tail :
  (forall bufferCopy,
      ltb (bufferDuration bufferCopy) (CHUNK_DURATION streamingConfig) = false ->
      Z.of_nat (List.length (chunkOf bufferCopy))
      = ceilZ (mul (CHUNK_DURATION streamingConfig) (RATE streamingConfig))
      /\ exists older, bufferCopy = older ++ chunkOf bufferCopy)
  /\ (forall seen now a job,
         inflight (processStreamingChunk seen now a) = inflight a ++ [job] ->
         Z.of_nat (List.length (job_chunkData job))
         = ceilZ (mul (CHUNK_DURATION streamingConfig) (RATE streamingConfig))
         /\ exists older, audioBuffer a = older ++ job_chunkData job).
Proof.
  assert (Hgate : forall bufferCopy,
             ltb (bufferDuration bufferCopy) (CHUNK_DURATION streamingConfig)
             = false ->
             Z.of_nat (List.length (chunkOf bufferCopy))
             = ceilZ (mul (CHUNK_DURATION streamingConfig) (RATE streamingConfig))
             /\ exists older, bufferCopy = older ++ chunkOf bufferCopy).
  { intros bufferCopy H. rewrite ceil_value.
    apply chunkOf_tail, gate_length, H. }
  split; [exact Hgate |].
  intros seen now a job Hjob.
  destruct (processStreamingChunk_inflight seen now a)
    as [Hsame | (_ & _ & _ & Hg & _ & wavBlob & _ & Hnew)].
  - rewrite Hsame in Hjob. exfalso. exact (@inflight_grows_not _ _ _ Hjob).
  - rewrite Hnew in Hjob. apply app_inv_head in Hjob.
    injection Hjob as <-. cbn [job_chunkData next_job]. apply Hgate, Hg.
Qed.

End SchedulerFacts.

(* ------------------------------------------------------------------ *)

Section SessionFacts.
Import Num RegExp ScoreParser Volume Wav JS Streaming.

Variable JSON_parse : str -> option js.

(** The state after a tick that gets past every gate. *)
Lemma processStreamingChunk_dispatch (seen : Render) (now : Z) (a : App) :
  isStreaming a = true ->
  audioBuffer a <> [] ->
  STREAM_INTERVAL streamingConfig <= now - lastProcessTime a ->
  ltb (bufferDuration (audioBuffer a)) (CHUNK_DURATION streamingConfig) = false ->
  ltb (calculateRMS (audioBuffer a)) (MIN_VOLUME_THRESHOLD streamingConfig) = false ->
  exists wavBlob,
    processStreamingChunk seen now a
    = setInflight (inflight a ++ [next_job seen a wavBlob])
        (setStreamingStatus (Processing (render_chunkCount seen + 1))
           (setChunkCount (render_chunkCount seen + 1)
                          (setLastProcessTime now a))).
Proof.
  intros Hs Hb Ht Hgate Hvol. unfold processStreamingChunk.
  rewrite Hs. cbn [negb orb].
  destruct (audioBuffer a) as [| x xs] eqn:Hbuf; [contradiction |].
  cbn [List.length Nat.eqb].
  replace (now - lastProcessTime a <? STREAM_INTERVAL streamingConfig)
    with false by (symmetry; apply Z.ltb_ge; exact Ht).
  cbn [audioBuffer setLastProcessTime]. rewrite Hbuf, Hgate, Hvol.
  rewrite createWavBlob_bytes. eexists. unfold next_job.
  cbn [chunkCount audioBuffer inflight setLastProcessTime setChunkCount
       setStreamingStatus].
  rewrite Hbuf. reflexivity.
Qed.

(** The gates that make a tick do nothing at all. *)
Lemma tick_skips (now : Z) (a : App) :
  streamingInterval a = None \/ isStreaming a = false
  \/ audioBuffer a = []
  \/ now - lastProcessTime a < STREAM_INTERVAL streamingConfig ->
  step JSON_parse (Tick now) a = a.
Proof.
  intros H. cbn [step].
  destruct (streamingInterval a) as [seen |]; [| reflexivity].
  unfold processStreamingChunk.
  destruct (isStreaming a); cbn [negb orb]; [| reflexivity].
  destruct (audioBuffer a) as [| x xs]; [reflexivity |].
  cbn [List.length Nat.eqb].
  destruct (Z.ltb_spec (now - lastProcessTime a) (STREAM_INTERVAL streamingConfig))
    as [Hlt | Hge]; [reflexivity |].
  destruct H as [H | [H | [H | H]]]; try discriminate. lia.
Qed.

(** The round trips in flight play no part in the decision of a
    tick. *)
Lemma tick_ignores_inflight (now : Z) (a : App) (jobs : list Job) :
  inflight (step JSON_parse (Tick now) (setInflight jobs a))
  = jobs ++ skipn (List.length (inflight a))
                  (inflight (step JSON_parse (Tick now) a)).
Proof.
  assert (Hnil : forall l : list Job, skipn (List.length l) l = [])
    by (intro l; apply skipn_all).
  assert (Hone : forall (l : list Job) x, skipn (List.length l) (l ++ [x]) = [x]).
  { intros l x. rewrite skipn_app, Hnil, Nat.sub_diag. reflexivity. }
  cbn [step streamingInterval setInflight].
  destruct (streamingInterval a) as [seen |];
    [| cbn [inflight]; rewrite Hnil, app_nil_r; reflexivity].
  unfold processStreamingChunk.
  cbn [isStreaming audioBuffer lastProcessTime chunkCount setInflight].
  destruct (isStreaming a); cbn [negb orb];
    [| cbn [inflight]; rewrite Hnil, app_nil_r; reflexivity].
  destruct (audioBuffer a) as [| x xs] eqn:Hbuf;
    [cbn [inflight]; rewrite Hnil, app_nil_r; reflexivity |].
  cbn [List.length Nat.eqb].
  destruct (now - lastProcessTime a <? STREAM_INTERVAL streamingConfig);
    [cbn [inflight]; rewrite Hnil, app_nil_r; reflexivity |].
  cbn [audioBuffer setLastProcessTime setInflight]. rewrite Hbuf.
  destruct (ltb (bufferDuration (x :: xs)) (CHUNK_DURATION streamingConfig));
    [cbn [inflight setStreamingStatus]; rewrite Hnil, app_nil_r; reflexivity |].
  destruct (ltb (calculateRMS (x :: xs)) (MIN_VOLUME_THRESHOLD streamingConfig));
    [cbn [inflight setStreamingStatus]; rewrite Hnil, app_nil_r; reflexivity |].
  rewrite createWavBlob_bytes.
  cbn [inflight setInflight setStreamingStatus setChunkCount setLastProcessTime].
  rewrite Hone. reflexivity.
Qed.

Lemma pollLoop_no_upload (poll : nat -> option str) (n : nat) :
  forall i r, count_uploads (fst (pollLoop JSON_parse poll n i r)) = 0%nat.
Proof.
  induction n as [| n IH]; intros i r; cbn [pollLoop]; [reflexivity |].
  destruct (poll i) as [text |]; [| reflexivity].
  destruct (truthy _); [reflexivity |].
  specialize (IH (S i) (scanLines JSON_parse (split_lines text) r)).
  destruct (pollLoop JSON_parse poll n (S i) _) as [calls final].
  exact IH.
Qed.

(** A round trip uploads once, unless the chunk could not be written
    to the cache directory. *)
Lemma roundTrip_uploads (net : Net) (chunkId : nat) :
  count_uploads (fst (roundTrip JSON_parse net chunkId))
  = if write_ok net then 1%nat else 0%nat.
Proof.
  unfold roundTrip.
  destruct (write_ok net); cbn [negb]; [| reflexivity].
  destruct (upload_response net) as [[[] [uploadResult |]] |]; try reflexivity.
  destruct (index0 uploadResult) as [filePath |]; [| reflexivity].
  destruct (predict_response net) as [[predictionResult |] |]; try reflexivity.
  destruct (event_id predictionResult) as [eventId |]; [| reflexivity].
  pose proof (pollLoop_no_upload (poll_response net) 10 0 JNull) as Hp.
  destruct (pollLoop JSON_parse (poll_response net) 10 0 JNull) as [calls final].
  cbn [fst] in *. unfold count_uploads in *.
  rewrite filter_app, length_app, Hp. reflexivity.
Qed.


Lemma tick_runs (seen : Render) (now : Z) (a : App) :
  streamingInterval a = Some seen ->
  step JSON_parse (Tick now) a = processStreamingChunk seen now a.
Proof. intro H. cbn [step]. rewrite H. reflexivity. Qed.

(** Two ticks in a row, at least [STREAM_INTERVAL] apart, on a buffer
    that passes the gates: each starts a round trip, whatever is in
    flight, and both round trips carry the same chunk id. *)
Lemma two_ticks_dispatch (seen : Render) (a : App) (t1 t2 : Z) :
  streamingInterval a = Some seen ->
  isStreaming a = true ->
  audioBuffer a <> [] ->
  ltb (bufferDuration (audioBuffer a)) (CHUNK_DURATION streamingConfig) = false ->
  ltb (calculateRMS (audioBuffer a)) (MIN_VOLUME_THRESHOLD streamingConfig) = false ->
  STREAM_INTERVAL streamingConfig <= t1 - lastProcessTime a ->
  STREAM_INTERVAL streamingConfig <= t2 - t1 ->
  exists job1 job2,
    inflight (step JSON_parse (Tick t1) a) = inflight a ++ [job1]
    /\ inflight (step JSON_parse (Tick t2) (step JSON_parse (Tick t1) a))
       = inflight a ++ [job1; job2]
    /\ job_chunkId job1 = (render_chunkCount seen + 1)%nat
    /\ job_chunkId job2 = (render_chunkCount seen + 1)%nat.
Proof.
  intros Hi Hs Hb Hgate Hvol Ht1 Ht2.
  destruct (@processStreamingChunk_dispatch seen t1 a Hs Hb Ht1 Hgate Hvol)
    as [w1 H1].
  rewrite (tick_runs t1 a Hi), H1.
  set (a1 := setInflight _ _).
  destruct (@processStreamingChunk_dispatch seen t2 a1 Hs Hb Ht2 Hgate Hvol)
    as [w2 H2].
  rewrite (tick_runs t2 a1 Hi), H2.
  exists (next_job seen a w1), (next_job seen a1 w2).
  subst a1. cbn [inflight setInflight]. rewrite <- app_assoc.
  repeat split.
Qed.


(** X28. The gates of a tick, and what they leave out.  A tick
    starts nothing when the timer is cleared, streaming is off, the
    buffer is empty, or fewer than [STREAM_INTERVAL] (500)
    milliseconds have passed since the last tick that got past this
    time gate; otherwise it starts at most one round trip.  The round
    trips in flight are not consulted: two ticks at least 500
    milliseconds apart, on a buffer that passes the duration and the
    volume gate, each start a round trip, so two are in flight
    together.  Both carry the same chunk id, the one that follows the
    [chunkCount] shown by the render of the interval callback, which
    is the render in which the session was started.  Each round trip
    makes exactly one upload call (none when the chunk could not be
    written to the cache directory). *)
Theorem tick_dispatch_gates (now : Z) (a : App) :
  (streamingInterval a = None \/ isStreaming a = false
   \/ audioBuffer a = []
   \/ now - lastProcessTime a < STREAM_INTERVAL streamingConfig ->
   step JSON_parse (Tick now) a = a)
  /\ (inflight (step JSON_parse (Tick now) a) = inflight a
      \/ exists seen job,
          streamingInterval a = Some seen
          /\ inflight (step JSON_parse (Tick now) a) = inflight a ++ [job]
          /\ job_chunkId job = (render_chunkCount seen + 1)%nat
          /\ job_render job = seen)
  /\ (forall jobs,
         inflight (step JSON_parse (Tick now) (setInflight jobs a))
         = jobs ++ skipn (List.length (inflight a))
                         (inflight (step JSON_parse (Tick now) a)))
  /\ (forall seen t2,
         streamingInterval a = Some seen ->
         isStreaming a = true ->
         audioBuffer a <> [] ->
         ltb (bufferDuration (audioBuffer a)) (CHUNK_DURATION streamingConfig)
         = false ->
         ltb (calculateRMS (audioBuffer a)) (MIN_VOLUME_THRESHOLD streamingConfig)
         = false ->
         STREAM_INTERVAL streamingConfig <= now - lastProcessTime a ->
         STREAM_INTERVAL streamingConfig <= t2 - now ->
         exists job1 job2,
           inflight (step JSON_parse (Tick now) a) = inflight a ++ [job1]
           /\ inflight (step JSON_parse (Tick t2) (step JSON_parse (Tick now) a))
              = inflight a ++ [job1; job2]
           /\ job_chunkId job1 = (render_chunkCount seen + 1)%nat
           /\ job_chunkId job2 = (render_chunkCount seen + 1)%nat)
  /\ (forall a0, streamingInterval (startRecording true a0)
                 = Some (render_of a0))
  /\ (forall net chunkId,
         count_uploads (fst (roundTrip JSON_parse net chunkId))
         = if write_ok net then 1%nat else 0%nat).
Proof.
  split; [apply tick_skips |].
  split.
  { cbn [step]. destruct (streamingInterval a) as [seen |]; [| left; reflexivity].
    destruct (processStreamingChunk_inflight seen now a)
      as [Hsame | (_ & _ & _ & _ & _ & w & _ & Hnew)].
    - left. exact Hsame.
    - right. exists seen. eexists.
      split; [reflexivity |]. split; [exact Hnew |]. split; reflexivity. }
  split; [intro jobs; apply tick_ignores_inflight |].
  split; [intros seen t2; apply two_ticks_dispatch |].
  split; [intro a0; reflexivity | apply roundTrip_uploads].
Qed.

(** *** Stopping *)

Lemma stopRecording_state (release_ok : bool) (a : App) :
  isRecording a = true ->
  let a' := stopRecording release_ok a in
  isRecording a' = false /\ isStreaming a' = false
  /\ streamingInterval a' = None
  /\ inflight a' = inflight a
  /\ verdicts a' = verdicts a.
Proof.
  intro H. unfold stopRecording. rewrite H. cbn [negb].
  cbn [streamingInterval setIsRecording setIsStreaming].
  destruct (streamingInterval a) as [seen |] eqn:Hi; destruct release_ok;
    cbn; rewrite ?Hi; repeat split.
Qed.

Lemma detect_session (seen : Render) (isAI : bool) (p : number) (c : nat)
      (a : App) :
  session (detect seen isAI p c a) = session a.
Proof.
  unfold detect.
  destruct isAI; cbn [detectionEvent setConsecutiveDetections].
  - destruct (negb (render_detectionEvent seen)); reflexivity.
  - destruct (render_detectionEvent seen && (0 <? consecutiveDetections a)%nat);
      reflexivity.
Qed.

Lemma handleStreamingResult_session (seen : Render) (result : str) (c : nat)
      (now : Z) (a : App) :
  session (handleStreamingResult seen result c now a) = session a.
Proof.
  unfold handleStreamingResult.
  destruct (parseScores result) as [ai real].
  match goal with
  | |- context [detect seen ?i ?p ?c ?x] =>
      change (session (setStreamingStatus (ChunkVerdict c i) (detect seen i p c x)))
        with (session (detect seen i p c x));
      rewrite (detect_session seen i p c x)
  end.
  reflexivity.
Qed.

(** The end of a round trip never touches the session, and touches
    the verdicts only when it hands a text to
    [handleStreamingResult]. *)
Lemma processAudioChunk_session (seen : Render) (net : Net) (c : nat)
      (now : Z) (a : App) :
  session (processAudioChunk JSON_parse seen net c now a) = session a.
Proof.
  unfold processAudioChunk.
  destruct (roundTrip JSON_parse net c) as [calls out].
  destruct out as [[| | | | result | |] | |]; try reflexivity.
  match goal with
  | |- session (emit ?es ?x) = _ => change (session (emit es x)) with (session x)
  end.
  rewrite handleStreamingResult_session. reflexivity.
Qed.

Lemma processAudioChunk_dropped (seen : Render) (net : Net) (c : nat)
      (now : Z) (a : App) :
  (forall result, snd (roundTrip JSON_parse net c) <> Handled (JStr result)) ->
  verdicts (processAudioChunk JSON_parse seen net c now a) = verdicts a.
Proof.
  unfold processAudioChunk.
  destruct (roundTrip JSON_parse net c) as [calls out]. cbn [snd].
  intro H.
  destruct out as [[| | | | result | |] | |]; try reflexivity.
  exfalso. exact (H result eq_refl).
Qed.

Lemma processAudioChunk_handled (seen : Render) (net : Net) (c : nat)
      (now : Z) (a : App) (result : str) :
  snd (roundTrip JSON_parse net c) = Handled (JStr result) ->
  lastResult (processAudioChunk JSON_parse seen net c now a)
  = Some (resultOf result c now)
  /\ history (processAudioChunk JSON_parse seen net c now a)
     = firstn 20 (resultOf result c now :: history a).
Proof.
  unfold processAudioChunk.
  destruct (roundTrip JSON_parse net c) as [calls out]. cbn [snd].
  intros ->.
  cbn [lastResult history emit].
  destruct (handleStreamingResult_result seen result c now (emit calls a))
    as [-> ->].
  split; reflexivity.
Qed.

Lemma round_trip_applies (k : nat) (job : Job) (net : Net) (now : Z)
      (a : App) (result : str) :
  nth_error (inflight a) k = Some job ->
  snd (roundTrip JSON_parse net (job_chunkId job)) = Handled (JStr result) ->
  let a' := step JSON_parse (RoundTripEnds k net now) a in
  lastResult a' = Some (resultOf result (job_chunkId job) now)
  /\ history a' = firstn 20 (resultOf result (job_chunkId job) now :: history a).
Proof.
  intros Hk Hr. cbn [step]. rewrite Hk.
  destruct (@processAudioChunk_handled (job_render job) net (job_chunkId job)
              now (setInflight (remove_nth k (inflight a)) a) result Hr)
    as [H1 H2].
  split; [exact H1 | exact H2].
Qed.

(** X29. [stopRecording] turns the streaming flag off and clears the
    timer, so that no later tick starts a chunk; it leaves the round
    trips in flight as they are, and nothing in the component cancels
    them: a round trip that ends after the stop with a result text is
    applied like any other, its result becomes [lastResult] and is
    pushed on the history. *)
Theorem stop_keeps_round_trips (release_ok : bool) (a : App) :
  isRecording a = true ->
  let a' := stopRecording release_ok a in
  isStreaming a' = false
  /\ streamingInterval a' = None
  /\ inflight a' = inflight a
  /\ (forall now, step JSON_parse (Tick now) a' = a'
                  /\ forall seen, processStreamingChunk seen now a' = a')
  /\ (forall k job net now result,
         nth_error (inflight a') k = Some job ->
         snd (roundTrip JSON_parse net (job_chunkId job))
         = Handled (JStr result) ->
         let a'' := step JSON_parse (RoundTripEnds k net now) a' in
         lastResult a'' = Some (resultOf result (job_chunkId job) now)
         /\ history a''
            = firstn 20 (resultOf result (job_chunkId job) now :: history a')).
Proof.
  intros Hrec a'.
  destruct (stopRecording_state release_ok a Hrec) as (_ & Hs & Hi & Hf & _).
  fold a' in Hs, Hi, Hf.
  split; [exact Hs |]. split; [exact Hi |]. split; [exact Hf |].
  split.
  - intro now. split; [apply tick_skips; left; exact Hi |].
    intro seen. unfold processStreamingChunk. rewrite Hs. reflexivity.
  - intros k job net now result Hk Hr. apply round_trip_applies; assumption.
Qed.


(** *** Polling *)

Lemma scanLines_first_array (lines : list str) (r : js) :
  scanLines JSON_parse lines r
  = match first_array JSON_parse lines with
    | Some first => first
    | None => r
    end.
Proof.
  unfold first_array.
  induction lines as [| line lines IH]; [reflexivity |].
  cbn [scanLines flat_map]. unfold payload at 1.
  destruct (startsWith line (lit "data: ")); [| exact IH].
  destruct (JSON_parse (slice6 line)) as [[| | | | | [| first rest] |] |];
    try exact IH.
  reflexivity.
Qed.

Lemma count_polls_app (xs ys : list effect) :
  count_polls (xs ++ ys) = (count_polls xs + count_polls ys)%nat.
Proof. unfold count_polls. rewrite filter_app, length_app. reflexivity. Qed.

Lemma pollLoop_budget (poll : nat -> option str) (n : nat) :
  forall i r,
    (count_polls (fst (pollLoop JSON_parse poll n i r)) <= n)%nat
    /\ forallb is_sleep_200 (fst (pollLoop JSON_parse poll n i r)) = true.
Proof.
  induction n as [| n IH]; intros i r; cbn [pollLoop].
  - split; [apply Nat.le_refl | reflexivity].
  - destruct (poll i) as [text |].
    + destruct (truthy _).
      * split; [cbn; lia | reflexivity].
      * specialize (IH (S i) (scanLines JSON_parse (split_lines text) r)).
        destruct (pollLoop JSON_parse poll n (S i) _) as [calls final].
        cbn [fst] in *. destruct IH as [IH1 IH2].
        split.
        -- change (Poll :: Sleep 200 :: calls)
             with ([Poll; Sleep 200] ++ calls).
           rewrite count_polls_app. cbn. lia.
        -- cbn [forallb is_sleep_200]. rewrite IH2. reflexivity.
    + split; [cbn; lia | reflexivity].
Qed.

Lemma roundTrip_budget (net : Net) (chunkId : nat) :
  (count_polls (fst (roundTrip JSON_parse net chunkId)) <= 10)%nat
  /\ forallb is_sleep_200 (fst (roundTrip JSON_parse net chunkId)) = true.
Proof.
  unfold roundTrip.
  destruct (write_ok net); cbn [negb]; [| split; [cbn; lia | reflexivity]].
  destruct (upload_response net) as [[[] [uploadResult |]] |];
    try (split; [cbn; lia | reflexivity]).
  destruct (index0 uploadResult) as [filePath |];
    [| split; [cbn; lia | reflexivity]].
  destruct (predict_response net) as [[predictionResult |] |];
    try (split; [cbn; lia | reflexivity]).
  destruct (event_id predictionResult) as [eventId |];
    [| split; [cbn; lia | reflexivity]].
  destruct (pollLoop_budget (poll_response net) 10 0 JNull) as [Hp Hs].
  destruct (pollLoop JSON_parse (poll_response net) 10 0 JNull) as [calls final].
  cbn [fst] in *. split.
  - rewrite count_polls_app. cbn [count_polls filter List.length Nat.add].
    exact Hp.
  - rewrite forallb_app, Hs. reflexivity.
Qed.

(** Ten polls without a data array: the budget is used up and the
    round trip ends with nothing to hand over. *)
Lemma pollLoop_exhausted (poll : nat -> option str) (n : nat) :
  forall i r,
    truthy r = false ->
    (forall j, (i <= j < i + n)%nat ->
               exists text, poll j = Some text
                            /\ first_array JSON_parse (split_lines text) = None) ->
    snd (pollLoop JSON_parse poll n i r) = Some r
    /\ count_polls (fst (pollLoop JSON_parse poll n i r)) = n.
Proof.
  induction n as [| n IH]; intros i r Hr Hpoll; cbn [pollLoop].
  - split; reflexivity.
  - destruct (Hpoll i ltac:(lia)) as (text & -> & Hnone).
    rewrite scanLines_first_array, Hnone, Hr.
    destruct (IH (S i) r Hr) as [IH1 IH2].
    { intros j Hj. apply Hpoll. lia. }
    destruct (pollLoop JSON_parse poll n (S i) r) as [calls final].
    cbn [fst snd] in *. split; [exact IH1 |].
    change (Poll :: Sleep 200 :: calls) with ([Poll; Sleep 200] ++ calls).
    rewrite count_polls_app, IH2. reflexivity.
Qed.

(** C9, as the code has it.  The scan of a response stops at the first
    line that starts with the data prefix and whose payload parses to
    a non-empty array, and takes the first element of that array,
    whatever it is; lines without the prefix, payloads that do not
    parse and payloads that are not non-empty arrays are passed over.
    A round trip polls at most 10 times and every delay is 200
    milliseconds.  The end of a round trip never touches the session
    (recording and streaming flags, timer, chunk counter, buffer), and
    unless it hands a text to [handleStreamingResult] it leaves the
    verdicts ([lastResult], history, detection state) as they were;
    this is the case when none of the 10 polls carries a data
    array. *)
Theorem poll_selection_and_budget (seen : Render) (net : Net) (chunkId : nat)
        (now : Z) (a : App) :
  (forall lines r,
      scanLines JSON_parse lines r
      = match first_array JSON_parse lines with
        | Some first => first
        | None => r
        end)
  /\ (count_polls (fst (roundTrip JSON_parse net chunkId)) <= 10)%nat
  /\ forallb is_sleep_200 (fst (roundTrip JSON_parse net chunkId)) = true
  /\ session (processAudioChunk JSON_parse seen net chunkId now a) = session a
  /\ ((forall result,
          snd (roundTrip JSON_parse net chunkId) <> Handled (JStr result)) ->
      verdicts (processAudioChunk JSON_parse seen net chunkId now a) = verdicts a)
  /\ (forall uploadResult filePath predictionResult eventId,
         write_ok net = true ->
         upload_response net = Some (true, Some uploadResult) ->
         index0 uploadResult = Some filePath ->
         predict_response net = Some (Some predictionResult) ->
         event_id predictionResult = Some eventId ->
         (forall j, (j < 10)%nat ->
                    exists text,
                      poll_response net j = Some text
                      /\ first_array JSON_parse (split_lines text) = None) ->
         snd (roundTrip JSON_parse net chunkId) = NoResult
         /\ count_polls (fst (roundTrip JSON_parse net chunkId)) = 10%nat
         /\ verdicts (processAudioChunk JSON_parse seen net chunkId now a)
            = verdicts a).
Proof.
  split; [apply scanLines_first_array |].
  split; [apply roundTrip_budget |].
  split; [apply roundTrip_budget |].
  split; [apply processAudioChunk_session |].
  split; [apply processAudioChunk_dropped |].
  intros uploadResult filePath predictionResult eventId Hw Hu Hi Hp He Hpoll.
  assert (Hout : snd (roundTrip JSON_parse net chunkId) = NoResult
                 /\ count_polls (fst (roundTrip JSON_parse net chunkId)) = 10%nat).
  { unfold roundTrip. rewrite Hw, Hu, Hi, Hp, He. cbn [negb].
    destruct (@pollLoop_exhausted (poll_response net) 10 0 JNull eq_refl)
      as [H1 H2].
    { intros j Hj. apply Hpoll. lia. }
    destruct (pollLoop JSON_parse (poll_response net) 10 0 JNull)
      as [calls final].
    cbn [fst snd] in *. subst final. cbn [truthy].
    split; [reflexivity |].
    rewrite count_polls_app, H2. reflexivity. }
  destruct Hout as [Hout Hcount].
  split; [exact Hout |]. split; [exact Hcount |].
  apply processAudioChunk_dropped. intros result Hres.
  rewrite Hout in Hres. discriminate.
Qed.

End SessionFacts.

Section SessionExamples.
Import Num RegExp ScoreParser Volume Wav JS Streaming.

Lemma four_seconds_pass :
  ltb (bufferDuration four_seconds) (CHUNK_DURATION streamingConfig) = false
  /\ ltb (calculateRMS four_seconds) (MIN_VOLUME_THRESHOLD streamingConfig)
     = false.
Proof. split; vm_compute; reflexivity. Qed.

Lemma four_seconds_not_empty : four_seconds <> [].
Proof. unfold four_seconds. discriminate. Qed.

(** The example session: the ticks at 1000 and at 1500 both start a
    round trip, and both round trips are for chunk 1. *)
Lemma tick_dispatch_gates_witness :
  exists job1 job2,
    inflight (step JSON_parse_fragment (Tick 1500)
                   (step JSON_parse_fragment (Tick 1000) recording))
    = [job1; job2]
    /\ job_chunkId job1 = 1%nat
    /\ job_chunkId job2 = 1%nat.
Proof.
  destruct four_seconds_pass as [Hgate Hvol].
  destruct (proj1 (proj2 (proj2 (proj2
             (tick_dispatch_gates JSON_parse_fragment 1000 recording))))
            (render_of initial) 1500 eq_refl eq_refl four_seconds_not_empty
            Hgate Hvol)
    as (job1 & job2 & _ & H2 & Hid1 & Hid2).
  - cbn. lia.
  - cbn. lia.
  - exists job1, job2. split; [exact H2 |]. split; [exact Hid1 | exact Hid2].
Defined.

Lemma complete_response_handled :
  snd (roundTrip JSON_parse_fragment (answering complete_response) 1)
  = Handled (JStr (lit "AI Generated: 90% | Real Voice: 10%")).
Proof. vm_compute. reflexivity. Qed.

(** The example session after its first tick, with chunk 1 in
    flight. *)
Lemma recording_first_job :
  exists job,
    inflight (step JSON_parse_fragment (Tick 1000) recording) = [job]
    /\ job_chunkId job = 1%nat.
Proof.
  destruct four_seconds_pass as [Hgate Hvol].
  assert (Ht : STREAM_INTERVAL streamingConfig <= 1000 - lastProcessTime recording)
    by (cbn; lia).
  destruct (@processStreamingChunk_dispatch (render_of initial) 1000 recording
              eq_refl four_seconds_not_empty Ht Hgate Hvol) as [w H].
  rewrite (@tick_runs JSON_parse_fragment (render_of initial) 1000 recording
             eq_refl), H.
  exists (next_job (render_of initial) recording w). split; reflexivity.
Qed.

Lemma tick_keeps_recording (JSON_parse : str -> option js) (now : Z) (a : App) :
  isRecording (step JSON_parse (Tick now) a) = isRecording a
  /\ lastResult (step JSON_parse (Tick now) a) = lastResult a.
Proof.
  cbn [step]. destruct (streamingInterval a) as [seen |]; [| split; reflexivity].
  unfold processStreamingChunk.
  destruct (negb (isStreaming a) || (List.length (audioBuffer a) =? 0)%nat);
    [split; reflexivity |].
  destruct (now - lastProcessTime a <? STREAM_INTERVAL streamingConfig);
    [split; reflexivity |].
  cbn [audioBuffer setLastProcessTime].
  destruct (ltb (bufferDuration (audioBuffer a)) (CHUNK_DURATION streamingConfig));
    [split; reflexivity |].
  destruct (ltb (calculateRMS (audioBuffer a)) (MIN_VOLUME_THRESHOLD streamingConfig));
    [split; reflexivity |].
  rewrite createWavBlob_bytes. split; reflexivity.
Qed.

(** C9 as stated fails: when the first data line carries the array
    holding 7 and the second one a result text, the scan selects the
    number 7, not the text. *)
Lemma number_is_selected : ~ selects_first_string JSON_parse_fragment.
Proof.
  intro H.
  specialize (H (split_lines number_then_text) (lit "AI Generated: 90%")).
  assert (Hsel : first_string_array JSON_parse_fragment
                   (split_lines number_then_text)
                 = Some (lit "AI Generated: 90%"))
    by (vm_compute; reflexivity).
  specialize (H Hsel). vm_compute in H. discriminate.
Qed.

Lemma stop_keeps_round_trips_witness :
  lastResult (step JSON_parse_fragment
                (RoundTripEnds 0 (answering complete_response) 2000)
                (stopRecording true
                   (step JSON_parse_fragment (Tick 1000) recording)))
  = Some (resultOf (lit "AI Generated: 90% | Real Voice: 10%") 1 2000).
Proof.
  destruct recording_first_job as (job & Hjob & Hid).
  destruct (tick_keeps_recording JSON_parse_fragment 1000 recording)
    as [Hrec _].
  destruct (@stop_keeps_round_trips JSON_parse_fragment true
              (step JSON_parse_fragment (Tick 1000) recording) Hrec)
    as (_ & _ & Hf & _ & Hlate).
  rewrite <- Hid.
  apply (Hlate 0%nat job (answering complete_response) 2000
               (lit "AI Generated: 90% | Real Voice: 10%")).
  - rewrite Hf, Hjob. reflexivity.
  - rewrite Hid. exact complete_response_handled.
Defined.

Lemma poll_selection_and_budget_witness :
  snd (roundTrip JSON_parse_fragment (answering (lit "event: heartbeat")) 1)
  = NoResult
  /\ count_polls (fst (roundTrip JSON_parse_fragment
                                 (answering (lit "event: heartbeat")) 1))
     = 10%nat.
Proof.
  destruct (proj2 (proj2 (proj2 (proj2 (proj2
             (poll_selection_and_budget JSON_parse_fragment
                (render_of initial)
                (answering (lit "event: heartbeat")) 1 0 initial)))))
            (JArr [JStr (lit "/tmp/chunk.wav")]) (JStr (lit "/tmp/chunk.wav"))
            (JObj [(lit "event_id", JStr (lit "e1"))]) (JStr (lit "e1"))
            eq_refl eq_refl eq_refl eq_refl eq_refl)
    as (H1 & H2 & _).
  - intros j Hj. exists (lit "event: heartbeat"). split; reflexivity.
  - split; [exact H1 | exact H2].
Defined.

Lemma chunk_window_is_tail_witness :
  ltb (bufferDuration four_seconds) (CHUNK_DURATION streamingConfig) = false
  /\ Z.of_nat (List.length (chunkOf four_seconds))
     = ceilZ (mul (CHUNK_DURATION streamingConfig) (RATE streamingConfig)).
Proof.
  destruct four_seconds_pass as [Hgate _].
  split; [exact Hgate |].
  exact (proj1 (proj1 chunk_window_is_tail four_seconds Hgate)).
Defined.

End SessionExamples.

(* ------------------------------------------------------------------ *)

Section QuotientFacts.
Import Num.

(** Rounding to nearest a mantissa of 53 or 54 digits gives a number
    whose mantissa has 53 digits; the exponent stays as it is for a
    mantissa of 53 digits that is not the largest one, and goes up by
    one for a mantissa of 54 digits. *)
Lemma round_normal (q e : Z) (l : location) :
  2 ^ 52 <= q < 2 ^ 54 - 2 -> -1074 <= e <= 970 ->
  exists m e',
    binary_round_aux prec emax false q e l = S754_finite false m e'
    /\ 2 ^ 52 <= Zpos m < 2 ^ 53
    /\ e <= e' <= e + 1
    /\ (q < 2 ^ 53 - 1 -> e' = e)
    /\ (2 ^ 53 <= q -> e' = e + 1).
Proof.
  intros Hq He.
  assert (H53 : forall q', 2 ^ 52 <= q' < 2 ^ 53 ->
                  fexp prec emax (Zdigits2 q' + e) - e = 0).
  { intros q' Hq'. rewrite (Zdigits2_bounds (z:=q') (d:=53)) by lia.
    rewrite fexp_normal by lia. lia. }
  assert (H54 : forall q', 2 ^ 53 <= q' < 2 ^ 54 ->
                  fexp prec emax (Zdigits2 q' + e) - e = 1).
  { intros q' Hq'. rewrite (Zdigits2_bounds (z:=q') (d:=54)) by lia.
    rewrite fexp_normal by lia. lia. }
  assert (H53' : forall q', 2 ^ 52 <= q' < 2 ^ 53 ->
                  fexp prec emax (Zdigits2 q' + (e + 1)) - (e + 1) = 0).
  { intros q' Hq'. rewrite (Zdigits2_bounds (z:=q') (d:=53)) by lia.
    rewrite fexp_normal by lia. lia. }
  assert (Hle : forall x, x <= 971 -> (x <=? emax - prec) = true)
    by (intros x Hx; apply Z.leb_le; unfold emax, prec; lia).
  unfold binary_round_aux, shr_fexp.
  destruct (Z_lt_le_dec q (2 ^ 53)) as [Hlt | Hge].
  - rewrite (H53 q) by lia. cbn [shr].
    set (q' := round_nearest_even _ _).
    assert (Hq' : q' = q \/ q' = q + 1).
    { subst q'.
      destruct l as [| []];
        cbn [round_nearest_even shr_m loc_of_shr_record shr_record_of_loc];
        auto.
      destruct (Z.even q); auto. }
    destruct (Z_lt_le_dec q' (2 ^ 53)) as [Hlt' | Hge'].
    + rewrite (H53 q') by lia. cbn [shr shr_m shr_record_of_loc].
      destruct q' as [| m | m]; try lia.
      rewrite Hle by lia. exists m, e. repeat split; lia.
    + assert (Eq' : q' = 2 ^ 53) by lia.
      rewrite (H54 q') by lia. rewrite Eq'. cbn.
      rewrite Hle by lia. eexists _, (e + 1). repeat split; lia.
  - rewrite (H54 q) by lia.
    destruct q as [| [p | p |] |]; try lia;
      [pose proof (Pos2Z.inj_xI p) as Hp | pose proof (Pos2Z.inj_xO p) as Hp].
    + destruct l as [| []]; cbn [shr iter_pos shr_1 shr_record_of_loc orb];
        set (q' := round_nearest_even _ _);
        (assert (Hq' : 2 ^ 52 <= q' < 2 ^ 53)
          by (subst q'; cbn [round_nearest_even shr_m loc_of_shr_record];
              try destruct (Z.even (Zpos p)); lia));
        rewrite (H53' q' Hq'); cbn [shr shr_m shr_record_of_loc];
        destruct q' as [| m | m]; try lia;
        rewrite Hle by lia; exists m, (e + 1); repeat split; lia.
    + destruct l as [| []]; cbn [shr iter_pos shr_1 shr_record_of_loc orb];
        set (q' := round_nearest_even _ _);
        (assert (Hq' : 2 ^ 52 <= q' < 2 ^ 53)
          by (subst q'; cbn [round_nearest_even shr_m loc_of_shr_record];
              try destruct (Z.even (Zpos p)); lia));
        rewrite (H53' q' Hq'); cbn [shr shr_m shr_record_of_loc];
        destruct q' as [| m | m]; try lia;
        rewrite Hle by lia; exists m, (e + 1); repeat split; lia.
Qed.

(** The quotient of a positive integer below 2^52 by a divisor whose
    mantissa is [M] and whose exponent is -38 (an integer of 15
    digits). *)
Lemma quotient_by_15_digits (n : Z) (M : positive) :
  0 < n < 2 ^ 52 ->
  6000000000000000 <= Zpos M < 2 ^ 53 ->
  exists m e',
    div (of_Z n) (S754_finite false M (-38)) = S754_finite false m e'
    /\ 2 ^ 52 <= Zpos m < 2 ^ 53
    /\ Zdigits2 n - 68 <= e' <= Zdigits2 n - 67
    /\ (n * 2 ^ (106 - Zdigits2 n) / Zpos M < 2 ^ 53 - 1 ->
        e' = Zdigits2 n - 68)
    /\ (2 ^ 53 <= n * 2 ^ (106 - Zdigits2 n) / Zpos M ->
        e' = Zdigits2 n - 67).
Proof.
  intros Hn HM.
  destruct (@of_Z_small n Hn) as (m & -> & Hm & Hmb).
  set (d := Zdigits2 n) in *.
  assert (Hd : d = Z.log2 n + 1) by (apply Zdigits2_log2; lia).
  pose proof (Z.log2_spec n ltac:(lia)) as Hlog.
  pose proof (Z.log2_nonneg n) as Hnn.
  assert (Hd52 : 1 <= d <= 52).
  { split; [lia |].
    destruct (Z_le_gt_dec d 52) as [H | H]; [exact H |].
    assert (2 ^ 52 <= 2 ^ Z.log2 n) by (apply Z.pow_le_mono_r; lia).
    lia. }
  unfold div, SFdiv, SFdiv_core_binary. cbn [xorb].
  rewrite (Zdigits2_bounds (z:=Zpos m) (d:=53)) by lia.
  rewrite (Zdigits2_bounds (z:=Zpos M) (d:=53)) by lia.
  rewrite fexp_normal by lia.
  replace (Z.min (53 + (d - 53) - (53 + -38) - 53) (d - 53 - -38))
    with (d - 68) by lia.
  replace (d - 53 - -38 - (d - 68)) with 53 by lia.
  cbv iota.
  rewrite Z.shiftl_mul_pow2 by lia.
  assert (Hnum : Zpos m * 2 ^ 53 = n * 2 ^ (106 - d)).
  { rewrite Hm, <- Z.mul_assoc, <- Z.pow_add_r by lia.
    f_equal. f_equal. lia. }
  rewrite Hnum.
  destruct (Z.div_eucl (n * 2 ^ (106 - d)) (Zpos M)) as [q r] eqn:Ediv.
  assert (Hq : q = n * 2 ^ (106 - d) / Zpos M)
    by (unfold Z.div; rewrite Ediv; reflexivity).
  assert (Hqb : 2 ^ 52 <= q < 2 ^ 54 - 2).
  { rewrite Hq, <- Hnum. split.
    - apply Z.div_le_lower_bound; lia.
    - apply Z.div_lt_upper_bound; lia. }
  destruct (@round_normal q (d - 68) (new_location (Zpos M) r) Hqb ltac:(lia))
    as (m' & e' & -> & Hm' & He' & Hlow & Hhigh).
  exists m', e'. rewrite <- Hq.
  split; [reflexivity |]. split; [exact Hm' |]. split; [lia |].
  split; [exact Hlow |]. intro H. rewrite (Hhigh H). lia.
Qed.

Lemma mantissa_not_below (m : positive) :
  2 ^ 52 <= Zpos m -> Pos.compare_cont Eq m 4503599627370496 <> Lt.
Proof.
  intros H E.
  assert (E' : Pos.compare m 4503599627370496 = Lt) by exact E.
  apply Pos.compare_lt_iff, Pos2Z.pos_lt_pos in E'. lia.
Qed.

End QuotientFacts.

Section GateFacts.
Import Num Volume Wav Streaming.

Lemma accepted_from (n : Z) : 88200 <= n < 2 ^ 32 -> refused n = false.
Proof.
  intros Hn. unfold refused. rewrite RATE_value, CHUNK_DURATION_value.
  destruct (@quotient_by_15_digits n 6061057848115200 ltac:(lia) ltac:(lia))
    as (m & e' & -> & Hm & He' & _ & Hhigh).
  set (d := Zdigits2 n) in *.
  assert (Hd : d = Z.log2 n + 1) by (apply Zdigits2_log2; lia).
  pose proof (Z.log2_spec n ltac:(lia)) as Hlog.
  assert (Hd17 : 17 <= d).
  { destruct (Z_le_gt_dec 17 d) as [H | H]; [exact H |].
    assert (2 ^ Z.succ (Z.log2 n) <= 2 ^ 16) by (apply Z.pow_le_mono_r; lia).
    lia. }
  assert (He50 : -50 <= e').
  { destruct (Z.eq_dec d 17) as [E17 | N17]; [| lia].
    rewrite Hhigh; [lia |].
    rewrite E17. change (2 ^ (106 - 17)) with (2 ^ 89).
    apply Z.div_le_lower_bound; lia. }
  unfold ltb, SFltb, SFcompare.
  destruct (Z.compare_spec e' (-50)) as [E | L | G]; [| lia | reflexivity].
  destruct (Pos.compare_cont Eq m 4503599627370496) eqn:Ec; try reflexivity.
  exfalso. exact (mantissa_not_below (proj1 Hm) Ec).
Qed.

(** X1. The duration gate is a threshold on the number of buffered
    samples: a buffer of fewer than 2^32 samples is refused exactly
    when it holds fewer than 88200 samples, four seconds at 22050
    samples per second.  While streaming, a tick that gets past the
    time gate on a shorter buffer that is not empty records the time,
    shows the buffering status and starts nothing. *)
Theorem duration_gate_threshold (bufferCopy : list number) :
  Z.of_nat (List.length bufferCopy) < 2 ^ 32 ->
  (ltb (bufferDuration bufferCopy) (CHUNK_DURATION streamingConfig) = true
   <-> Z.of_nat (List.length bufferCopy) < 88200)
  /\ (forall seen now a,
         audioBuffer a = bufferCopy ->
         bufferCopy <> [] ->
         Z.of_nat (List.length bufferCopy) < 88200 ->
         isStreaming a = true ->
         STREAM_INTERVAL streamingConfig <= now - lastProcessTime a ->
         processStreamingChunk seen now a
         = setStreamingStatus (Buffering (bufferDuration bufferCopy))
                              (setLastProcessTime now a)).
Proof.
  intro Hlen.
  assert (Hiff : ltb (bufferDuration bufferCopy) (CHUNK_DURATION streamingConfig)
                 = true
                 <-> Z.of_nat (List.length bufferCopy) < 88200).
  { change (ltb (bufferDuration bufferCopy) (CHUNK_DURATION streamingConfig))
      with (refused (Z.of_nat (List.length bufferCopy))).
    split.
    - intro Href.
      destruct (Z_lt_le_dec (Z.of_nat (List.length bufferCopy)) 88200)
        as [Hlt | Hge]; [exact Hlt |].
      rewrite accepted_from in Href by lia. discriminate.
    - intro Hlt. apply refused_below. lia. }
  split; [exact Hiff |].
  intros seen now a Hbuf Hne Hshort Hs Ht.
  unfold processStreamingChunk. rewrite Hs, Hbuf. cbn [negb orb].
  destruct bufferCopy as [| x xs] eqn:Eb; [contradiction |].
  rewrite <- Eb in *.
  replace (List.length bufferCopy =? 0)%nat with false
    by (rewrite Eb; reflexivity).
  replace (now - lastProcessTime a <? STREAM_INTERVAL streamingConfig)
    with false by (symmetry; apply Z.ltb_ge; exact Ht).
  cbn [audioBuffer setLastProcessTime]. rewrite Hbuf.
  rewrite (proj2 Hiff Hshort). reflexivity.
Qed.

Lemma duration_gate_threshold_witness :
  ltb (bufferDuration [zero; zero; zero]) (CHUNK_DURATION streamingConfig)
  = true.
Proof.
  apply (proj1 (@duration_gate_threshold [zero; zero; zero] ltac:(cbn; lia))).
  cbn. lia.
Defined.

End GateFacts.

Section MonitorFacts.
Import Num MicRecorder.

Lemma thirty_thousand :
  of_Z 30000 = S754_finite false 8246337208320000 (-38).
Proof. vm_compute. reflexivity. Qed.

Lemma one_value : of_Z 1 = S754_finite false 4503599627370496 (-52).
Proof. vm_compute. reflexivity. Qed.

(** The part of the recording that has elapsed, out of thirty
    seconds. *)
Lemma elapsed_part (d : Z) :
  0 < d < 2 ^ 52 ->
  exists m e',
    div (of_Z d) (of_Z 30000) = S754_finite false m e'
    /\ 2 ^ 52 <= Zpos m < 2 ^ 53
    /\ (d < 30000 -> e' < -52)
    /\ (30000 <= d -> -52 <= e').
Proof.
  intro Hd. rewrite thirty_thousand.
  destruct (@quotient_by_15_digits d 8246337208320000 Hd ltac:(lia))
    as (m & e' & -> & Hm & He' & Hlow & Hhigh).
  exists m, e'. split; [reflexivity |]. split; [exact Hm |].
  set (k := Zdigits2 d) in *.
  assert (Hk : k = Z.log2 d + 1) by (apply Zdigits2_log2; lia).
  pose proof (Z.log2_spec d ltac:(lia)) as Hlog.
  pose proof (Z.log2_nonneg d) as Hnn.
  split.
  - intro Hlt.
    assert (Hk15 : k <= 15).
    { destruct (Z_le_gt_dec k 15) as [H | H]; [exact H |].
      assert (2 ^ 15 <= 2 ^ Z.log2 d) by (apply Z.pow_le_mono_r; lia).
      lia. }
    destruct (Z.eq_dec k 15) as [E15 | N15]; [| lia].
    rewrite Hlow; [lia |].
    rewrite E15. change (2 ^ (106 - 15)) with (2 ^ 91).
    apply Z.div_lt_upper_bound; lia.
  - intro Hge.
    assert (Hk15 : 15 <= k).
    { destruct (Z_le_gt_dec 15 k) as [H | H]; [exact H |].
      assert (2 ^ Z.succ (Z.log2 d) <= 2 ^ 14) by (apply Z.pow_le_mono_r; lia).
      lia. }
    destruct (Z.eq_dec k 15) as [E15 | N15]; [| lia].
    rewrite Hhigh; [lia |].
    rewrite E15. change (2 ^ (106 - 15)) with (2 ^ 91).
    apply Z.div_le_lower_bound; lia.
Qed.

(** The monitor as a threshold on the duration. *)
Lemma monitor_threshold (status : Status) :
  0 <= durationMillis status < 2 ^ 52 ->
  (isRecording status = false -> monitor status = None)
  /\ (isRecording status = true ->
      exists prog fired,
        monitor status = Some (prog, fired)
        /\ (fired = true <-> 30000 <= durationMillis status)
        /\ (fired = true -> prog = of_Z 1)
        /\ (fired = false -> ltb prog (of_Z 1) = true)).
Proof.
  intro Hd. unfold monitor.
  split; [intros ->; reflexivity |]. intros ->.
  eexists _, _. split; [reflexivity |].
  split; [apply Z.leb_le |].
  destruct (Z.eq_dec (durationMillis status) 0) as [E0 | N0].
  { rewrite E0. split; [discriminate | reflexivity]. }
  destruct (@elapsed_part (durationMillis status) ltac:(lia))
    as (m & e' & -> & Hm & Hshort & Hlong).
  rewrite one_value.
  set (q := S754_finite false m e').
  set (one := S754_finite false 4503599627370496 (-52)).
  assert (Hmin : Math_min q one = if ltb one q then one else q) by reflexivity.
  rewrite Hmin.
  split.
  - intro Hf. apply Z.leb_le in Hf. specialize (Hlong Hf).
    unfold ltb, SFltb, SFcompare, one, q.
    destruct (Z.compare_spec (-52) e') as [E | L | G]; [| reflexivity | lia].
    destruct (Pos.compare_cont Eq 4503599627370496 m) eqn:Ec; try reflexivity.
    + assert (Ec' : Pos.compare 4503599627370496 m = Eq) by exact Ec.
      apply Pos.compare_eq in Ec'. subst m e'. reflexivity.
    + assert (Ec' : Pos.compare 4503599627370496 m = Gt) by exact Ec.
      apply Pos.compare_gt_iff, Pos2Z.pos_lt_pos in Ec'. lia.
  - intro Hf. apply Z.leb_gt in Hf. specialize (Hshort Hf).
    assert (Hlt : ltb q one = true).
    { unfold ltb, SFltb, SFcompare, one, q.
      destruct (Z.compare_spec e' (-52)) as [E | L | G]; [lia | reflexivity | lia]. }
    rewrite (ltb_asym _ _ Hlt). exact Hlt.
Qed.

Section Monitor.
Variable JSON_parse : RegExp.str -> option JS.js.

(** X2. The monitor of the microphone recorder sets the progress to
    min(d / 30000, 1) for a duration of [d] milliseconds: for every
    duration below 2^52 the progress is below 1 before thirty seconds
    and exactly 1 from then on, and from then on the callback clears
    its interval and calls [stopRecording].  The [stopRecording] it
    calls is the one of the render in which [startRecording] ran: when
    that render shows no recording, which is when the interface offers
    to start, the call returns at once, so a firing writes the
    progress and nothing else; the recording stays held, and nothing
    is unloaded or uploaded.  A status that says that nothing is being
    recorded changes nothing. *)
Theorem monitor_full_at_stop (status : Status) (unload_ok : bool)
        (net : Recorder.Net) (a : App) :
  0 <= durationMillis status < 2 ^ 52 ->
  (isRecording status = false ->
   monitor status = None
   /\ forall seen,
       monitorFiring JSON_parse seen unload_ok net status a = (a, false))
  /\ (isRecording status = true ->
      exists prog fired,
        monitor status = Some (prog, fired)
        /\ (fired = true <-> 30000 <= durationMillis status)
        /\ (fired = true -> prog = of_Z 1)
        /\ (fired = false -> ltb prog (of_Z 1) = true)
        /\ monitorFiring JSON_parse None unload_ok net status a
           = (setProgress prog a, fired)
        /\ recording (fst (monitorFiring JSON_parse None unload_ok net status a))
           = recording a
        /\ effects (fst (monitorFiring JSON_parse None unload_ok net status a))
           = effects a
        /\ (forall seen,
               monitorFiring JSON_parse seen unload_ok net status a
               = (if fired
                  then stopRecordingOf JSON_parse seen unload_ok net
                         (setProgress prog a)
                  else setProgress prog a, fired))).
Proof.
  intro Hd.
  destruct (monitor_threshold status Hd) as [Hoff Hon].
  split.
  - intro Hrec. split; [exact (Hoff Hrec) |].
    intro seen. unfold monitorFiring. rewrite (Hoff Hrec). reflexivity.
  - intro Hrec.
    destruct (Hon Hrec) as (prog & fired & Hm & Hiff & Hfull & Hbelow).
    exists prog, fired.
    split; [exact Hm |]. split; [exact Hiff |]. split; [exact Hfull |].
    split; [exact Hbelow |].
    assert (Hnone : monitorFiring JSON_parse None unload_ok net status a
                    = (setProgress prog a, fired)).
    { unfold monitorFiring. rewrite Hm. destruct fired; reflexivity. }
    split; [exact Hnone |].
    rewrite Hnone. split; [reflexivity |]. split; [reflexivity |].
    intro seen. unfold monitorFiring. rewrite Hm. destruct fired; reflexivity.
Qed.

End Monitor.

Lemma monitor_full_at_stop_witness :
  monitorFiring JS.JSON_parse_fragment None true
    {| Recorder.upload_response := None; Recorder.predict_response := None;
       Recorder.poll_response := fun _ => None; Recorder.notify_ok := true |}
    {| isRecording := true; durationMillis := 30000 |}
    {| recording := Some {| Recorder.getURI := Some (RegExp.lit "a.m4a") |};
       isProcessing := false; progress := zero; lastResult := None;
       effects := [] |}
  = ({| recording := Some {| Recorder.getURI := Some (RegExp.lit "a.m4a") |};
        isProcessing := false; progress := of_Z 1; lastResult := None;
        effects := [] |}, true).
Proof.
  destruct (proj2 (@monitor_full_at_stop JS.JSON_parse_fragment
                     {| isRecording := true; durationMillis := 30000 |}
                     true
                     {| Recorder.upload_response := None;
                        Recorder.predict_response := None;
                        Recorder.poll_response := fun _ => None;
                        Recorder.notify_ok := true |}
                     {| recording :=
                          Some {| Recorder.getURI := Some (RegExp.lit "a.m4a") |};
                        isProcessing := false; progress := zero;
                        lastResult := None; effects := [] |}
                     ltac:(cbn; lia)) eq_refl)
    as (prog & fired & _ & Hiff & Hfull & _ & Hnone & _).
  assert (Hfired : fired = true) by (apply Hiff; cbn; lia).
  rewrite Hnone, Hfired, (Hfull Hfired). reflexivity.
Defined.

End MonitorFacts.

(* ------------------------------------------------------------------ *)

Section EncoderFacts.
Import Num Wav.

Lemma charCodeAt_byte (c : ascii) : le_bytes 1 (ToUint8 (charCodeAt c)) = [charCodeAt c].
Proof.
  unfold le_bytes, ToUint8, wrap, charCodeAt.
  pose proof (nat_ascii_bounded c) as Hc.
  rewrite Z.mod_mod by lia.
  rewrite Z.mod_small; [reflexivity |].
  change (2 ^ 8) with 256. lia.
Qed.

(** X3. [writeString] throws exactly when the text is not empty and
    does not fit in the buffer from [offset] on; otherwise it stores
    the character codes of the text at [offset], in order, and leaves
    every other byte and the length of the buffer as they were. *)
Theorem writeString_bounds (view : ArrayBuffer) (offset : nat) (s : string) :
  writeString view offset s
  = if (String.length s =? 0)%nat
       || (offset + String.length s <=? List.length view)%nat
    then Some (firstn offset view ++ tag_bytes s
               ++ skipn (offset + String.length s) view)
    else None.
Proof.
  revert view offset.
  induction s as [| c s IH]; intros view offset.
  - cbn [writeString String.length Nat.eqb orb tag_bytes list_ascii_of_string map].
    rewrite Nat.add_0_r. cbn [app]. rewrite firstn_skipn. reflexivity.
  - cbn [writeString String.length Nat.eqb orb].
    unfold setUint8, write_at. rewrite charCodeAt_byte.
    cbn [List.length].
    destruct (Nat.leb_spec (offset + 1) (List.length view)) as [Hfit | Hout].
    + cbn [bind]. rewrite IH.
      set (view1 := firstn offset view ++ [charCodeAt c] ++ skipn (offset + 1) view).
      assert (Hlen : List.length view1 = List.length view).
      { subst view1. rewrite !length_app, firstn_length_le, length_skipn by lia.
        cbn [List.length]. lia. }
      assert (Hfirst : firstn (S offset) view1 = firstn offset view ++ [charCodeAt c]).
      { subst view1. rewrite app_assoc.
        rewrite firstn_app.
        rewrite length_app, firstn_length_le by lia. cbn [List.length].
        replace (S offset - (offset + 1))%nat with 0%nat by lia.
        rewrite firstn_O, app_nil_r.
        apply firstn_all2. rewrite length_app, firstn_length_le by lia.
        cbn [List.length]. lia. }
      assert (Hskip : forall k, skipn (S offset + k) view1
                                = skipn (offset + S k) view).
      { intro k. subst view1. rewrite app_assoc.
        rewrite skipn_app.
        rewrite length_app, firstn_length_le by lia. cbn [List.length].
        rewrite skipn_all2
          by (rewrite length_app, firstn_length_le by lia; cbn [List.length]; lia).
        cbn [app]. rewrite skipn_skipn. f_equal. lia. }
      rewrite Hlen, Hfirst, Hskip.
      destruct s as [| c' s'].
      * cbn [String.length Nat.eqb orb tag_bytes list_ascii_of_string map].
        replace (offset + 1 <=? List.length view)%nat with true
          by (symmetry; apply Nat.leb_le; lia).
        rewrite <- app_assoc. reflexivity.
      * cbn [String.length Nat.eqb orb].
        replace (S offset + S (String.length s'))%nat
          with (offset + S (S (String.length s')))%nat by lia.
        destruct (_ <=? _)%nat; [| reflexivity].
        unfold tag_bytes. cbn [list_ascii_of_string map].
        rewrite <- app_assoc. reflexivity.
    + cbn [bind].
      replace (offset + S (String.length s) <=? List.length view)%nat with false
        by (symmetry; apply Nat.leb_gt; lia).
      reflexivity.
Qed.

Lemma read_header_field (n : nat) (pre fld post : list Z) :
  List.length fld = n ->
  read_at (List.length pre) n (pre ++ fld ++ post) = Some fld.
Proof.
  intro Hn. unfold read_at.
  rewrite !length_app, Hn.
  replace (_ <=? _)%nat with true by (symmetry; apply Nat.leb_le; lia).
  rewrite skipn_app, skipn_all, Nat.sub_diag. cbn [app skipn].
  rewrite firstn_app, Hn, Nat.sub_diag, firstn_O, app_nil_r.
  rewrite <- Hn. rewrite firstn_all. reflexivity.
Qed.

Lemma getUint32_field (pre post : list Z) (v : Z) :
  0 <= v < 2 ^ 32 ->
  getUint32 (pre ++ le_bytes 4 (ToUint32 v) ++ post) (List.length pre) = Some v.
Proof.
  intro Hv. unfold getUint32.
  rewrite (@read_header_field 4) by apply le_bytes_length.
  cbn [bind]. rewrite from_le_le_bytes.
  change (256 ^ Z.of_nat 4) with (2 ^ 32).
  unfold ToUint32, wrap. rewrite Z.mod_mod by lia.
  rewrite Z.mod_small by exact Hv. reflexivity.
Qed.

Lemma getUint16_field (pre post : list Z) (v : Z) :
  0 <= v < 2 ^ 16 ->
  getUint16 (pre ++ le_bytes 2 (ToUint16 v) ++ post) (List.length pre) = Some v.
Proof.
  intro Hv. unfold getUint16.
  rewrite (@read_header_field 2) by apply le_bytes_length.
  cbn [bind]. rewrite from_le_le_bytes.
  change (256 ^ Z.of_nat 2) with (2 ^ 16).
  unfold ToUint16, wrap. rewrite Z.mod_mod by lia.
  rewrite Z.mod_small by exact Hv. reflexivity.
Qed.

(** X4. The size fields of the header agree with the buffer, for every
    window whose sizes fit their 32-bit fields, the empty window
    included: the RIFF chunk size is the length of the buffer minus 8,
    the data size is twice the number of samples (the length minus
    the 44 bytes of the header), the [fmt] chunk holds 16 bytes, the
    block align is 2 bytes, and at the rate of the component the byte
    rate is 44100 = 22050 * 2. *)
Theorem createWavBlob_sizes (audioData : list number) (sampleRate : number) :
  36 + 2 * Z.of_nat (List.length audioData) < 2 ^ 32 ->
  exists blob,
    createWavBlob audioData sampleRate = Some blob
    /\ Z.of_nat (List.length (blob_bytes blob))
       = 44 + 2 * Z.of_nat (List.length audioData)
    /\ getUint32 (blob_bytes blob) 4
       = Some (Z.of_nat (List.length (blob_bytes blob)) - 8)
    /\ getUint32 (blob_bytes blob) 40
       = Some (Z.of_nat (List.length (blob_bytes blob)) - 44)
    /\ getUint32 (blob_bytes blob) 16 = Some 16
    /\ getUint16 (blob_bytes blob) 32 = Some 2
    /\ (sampleRate = Streaming.RATE Streaming.streamingConfig ->
        getUint32 (blob_bytes blob) 24 = Some 22050
        /\ getUint32 (blob_bytes blob) 28 = Some (22050 * 2)).
Proof.
  intro Hfit.
  rewrite createWavBlob_bytes. eexists. split; [reflexivity |].
  cbn [blob_bytes].
  set (n := List.length audioData) in *.
  set (samples := flat_map sample_bytes audioData).
  assert (Hlen : Z.of_nat (List.length (header_bytes sampleRate n ++ samples))
                 = 44 + 2 * Z.of_nat n).
  { rewrite length_app, header_bytes_length. subst samples n.
    rewrite flat_map_sample_length. lia. }
  rewrite Hlen.
  split; [reflexivity |].
  unfold header_bytes. rewrite <- !app_assoc.
  split; [| split; [| split; [| split]]].
  - replace (44 + 2 * Z.of_nat n - 8) with (36 + Z.of_nat n * 2) by lia.
    apply (getUint32_field (tag_bytes "RIFF")). lia.
  - replace (44 + 2 * Z.of_nat n - 44) with (Z.of_nat n * 2) by lia.
    rewrite !app_assoc. rewrite <- (app_assoc _ _ samples).
    match goal with
    | |- getUint32 (?pre ++ _ ++ _) 40 = _ =>
        change 40%nat with (List.length pre)
    end.
    apply getUint32_field. lia.
  - rewrite 3 app_assoc.
    match goal with
    | |- getUint32 (?pre ++ _ ++ _) 16 = _ =>
        change 16%nat with (List.length pre)
    end.
    apply getUint32_field. lia.
  - rewrite 8 app_assoc.
    match goal with
    | |- getUint16 (?pre ++ _ ++ _) 32 = _ =>
        change 32%nat with (List.length pre)
    end.
    apply getUint16_field. lia.
  - intros ->. split.
    + rewrite 6 app_assoc.
      match goal with
      | |- getUint32 (?pre ++ _ ++ _) 24 = _ =>
          change 24%nat with (List.length pre)
      end.
      change (trunc (Streaming.RATE Streaming.streamingConfig)) with 22050.
      apply getUint32_field. lia.
    + rewrite 7 app_assoc.
      match goal with
      | |- getUint32 (?pre ++ _ ++ _) 28 = _ =>
          change 28%nat with (List.length pre)
      end.
      change (trunc (mul (Streaming.RATE Streaming.streamingConfig) (of_Z 2)))
        with (22050 * 2).
      apply getUint32_field. lia.
Qed.

Lemma createWavBlob_sizes_witness :
  exists blob,
    createWavBlob [] (Streaming.RATE Streaming.streamingConfig) = Some blob
    /\ Z.of_nat (List.length (blob_bytes blob)) = 44
    /\ getUint32 (blob_bytes blob) 40 = Some 0
    /\ getUint32 (blob_bytes blob) 28 = Some 44100.
Proof.
  destruct (@createWavBlob_sizes [] (Streaming.RATE Streaming.streamingConfig))
    as [blob (Hc & Hl & _ & Hd & _ & _ & Hr)].
  - cbn. lia.
  - exists blob. split; [exact Hc |]. split; [exact Hl |].
    split; [rewrite Hd, Hl; reflexivity |].
    exact (proj2 (Hr eq_refl)).
Defined.

(** X5. A sample above 1, [+Infinity] included, is stored as 32767,
    and a sample below -1, [-Infinity] included, as -32767; the
    samples 1, -1 and 0 are stored as 32767, -32767 and 0; a sample
    that is NaN is stored as 0. *)
Theorem pcm16_saturates (x : number) :
  (ltb (of_Z 1) x = true -> pcm16 x = 32767)
  /\ (ltb x (of_Z (-1)) = true -> pcm16 x = -32767)
  /\ pcm16 (of_Z 1) = 32767
  /\ pcm16 (of_Z (-1)) = -32767
  /\ pcm16 zero = 0
  /\ pcm16 S754_nan = 0.
Proof.
  split; [| split; [| repeat split; vm_compute; reflexivity]].
  - intro Hx.
    assert (Hc : clamp x = of_Z 1).
    { unfold clamp.
      assert (Hmin : Math_min (of_Z 1) x = of_Z 1).
      { pose proof (ltb_asym _ _ Hx) as Hx'.
        destruct x as [s | s | | s m e]; try discriminate.
        - destruct s; [discriminate | reflexivity].
        - change (Math_min (of_Z 1) (S754_finite s m e))
            with (if ltb (S754_finite s m e) (of_Z 1)
                  then S754_finite s m e else of_Z 1).
          rewrite Hx'. reflexivity. }
      rewrite Hmin. reflexivity. }
    unfold pcm16. rewrite Hc. vm_compute. reflexivity.
  - intro Hx.
    assert (Hc : clamp x = of_Z (-1)).
    { unfold clamp.
      pose proof (ltb_asym _ _ Hx) as Hx'.
      destruct x as [s | s | | s m e]; try discriminate.
      - destruct s; [reflexivity | discriminate].
      - destruct s; [| discriminate].
        set (x := S754_finite true m e) in *.
        assert (Hmin : Math_min (of_Z 1) x = x) by reflexivity.
        rewrite Hmin.
        change (Math_max (of_Z (-1)) x)
          with (if ltb (of_Z (-1)) x then x else of_Z (-1)).
        rewrite Hx'. reflexivity. }
    unfold pcm16. rewrite Hc. vm_compute. reflexivity.
Qed.

Lemma pcm16_saturates_witness :
  ltb (of_Z 1) (of_Z 3) = true /\ pcm16 (of_Z 3) = 32767
  /\ ltb (S754_infinity true) (of_Z (-1)) = true
  /\ pcm16 (S754_infinity true) = -32767.
Proof.
  split; [reflexivity |].
  split; [exact (proj1 (pcm16_saturates (of_Z 3)) eq_refl) |].
  split; [reflexivity |].
  exact (proj1 (proj2 (pcm16_saturates (S754_infinity true))) eq_refl).
Defined.

End EncoderFacts.

(* ------------------------------------------------------------------ *)

Section SilenceFacts.
Import Num Volume Wav Streaming Observed.

Lemma fold_zero_squares (xs : list number) :
  forallb is_zero xs = true ->
  fold_left (fun acc val => add acc (mul val val)) xs zero = zero.
Proof.
  induction xs as [| x xs IH]; intro H; [reflexivity |].
  cbn [forallb] in H. apply andb_true_iff in H as [Hx Hxs].
  cbn [fold_left].
  destruct x as [s | | |]; try discriminate.
  replace (add zero (mul (S754_zero s) (S754_zero s))) with zero
    by (destruct s; reflexivity).
  apply IH, Hxs.
Qed.

(** The volume of a buffer of zeros is 0. *)
Lemma calculateRMS_silence (xs : list number) :
  forallb is_zero xs = true ->
  Z.of_nat (List.length xs) < 2 ^ 32 ->
  calculateRMS xs = zero.
Proof.
  intros Hz Hlen. unfold calculateRMS.
  destruct xs as [| x xs]; [reflexivity |].
  remember (x :: xs) as buf eqn:Ebuf.
  replace (List.length buf =? 0)%nat with false
    by (subst buf; reflexivity).
  rewrite fold_zero_squares by exact Hz.
  destruct (@of_Z_small (Z.of_nat (List.length buf))) as (m & Hm & _).
  { subst buf. cbn [List.length] in *. lia. }
  unfold of_nat. rewrite Hm. reflexivity.
Qed.

(** X6. A buffer that holds only zeros (fewer than 2^32 of them) is
    never sent: its volume is 0, which is below the threshold, so a tick on such a buffer starts
    no round trip, takes no chunk id and emits nothing; it leaves the
    status as it is or sets it to the buffering or the too-quiet
    text.  When the buffer holds at least 88200 zeros, a tick that
    gets past the time gate records the time and shows the too-quiet
    status. *)
Theorem silence_is_not_sent (seen : Render) (now : Z) (a : App) :
  forallb is_zero (audioBuffer a) = true ->
  Z.of_nat (List.length (audioBuffer a)) < 2 ^ 32 ->
  let a' := processStreamingChunk seen now a in
  calculateRMS (audioBuffer a) = zero
  /\ ltb zero (MIN_VOLUME_THRESHOLD streamingConfig) = true
  /\ inflight a' = inflight a
  /\ chunkCount a' = chunkCount a
  /\ effects a' = effects a
  /\ (streamingStatus a' = streamingStatus a
      \/ streamingStatus a' = Buffering (bufferDuration (audioBuffer a))
      \/ streamingStatus a' = TooQuiet)
  /\ (88200 <= Z.of_nat (List.length (audioBuffer a)) ->
      isStreaming a = true ->
      STREAM_INTERVAL streamingConfig <= now - lastProcessTime a ->
      a' = setStreamingStatus TooQuiet (setLastProcessTime now a)).
Proof.
  intros Hz Hlen a'.
  pose proof (calculateRMS_silence _ Hz Hlen) as Hrms.
  split; [exact Hrms |]. split; [reflexivity |].
  subst a'. unfold processStreamingChunk.
  destruct (isStreaming a) eqn:Hs; cbn [negb orb].
  2:{ repeat split; try (left; reflexivity). intros _ H; discriminate. }
  destruct (Nat.eqb_spec (List.length (audioBuffer a)) 0) as [Hempty | Hsome].
  { repeat split; try (left; reflexivity). intros H _ _. rewrite Hempty in H.
    cbn in H. lia. }
  destruct (Z.ltb_spec (now - lastProcessTime a) (STREAM_INTERVAL streamingConfig))
    as [Hearly | Hlate].
  { repeat split; try (left; reflexivity). intros _ _ H. lia. }
  cbn [audioBuffer setLastProcessTime].
  change (ltb (bufferDuration (audioBuffer a)) (CHUNK_DURATION streamingConfig))
    with (refused (Z.of_nat (List.length (audioBuffer a)))).
  destruct (refused (Z.of_nat (List.length (audioBuffer a)))) eqn:Href.
  { repeat split; try (right; left; reflexivity).
    intros Hlong _ _. rewrite accepted_from in Href by lia. discriminate. }
  rewrite Hrms.
  change (ltb zero (MIN_VOLUME_THRESHOLD streamingConfig)) with true.
  cbv iota. repeat split; right; right; reflexivity.
Qed.

Lemma silence_is_not_sent_witness :
  inflight (processStreamingChunk (render_of initial) 1000
              (setAudioBuffer [zero; S754_zero true] (startRecording true initial)))
  = [].
Proof.
  exact (proj1 (proj2 (proj2
           (@silence_is_not_sent (render_of initial) 1000
              (setAudioBuffer [zero; S754_zero true] (startRecording true initial))
              eq_refl eq_refl)))).
Defined.

End SilenceFacts.

Section LifecycleFacts.
Import Num RegExp ScoreParser Volume Wav JS Streaming Observed.

Variable JSON_parse : str -> option js.

Lemma step_untouched (e : event) (a : App) :
  untouched a -> untouched (step JSON_parse e a).
Proof.
  intros (Hb & Hi & Hc & He & Hl & Hh & Hd & Hn).
  destruct e as [capture_ok | release_ok | now | k net now].
  - cbn [step]. unfold startRecording, untouched.
    destruct capture_ok; cbn; repeat split; assumption.
  - cbn [step]. unfold stopRecording, untouched.
    destruct (isRecording a); cbn [negb]; [| repeat split; assumption].
    destruct (streamingInterval _) as [seen |], release_ok; cbn;
      repeat split; assumption.
  - rewrite tick_skips by (right; right; left; exact Hb).
    repeat split; assumption.
  - cbn [step]. rewrite Hi.
    destruct k; cbn [nth_error]; repeat split; assumption.
Qed.

(** X7. The component never writes a sample into its buffer, so
    whatever the user and the timer do, in whatever order, no chunk is
    ever cut: after every sequence of events from the initial state
    the buffer is empty, no round trip is in flight or has made any
    call, the chunk counter is 0, and there is no result, no history
    and no detection event. *)
Theorem session_never_dispatches (es : list event) :
  let a := run_events JSON_parse es initial in
  audioBuffer a = [] /\ inflight a = [] /\ chunkCount a = 0%nat
  /\ effects a = [] /\ lastResult a = None /\ history a = []
  /\ detectionEvent a = false /\ consecutiveDetections a = 0%nat.
Proof.
  cbv zeta. unfold run_events.
  assert (H : untouched initial) by (repeat split).
  revert H. generalize initial.
  induction es as [| e es IH]; intros a Ha; [exact Ha |].
  cbn [fold_left]. apply IH, step_untouched, Ha.
Qed.







Lemma detect_status (seen : Render) (isAI : bool) (p : number) (c : nat)
      (a : App) :
  streamingStatus (detect seen isAI p c a) = streamingStatus a.
Proof.
  unfold detect. destruct isAI.
  - destruct (negb _); reflexivity.
  - destruct (_ && _); reflexivity.
Qed.

Lemma processAudioChunk_status (seen : Render) (net : Net) (c : nat)
      (now : Z) (a : App) :
  streamingStatus (processAudioChunk JSON_parse seen net c now a) = streamingStatus a
  \/ exists ai, streamingStatus (processAudioChunk JSON_parse seen net c now a)
                = ChunkVerdict c ai.
Proof.
  unfold processAudioChunk.
  destruct (roundTrip JSON_parse net c) as [calls out].
  destruct out as [[| | | | result | |] | |]; try (left; reflexivity).
  right. unfold handleStreamingResult.
  destruct (parseScores result) as [ai real].
  eexists. reflexivity.
Qed.

Lemma step_status (e : event) (a : App) (id : nat) :
  streamingStatus (step JSON_parse e a) = ErrorProcessing id ->
  streamingStatus a = ErrorProcessing id.
Proof.
  destruct e as [capture_ok | release_ok | now | k net now]; cbn [step].
  - unfold startRecording. destruct capture_ok; cbn; [discriminate | auto].
  - unfold stopRecording.
    destruct (isRecording a); cbn [negb]; [| auto].
    destruct (streamingInterval _), release_ok; cbn; auto; discriminate.
  - destruct (streamingInterval a) as [seen |]; [| auto].
    unfold processStreamingChunk.
    destruct (negb (isStreaming a) || _); [auto |].
    destruct (_ <? _); [auto |].
    cbn [audioBuffer setLastProcessTime].
    destruct (ltb (bufferDuration _) _); [cbn; discriminate |].
    destruct (ltb (calculateRMS _) _); [cbn; discriminate |].
    rewrite createWavBlob_bytes. cbn. discriminate.
  - destruct (nth_error (inflight a) k) as [job |]; [| auto].
    destruct (processAudioChunk_status (job_render job) net (job_chunkId job)
                now (setInflight (remove_nth k (inflight a)) a))
      as [H | [ai H]];
      rewrite H; [auto | discriminate].
Qed.

(** X8. The status that reports an error while a chunk is processed
    is never set: the encoder does not throw and the round trip
    catches its own errors, so the [catch] block of
    [processStreamingChunk] is never entered.  Over every sequence of
    events the component shows that status only if it showed it
    before the first of them, and a tick emits nothing. *)
Theorem error_status_unreachable (es : list event) (a : App) :
  (forall id,
      streamingStatus (run_events JSON_parse es a) = ErrorProcessing id ->
      streamingStatus a = ErrorProcessing id)
  /\ (forall id,
         streamingStatus (run_events JSON_parse es initial) <> ErrorProcessing id)
  /\ (forall seen now,
         effects (processStreamingChunk seen now a) = effects a).
Proof.
  assert (H : forall es a id,
             streamingStatus (run_events JSON_parse es a) = ErrorProcessing id ->
             streamingStatus a = ErrorProcessing id).
  { clear. intros es. unfold run_events.
    induction es as [| e es IH]; intros a id Hs; [exact Hs |].
    cbn [fold_left] in Hs. apply IH in Hs. apply step_status in Hs. exact Hs. }
  split; [apply H |]. split.
  - intros id Hs. apply H in Hs. discriminate.
  - intros seen now. unfold processStreamingChunk.
    destruct (negb (isStreaming a) || _); [reflexivity |].
    destruct (_ <? _); [reflexivity |].
    cbn [audioBuffer setLastProcessTime].
    destruct (ltb (bufferDuration _) _); [reflexivity |].
    destruct (ltb (calculateRMS _) _); [reflexivity |].
    rewrite createWavBlob_bytes. reflexivity.
Qed.

End LifecycleFacts.

Section LifecycleExamples.
Import Num RegExp ScoreParser Volume Wav JS Streaming Observed.



Lemma error_status_unreachable_witness :
  streamingStatus (run_events JSON_parse_fragment
                              [Start true; Tick 1000; Stop true] initial)
  <> ErrorProcessing 1.
Proof.
  exact (proj1 (proj2 (error_status_unreachable JSON_parse_fragment
                         [Start true; Tick 1000; Stop true] initial)) 1%nat).
Defined.

End LifecycleExamples.

(* ------------------------------------------------------------------ *)

Section RoundTripFacts.
Import Num RegExp ScoreParser Volume Wav JS Streaming Observed.

Variable JSON_parse : str -> option js.

Lemma count_sleeps_app (xs ys : list effect) :
  count_sleeps (xs ++ ys) = (count_sleeps xs + count_sleeps ys)%nat.
Proof. unfold count_sleeps. rewrite filter_app, length_app. reflexivity. Qed.

Lemma count_deletes_app (xs ys : list effect) :
  count_deletes (xs ++ ys) = (count_deletes xs + count_deletes ys)%nat.
Proof. unfold count_deletes. rewrite filter_app, length_app. reflexivity. Qed.

Lemma count_writes_app (xs ys : list effect) :
  count_writes (xs ++ ys) = (count_writes xs + count_writes ys)%nat.
Proof. unfold count_writes. rewrite filter_app, length_app. reflexivity. Qed.

Lemma waited_app (xs ys : list effect) :
  waited (xs ++ ys) = waited xs + waited ys.
Proof.
  induction xs as [| x xs IH]; [reflexivity |].
  cbn [app waited fold_right] in *. fold (waited (xs ++ ys)). fold (waited xs).
  rewrite IH. destruct x; lia.
Qed.

(** The polling loop entered with no result yet: every delay lasts 200
    milliseconds; the loop ends right after a poll when a poll throws
    or brings a result, and after the delay that follows its last poll
    when it runs out of turns. *)
Lemma pollLoop_delays (poll : nat -> option str) (n : nat) :
  forall i r,
    truthy r = false ->
    let calls := fst (pollLoop JSON_parse poll n i r) in
    let final := snd (pollLoop JSON_parse poll n i r) in
    waited calls = 200 * Z.of_nat (count_sleeps calls)
    /\ (count_sleeps calls <= n)%nat
    /\ match final with
       | Some result =>
           if truthy result
           then count_polls calls = S (count_sleeps calls)
           else count_polls calls = n /\ count_sleeps calls = n
       | None => count_polls calls = S (count_sleeps calls)
       end.
Proof.
  induction n as [| n IH]; intros i r Hr; cbn [pollLoop].
  - cbn [fst snd]. rewrite Hr. repeat split; reflexivity || lia.
  - destruct (poll i) as [text |]; [| cbn; repeat split; lia].
    destruct (truthy (scanLines JSON_parse (split_lines text) r)) eqn:Ht.
    + cbn [fst snd]. rewrite Ht. cbn. repeat split; lia.
    + specialize (IH (S i) _ Ht). cbv zeta in IH.
      destruct (pollLoop JSON_parse poll n (S i) _) as [calls final].
      cbn [fst snd] in *. destruct IH as (Hw & Hs & Hf).
      change (Poll :: Sleep 200 :: calls) with ([Poll; Sleep 200] ++ calls).
      rewrite waited_app, count_sleeps_app, count_polls_app, Hw.
      change (waited [Poll; Sleep 200]) with 200.
      change (count_sleeps [Poll; Sleep 200]) with 1%nat.
      change (count_polls [Poll; Sleep 200]) with 1%nat.
      split; [lia |]. split; [lia |].
      destruct final as [result |]; [destruct (truthy result) |]; lia.
Qed.

(** X9. The waiting of a round trip.  Every delay lasts 200
    milliseconds and a round trip waits 2000 milliseconds at most.  A
    round trip that ends with a result has polled once more than it
    has waited, so the result is used as soon as the poll that brings
    it returns; a round trip that runs out of turns has polled 10
    times and waited 10 times, the last delay following the last poll:
    it ends after the full 2000 milliseconds. *)
Theorem roundTrip_waits (net : Net) (chunkId : nat) :
  let calls := fst (roundTrip JSON_parse net chunkId) in
  let out := snd (roundTrip JSON_parse net chunkId) in
  waited calls = 200 * Z.of_nat (count_sleeps calls)
  /\ 0 <= waited calls <= 2000
  /\ (forall result,
         out = Handled result ->
         count_polls calls = S (count_sleeps calls)
         /\ waited calls <= 1800)
  /\ (out = NoResult ->
      count_polls calls = 10%nat /\ count_sleeps calls = 10%nat
      /\ waited calls = 2000).
Proof.
  cbv zeta. unfold roundTrip.
  destruct (write_ok net); cbn [negb];
    [| cbn; repeat split; try lia; try discriminate].
  destruct (upload_response net) as [[[] [uploadResult |]] |];
    try (cbn; repeat split; try lia; discriminate).
  destruct (index0 uploadResult) as [filePath |];
    [| cbn; repeat split; try lia; discriminate].
  destruct (predict_response net) as [[predictionResult |] |];
    try (cbn; repeat split; try lia; discriminate).
  destruct (event_id predictionResult) as [eventId |];
    [| cbn; repeat split; try lia; discriminate].
  pose proof (@pollLoop_delays (poll_response net) 10 0 JNull eq_refl) as H.
  pose proof (proj1 (pollLoop_budget JSON_parse (poll_response net) 10 0 JNull))
    as Hb.
  cbv zeta in H.
  destruct (pollLoop JSON_parse (poll_response net) 10 0 JNull) as [calls final].
  cbn [fst snd] in *. destruct H as (Hw & Hs & Hf).
  rewrite waited_app, count_sleeps_app, count_polls_app.
  change (waited [WriteFile chunkId; Upload chunkId; Predict]) with 0.
  change (count_sleeps [WriteFile chunkId; Upload chunkId; Predict]) with 0%nat.
  change (count_polls [WriteFile chunkId; Upload chunkId; Predict]) with 0%nat.
  cbn [Nat.add Z.add].
  split; [exact Hw |]. split; [lia |].
  destruct final as [result |]; [destruct (truthy result) |].
  - split; [intros r _; split; lia | discriminate].
  - split; [discriminate | intros _; lia].
  - split; discriminate.
Qed.

Lemma pollLoop_files (poll : nat -> option str) (n : nat) :
  forall i r,
    count_writes (fst (pollLoop JSON_parse poll n i r)) = 0%nat
    /\ count_deletes (fst (pollLoop JSON_parse poll n i r)) = 0%nat.
Proof.
  induction n as [| n IH]; intros i r; cbn [pollLoop]; [split; reflexivity |].
  destruct (poll i) as [text |]; [| split; reflexivity].
  destruct (truthy _); [split; reflexivity |].
  specialize (IH (S i) (scanLines JSON_parse (split_lines text) r)).
  destruct (pollLoop JSON_parse poll n (S i) _) as [calls final].
  exact IH.
Qed.

Lemma roundTrip_files (net : Net) (chunkId : nat) :
  count_writes (fst (roundTrip JSON_parse net chunkId)) = 1%nat
  /\ count_deletes (fst (roundTrip JSON_parse net chunkId)) = 0%nat.
Proof.
  unfold roundTrip.
  destruct (write_ok net); cbn [negb]; [| split; reflexivity].
  destruct (upload_response net) as [[[] [uploadResult |]] |];
    try (split; reflexivity).
  destruct (index0 uploadResult) as [filePath |]; [| split; reflexivity].
  destruct (predict_response net) as [[predictionResult |] |];
    try (split; reflexivity).
  destruct (event_id predictionResult) as [eventId |]; [| split; reflexivity].
  pose proof (pollLoop_files (poll_response net) 10 0 JNull) as [Hw Hd].
  destruct (pollLoop JSON_parse (poll_response net) 10 0 JNull) as [calls final].
  cbn [fst] in *.
  rewrite count_writes_app, count_deletes_app, Hw, Hd. split; reflexivity.
Qed.

Lemma handleStreamingResult_files (seen : Render) (result : str) (c : nat)
      (now : Z) (a : App) :
  count_writes (effects (handleStreamingResult seen result c now a))
  = count_writes (effects a)
  /\ count_deletes (effects (handleStreamingResult seen result c now a))
     = count_deletes (effects a).
Proof.
  unfold handleStreamingResult, detect.
  destruct (parseScores result) as [ai real].
  destruct (gtb ai (of_Z 30)).
  - cbn [detectionEvent setConsecutiveDetections setHistory setLastResult emit].
    destruct (render_detectionEvent seen); cbn [negb];
      cbn [effects setStreamingStatus emit setDetectionEvent
           setConsecutiveDetections setHistory setLastResult];
      rewrite !count_writes_app, !count_deletes_app; cbn; split; lia.
  - cbn [detectionEvent consecutiveDetections setHistory setLastResult emit].
    destruct (render_detectionEvent seen && (0 <? consecutiveDetections a)%nat);
      cbn [effects setStreamingStatus emit setDetectionEvent
           setConsecutiveDetections setHistory setLastResult];
      rewrite !count_writes_app, ?count_deletes_app; cbn; split; lia.
Qed.

(** X10. Every round trip writes its chunk to a temporary file, and
    deletes that file only when the polling loop came to its end and
    the result, if there is one, is a text: after a failed write,
    upload, submit or poll, and after a result that is not a text,
    nothing deletes the file. *)
Theorem temp_file_cleanup (seen : Render) (net : Net) (chunkId : nat)
        (now : Z) (a : App) :
  let a' := processAudioChunk JSON_parse seen net chunkId now a in
  let out := snd (roundTrip JSON_parse net chunkId) in
  count_writes (effects a') = S (count_writes (effects a))
  /\ count_deletes (effects a')
     = (count_deletes (effects a) + if cleans_up out then 1 else 0)%nat
  /\ (cleans_up out = false <->
      out = Caught \/ exists v, out = Handled v /\ forall s, v <> JStr s).
Proof.
  cbv zeta. unfold processAudioChunk.
  pose proof (roundTrip_files net chunkId) as [Hw Hd].
  destruct (roundTrip JSON_parse net chunkId) as [calls out].
  cbn [fst snd] in *.
  assert (Hhandle : forall result,
             count_writes (effects (handleStreamingResult seen result chunkId now
                                      (emit calls a)))
             = S (count_writes (effects a))
             /\ count_deletes (effects (handleStreamingResult seen result chunkId now
                                          (emit calls a)))
                = count_deletes (effects a)).
  { intro result.
    destruct (handleStreamingResult_files seen result chunkId now
                (emit calls a)) as [-> ->].
    cbn [effects emit]. rewrite count_writes_app, count_deletes_app, Hw, Hd.
    split; lia. }
  assert (Hcalls : count_writes (effects (emit calls a))
                   = S (count_writes (effects a))
                   /\ count_deletes (effects (emit calls a))
                      = count_deletes (effects a)).
  { cbn [effects emit]. rewrite count_writes_app, count_deletes_app, Hw, Hd.
    split; lia. }
  destruct Hcalls as [Hcw Hcd].
  split; [| split].
  - destruct out as [[| | | | result | |] | |];
      try (cbn [effects emit]; rewrite count_writes_app; fold (effects (emit calls a));
           cbn [effects emit] in Hcw; rewrite Hcw; destruct (delete_ok net); cbn; lia).
    cbn [effects emit]. rewrite count_writes_app.
    rewrite (proj1 (Hhandle result)). destruct (delete_ok net); cbn; lia.
  - destruct out as [[| | | | result | |] | |]; cbn [cleans_up];
      try (cbn [effects emit]; rewrite count_deletes_app;
           cbn [effects emit] in Hcd; rewrite Hcd; destruct (delete_ok net); cbn; lia).
    cbn [effects emit]. rewrite count_deletes_app.
    rewrite (proj2 (Hhandle result)). destruct (delete_ok net); cbn; lia.
  - split.
    + destruct out as [[| | | | result | |] | |]; cbn [cleans_up];
        try discriminate; intros _;
        try (left; reflexivity);
        right; eexists; (split; [reflexivity | discriminate]).
    + intros [-> | (v & -> & Hv)]; [reflexivity |].
      destruct v; try reflexivity. exfalso. exact (Hv _ eq_refl).
Qed.

End RoundTripFacts.

Section RoundTripExamples.
Import Num RegExp ScoreParser Volume Wav JS Streaming Observed.

Lemma roundTrip_waits_witness :
  snd (roundTrip JSON_parse_fragment (answering (lit "event: heartbeat")) 1)
  = NoResult
  /\ waited (fst (roundTrip JSON_parse_fragment
                            (answering (lit "event: heartbeat")) 1)) = 2000.
Proof.
  split; [reflexivity |].
  exact (proj2 (proj2 (proj2 (proj2 (proj2
           (@roundTrip_waits JSON_parse_fragment
              (answering (lit "event: heartbeat")) 1))) eq_refl))).
Defined.

Lemma temp_file_cleanup_witness :
  count_deletes
    (effects (processAudioChunk JSON_parse_fragment (render_of initial)
                (answering complete_response) 1 0 initial))
  = 1%nat.
Proof.
  pose proof (proj1 (proj2 (temp_file_cleanup JSON_parse_fragment
                              (render_of initial)
                              (answering complete_response) 1 0 initial))) as H.
  cbv zeta in H. rewrite complete_response_handled in H. exact H.
Defined.

End RoundTripExamples.

(* ------------------------------------------------------------------ *)

Section ScoreFacts.
Import Num RegExp ScoreParser Streaming Observed.

Lemma shr_1_nonneg (mrs : shr_record) :
  0 <= shr_m mrs -> 0 <= shr_m (shr_1 mrs).
Proof.
  destruct mrs as [m r s]. cbn [shr_m]. intro Hm.
  destruct m as [| [p | p |] | p]; cbn; lia.
Qed.

Lemma iter_shr_1_nonneg (p : positive) :
  forall mrs, 0 <= shr_m mrs -> 0 <= shr_m (iter_pos shr_1 p mrs).
Proof.
  induction p as [p IH | p IH |]; intros mrs Hm; cbn [iter_pos].
  - apply IH, IH, shr_1_nonneg, Hm.
  - apply IH, IH, Hm.
  - apply shr_1_nonneg, Hm.
Qed.

Lemma shr_fexp_nonneg (m e : Z) (l : location) :
  0 <= m -> 0 <= shr_m (fst (shr_fexp prec emax m e l)).
Proof.
  intro Hm. unfold shr_fexp, shr.
  assert (H0 : 0 <= shr_m (shr_record_of_loc m l))
    by (destruct l as [| []]; exact Hm).
  destruct (fexp prec emax (Zdigits2 m + e) - e) as [| p | p]; cbn [fst];
    [exact H0 | apply iter_shr_1_nonneg, H0 | exact H0].
Qed.

(** Rounding a mantissa that is not negative gives a zero, a positive
    number or [+Infinity]. *)
Lemma round_is_score (m e : Z) (l : location) :
  0 <= m -> is_score (binary_round_aux prec emax false m e l) = true.
Proof.
  intro Hm. unfold binary_round_aux.
  pose proof (shr_fexp_nonneg e l Hm) as H1.
  destruct (shr_fexp prec emax m e l) as [mrs1 e1]. cbn [fst] in H1.
  assert (H2 : 0 <= round_nearest_even (shr_m mrs1) (loc_of_shr_record mrs1)).
  { unfold round_nearest_even.
    destruct (loc_of_shr_record mrs1) as [| []]; try lia.
    destruct (Z.even (shr_m mrs1)); lia. }
  pose proof (shr_fexp_nonneg e1 loc_Exact H2) as H3.
  destruct (shr_fexp prec emax _ e1 loc_Exact) as [mrs2 e2]. cbn [fst] in H3.
  destruct (shr_m mrs2) as [| p | p]; [reflexivity | | lia].
  destruct (e2 <=? _); reflexivity.
Qed.

Lemma decimal_is_score (m : Z) (k : nat) : is_score (decimal m k) = true.
Proof.
  unfold decimal. destruct m as [| p | p]; try reflexivity.
  unfold SFdiv_core_binary.
  set (s := _ - _ - _).
  set (m' := match s with Zpos _ => Z.shiftl (Zpos p) s | Z0 => Zpos p | Zneg _ => 0 end).
  assert (Hm' : 0 <= m').
  { subst m'. destruct s; try lia. apply Z.shiftl_nonneg. lia. }
  assert (Hten : 0 < 10 ^ Z.of_nat k) by (apply Z.pow_pos_nonneg; lia).
  pose proof (Z.div_pos m' (10 ^ Z.of_nat k) Hm' Hten) as Hq.
  unfold Z.div in Hq.
  destruct (Z.div_eucl m' (10 ^ Z.of_nat k)) as [q r]. cbn [fst] in Hq.
  apply round_is_score, Hq.
Qed.

(** The text of a number starts with a digit, so [parseFloat] reads a
    number from it. *)
Lemma parseFloat_number_text (num : str) :
  number_text num -> is_score (parseFloat num) = true.
Proof.
  intros (d1 & dot & d2 & -> & Hne & Hd1 & _ & _).
  destruct d1 as [| c d1]; [contradiction |].
  cbn [forallb] in Hd1. apply andb_true_iff in Hd1 as [Hc _].
  unfold parseFloat. cbn [app span]. rewrite Hc.
  destruct (span is_digit (d1 ++ dot ++ d2)) as [a b].
  cbn [app]. apply decimal_is_score.
Qed.

Lemma percent_of_is_score (label : string) (result : str) :
  is_score (percent_of label result) = true.
Proof.
  unfold percent_of.
  pose proof (String_match_labelled label result) as H.
  destruct (String_match result (labelled label)) as [g1 |]; [| reflexivity].
  destruct H as (i & (pre & lab & gap & rest & _ & _ & _ & _ & Hnum) & _).
  apply parseFloat_number_text, Hnum.
Qed.

Lemma is_score_compare (x t : number) :
  is_score x = true -> is_score t = true ->
  gtb x t = negb (SFleb x t).
Proof.
  intros Hx Ht. unfold gtb, SFltb, SFleb.
  rewrite (SFcompare_antisym x t).
  destruct x as [sx | [] | | [] mx ex]; try discriminate;
    destruct t as [st | [] | | [] mt et]; try discriminate;
    cbn; try reflexivity;
    destruct (ex ?= et); cbn; try reflexivity;
    destruct (Pos.compare_cont Eq mx mt); reflexivity.
Qed.

(** X11. Both percentages are numbers that can be compared and shown,
    whatever the text: each is a zero, a positive number or
    [+Infinity], never NaN and never negative.  So the verdict is
    false exactly when the AI percentage is at most the cutoff, 30 for
    a chunk and 50 for the single request. *)
Theorem parseScores_are_numbers (result : str) (chunkId : nat) (now : Z) :
  is_score (fst (parseScores result)) = true
  /\ is_score (snd (parseScores result)) = true
  /\ isAI (resultOf result chunkId now)
     = negb (SFleb (aiPercent (resultOf result chunkId now)) (of_Z 30))
  /\ SingleRequest.isAI (SingleRequest.detectionResult result now)
     = negb (SFleb (SingleRequest.aiPercent
                      (SingleRequest.detectionResult result now)) (of_Z 50)).
Proof.
  pose proof (percent_of_is_score "AI Generated" result) as Hai.
  pose proof (percent_of_is_score "Real Voice" result) as Hreal.
  split; [exact Hai |]. split; [exact Hreal |].
  split.
  - cbn [isAI aiPercent resultOf].
    apply is_score_compare; [exact Hai | reflexivity].
  - unfold SingleRequest.detectionResult.
    change (parseScores result)
      with (percent_of "AI Generated" result, percent_of "Real Voice" result).
    cbn [SingleRequest.isAI SingleRequest.aiPercent].
    apply is_score_compare; [exact Hai | reflexivity].
Qed.

End ScoreFacts.

Section LineFacts.
Import Num RegExp JS Streaming Observed.

Lemma split_lines_cons (text : str) :
  exists line lines, split_lines text = line :: lines.
Proof.
  induction text as [| c text IH]; cbn [split_lines]; [eauto |].
  destruct (Ascii.eqb c "010"%char); [eauto |].
  destruct IH as (line & lines & ->). eauto.
Qed.

Lemma join_lines_cons (line : str) (lines : list str) :
  lines <> [] ->
  join_lines (line :: lines) = line ++ newline :: join_lines lines.
Proof. destruct lines; [contradiction | reflexivity]. Qed.

Lemma join_lines_head (c : ascii) (line : str) (lines : list str) :
  join_lines ((c :: line) :: lines) = c :: join_lines (line :: lines).
Proof. destruct lines; reflexivity. Qed.

(** X12. Splitting a response into lines loses nothing and invents
    nothing: there is always at least one line, no line holds a line
    feed, the lines joined by line feeds are the response, and a
    sequence of lines without line feeds, joined and split again, is
    that sequence. *)
Theorem split_lines_join (text : str) :
  split_lines text <> []
  /\ forallb no_newline (split_lines text) = true
  /\ join_lines (split_lines text) = text
  /\ (forall lines,
         lines <> [] -> forallb no_newline lines = true ->
         split_lines (join_lines lines) = lines).
Proof.
  split; [| split; [| split]].
  - destruct (split_lines_cons text) as (line & lines & ->). discriminate.
  - induction text as [| c text IH]; [reflexivity |].
    cbn [split_lines].
    destruct (Ascii.eqb c "010"%char) eqn:Ec; [exact IH |].
    destruct (split_lines text) as [| line lines]; [cbn; unfold newline; rewrite Ec; reflexivity |].
    cbn [forallb no_newline] in *. unfold newline at 1. rewrite Ec. exact IH.
  - induction text as [| c text IH]; [reflexivity |].
    cbn [split_lines].
    destruct (Ascii.eqb_spec c "010"%char) as [-> | Hc].
    + rewrite join_lines_cons, IH; [reflexivity |].
      destruct (split_lines_cons text) as (line & lines & ->). discriminate.
    + destruct (split_lines_cons text) as (line & lines & E).
      rewrite E in *. rewrite join_lines_head, IH. reflexivity.
  - intros lines. induction lines as [| line lines IH]; [contradiction |].
    intros _ Hall. cbn [forallb] in Hall.
    apply andb_true_iff in Hall as [Hline Hrest].
    destruct lines as [| line' lines'].
    + clear IH Hrest. cbn [join_lines].
      induction line as [| c line IHl]; [reflexivity |].
      cbn [no_newline forallb] in Hline.
      apply andb_true_iff in Hline as [Hc Hl].
      cbn [split_lines]. unfold newline in Hc.
      destruct (Ascii.eqb c "010"%char); [discriminate |].
      rewrite (IHl Hl). reflexivity.
    + specialize (IH ltac:(discriminate) Hrest).
      rewrite join_lines_cons by discriminate.
      induction line as [| c line IHl].
      * cbn [app split_lines]. unfold newline.
        rewrite Ascii.eqb_refl. fold newline. rewrite IH. reflexivity.
      * cbn [no_newline forallb] in Hline.
        apply andb_true_iff in Hline as [Hc Hl].
        cbn [app split_lines]. unfold newline in Hc.
        destruct (Ascii.eqb c "010"%char); [discriminate |].
        rewrite (IHl Hl). reflexivity.
Qed.

Lemma split_lines_join_witness :
  split_lines (join_lines [lit "event: complete"; lit "data: [1]"; []])
  = [lit "event: complete"; lit "data: [1]"; []].
Proof.
  apply (proj2 (proj2 (proj2 (split_lines_join [])))); [discriminate | reflexivity].
Defined.

End LineFacts.

(* ------------------------------------------------------------------ *)

Section CaseFacts.
Import Num RegExp ScoreParser Observed.

(** A character is its own canonical form, or its canonical form is
    a letter. *)
Lemma canonicalize_letter (c : ascii) :
  canonicalize c = c \/ is_letter (canonicalize c) = true.
Proof.
  unfold canonicalize.
  destruct ((97 <=? nat_of_ascii c)%nat && (nat_of_ascii c <=? 122)%nat) eqn:E;
    [| left; reflexivity].
  right. apply andb_true_iff in E as [H1 H2].
  apply Nat.leb_le in H1, H2.
  unfold is_letter. rewrite nat_ascii_embedding by lia.
  replace (65 <=? nat_of_ascii c - 32)%nat with true
    by (symmetry; apply Nat.leb_le; lia).
  replace (nat_of_ascii c - 32 <=? 90)%nat with true
    by (symmetry; apply Nat.leb_le; lia).
  reflexivity.
Qed.

Lemma same_canonical (c1 c2 : ascii) :
  is_letter c1 = false -> canonicalize c2 = canonicalize c1 -> c2 = c1.
Proof.
  intros Hc1 H.
  destruct (canonicalize_letter c1) as [E1 | E1]; [| ].
  - rewrite E1 in H.
    destruct (canonicalize_letter c2) as [E2 | E2]; [congruence |].
    rewrite H in E2. congruence.
  - unfold canonicalize in E1.
    destruct ((97 <=? nat_of_ascii c1)%nat && (nat_of_ascii c1 <=? 122)%nat) eqn:E.
    + unfold is_letter in Hc1. rewrite E in Hc1.
      rewrite orb_true_r in Hc1. discriminate.
    + congruence.
Qed.

Lemma same_text (s1 s2 : str) :
  forallb (fun c => negb (is_letter c)) s1 = true ->
  same_letters s2 s1 -> s2 = s1.
Proof.
  unfold same_letters. revert s2.
  induction s1 as [| c1 s1 IH]; intros [| c2 s2] Hs H; try discriminate;
    [reflexivity |].
  cbn [map] in H. injection H as Hc Hrest.
  cbn [forallb] in Hs. apply andb_true_iff in Hs as [Hc1 Hs1].
  apply negb_true_iff in Hc1.
  f_equal; [apply same_canonical; assumption | apply IH; assumption].
Qed.

Lemma digit_not_letter (c : ascii) : is_digit c = true -> is_letter c = false.
Proof.
  unfold is_digit, is_letter. intro H.
  apply andb_true_iff in H as [H1 H2]. apply Nat.leb_le in H1, H2.
  replace (nat_of_ascii c <=? 90)%nat with true
    by (symmetry; apply Nat.leb_le; lia).
  replace (65 <=? nat_of_ascii c)%nat with false
    by (symmetry; apply Nat.leb_gt; lia).
  replace (97 <=? nat_of_ascii c)%nat with false
    by (symmetry; apply Nat.leb_gt; lia).
  reflexivity.
Qed.

Lemma digits_not_letters (ds : str) :
  forallb is_digit ds = true ->
  forallb (fun c => negb (is_letter c)) ds = true.
Proof.
  induction ds as [| c ds IH]; intro H; [reflexivity |].
  cbn [forallb] in *. apply andb_true_iff in H as [Hc Hds].
  rewrite (digit_not_letter _ Hc), (IH Hds). reflexivity.
Qed.

Lemma number_text_no_letter (num : str) :
  number_text num -> forallb (fun c => negb (is_letter c)) num = true.
Proof.
  intros (d1 & dot & d2 & -> & _ & Hd1 & Hdot & Hd2).
  rewrite !forallb_app, (digits_not_letters _ Hd1), (digits_not_letters _ Hd2).
  destruct Hdot as [-> | ->]; reflexivity.
Qed.

Lemma is_digit_canonical (c1 c2 : ascii) :
  canonicalize c2 = canonicalize c1 -> is_digit c2 = is_digit c1.
Proof.
  intro H.
  destruct (is_digit c1) eqn:E1.
  - rewrite (same_canonical c1 c2 (digit_not_letter _ E1) H). exact E1.
  - destruct (is_digit c2) eqn:E2; [| reflexivity].
    rewrite (same_canonical c2 c1 (digit_not_letter _ E2) (eq_sym H)) in E1.
    congruence.
Qed.

Lemma gap_canonical (g1 g2 : str) :
  same_letters g2 g1 ->
  forallb (fun c => negb (is_digit c)) g1 = true ->
  forallb (fun c => negb (is_digit c)) g2 = true.
Proof.
  unfold same_letters. revert g2.
  induction g1 as [| c1 g1 IH]; intros [| c2 g2] H Hg; try discriminate;
    [reflexivity |].
  cbn [map] in H. injection H as Hc Hrest.
  cbn [forallb] in *. apply andb_true_iff in Hg as [Hc1 Hg1].
  rewrite (is_digit_canonical _ _ Hc), Hc1, (IH _ Hrest Hg1). reflexivity.
Qed.

(** An occurrence of the pattern is kept, at the same place and with
    the same number, when letters change case. *)
Lemma occurs_at_canonical (label : string) (s1 s2 : str) (i : nat) (num : str) :
  same_letters s2 s1 -> occurs_at label s1 i num -> occurs_at label s2 i num.
Proof.
  intros Hsame (pre & lab & gap & rest & -> & Hi & Hlab & Hgap & Hnum).
  unfold same_letters in Hsame. rewrite !map_app in Hsame.
  apply map_eq_app in Hsame as (pre2 & t2 & -> & Hpre & Hsame).
  apply map_eq_app in Hsame as (lab2 & t3 & -> & Hlab2 & Hsame).
  apply map_eq_app in Hsame as (gap2 & t4 & -> & Hgap2 & Hsame).
  apply map_eq_app in Hsame as (num2 & t5 & -> & Hnum2 & Hsame).
  cbn [map] in Hsame.
  apply map_eq_cons in Hsame as (p2 & rest2 & -> & Hp & _).
  assert (p2 = "%"%char) as -> by (apply same_canonical; [reflexivity | exact Hp]).
  assert (num2 = num) as ->
    by (apply same_text; [apply number_text_no_letter, Hnum | exact Hnum2]).
  exists pre2, lab2, gap2, rest2.
  split; [reflexivity |].
  split; [rewrite <- Hi, <- (length_map canonicalize pre2), Hpre; apply length_map |].
  split; [unfold same_letters in *; congruence |].
  split; [apply (gap_canonical Hgap2 Hgap) | exact Hnum].
Qed.

Lemma percent_of_canonical (label : string) (s1 s2 : str) :
  same_letters s1 s2 -> percent_of label s1 = percent_of label s2.
Proof.
  intro Hsame.
  assert (Hsym : same_letters s2 s1) by (unfold same_letters in *; congruence).
  destruct (percent_of_spec label s1) as (Hfirst1 & Hnone1 & [(i & num & Hf) | Hno]).
  - rewrite (Hfirst1 i num Hf).
    destruct (percent_of_spec label s2) as (Hfirst2 & _ & _).
    symmetry. apply (Hfirst2 i num).
    destruct Hf as [Hocc Hmin]. split.
    + apply (occurs_at_canonical Hsym Hocc).
    + intros j num' Hj Hocc'. apply (Hmin j num' Hj).
      apply (occurs_at_canonical Hsame Hocc').
  - rewrite (Hnone1 Hno).
    destruct (percent_of_spec label s2) as (_ & Hnone2 & _).
    symmetry. apply Hnone2.
    intros i num Hocc. apply (Hno i num).
    apply (occurs_at_canonical Hsame Hocc).
Qed.

(** X13. The score parser does not see the case of letters: two texts
    that differ only in the case of their letters give the same two
    percentages, so the same verdict. *)
Theorem parseScores_ignores_case (s1 s2 : str) :
  same_letters s1 s2 -> parseScores s1 = parseScores s2.
Proof.
  intro H.
  change (parseScores s1)
    with (percent_of "AI Generated" s1, percent_of "Real Voice" s1).
  change (parseScores s2)
    with (percent_of "AI Generated" s2, percent_of "Real Voice" s2).
  rewrite (percent_of_canonical "AI Generated" H).
  rewrite (percent_of_canonical "Real Voice" H). reflexivity.
Qed.

Lemma parseScores_ignores_case_witness :
  parseScores (lit "ai generated: 82.5% | REAL VOICE: 17.5%")
  = parseScores (lit "AI Generated: 82.5% | Real Voice: 17.5%").
Proof. apply parseScores_ignores_case. reflexivity. Defined.

End CaseFacts.

(* ------------------------------------------------------------------ *)

Section DefaultFacts.
Import Num RegExp ScoreParser Streaming.

Lemma occurs_at_percent (label : string) (s : str) (i : nat) (num : str) :
  occurs_at label s i num -> forallb not_percent s = false.
Proof.
  intros (pre & lab & gap & rest & -> & _).
  rewrite !forallb_app.
  change (forallb not_percent ("%"%char :: rest)) with false.
  rewrite !andb_false_r. reflexivity.
Qed.

Lemma occurs_at_digit (label : string) (s : str) (i : nat) (num : str) :
  occurs_at label s i num ->
  forallb (fun c => negb (is_digit c)) s = false.
Proof.
  intros (pre & lab & gap & rest & -> & _ & _ & _ & Hnum).
  destruct (number_text_shape Hnum) as (_ & c & t & -> & Hc).
  rewrite !forallb_app. cbn [forallb app]. rewrite Hc. cbn [negb andb].
  rewrite !andb_false_r. reflexivity.
Qed.

Lemma parseScores_percent_of (result : str) :
  parseScores result
  = (percent_of "AI Generated" result, percent_of "Real Voice" result).
Proof. reflexivity. Qed.

(** X14. A text that holds no percent sign, or no digit, gives both
    percentages 0, and so does the empty text; with an AI percentage
    of 0 the verdict is false in both flows. *)
Theorem parseScores_defaults (result : str) (chunkId : nat) (now : Z) :
  (forallb not_percent result = true -> parseScores result = (zero, zero))
  /\ (forallb (fun c => negb (is_digit c)) result = true ->
      parseScores result = (zero, zero))
  /\ parseScores [] = (zero, zero)
  /\ (fst (parseScores result) = zero ->
      isAI (resultOf result chunkId now) = false
      /\ SingleRequest.isAI (SingleRequest.detectionResult result now) = false).
Proof.
  rewrite parseScores_percent_of.
  split; [| split; [| split]].
  - intro H.
    assert (Hno : forall label, no_occurrence label result).
    { intros label i num Hocc. apply occurs_at_percent in Hocc. congruence. }
    rewrite (proj1 (proj2 (percent_of_spec "AI Generated" result)) (Hno _)).
    rewrite (proj1 (proj2 (percent_of_spec "Real Voice" result)) (Hno _)).
    reflexivity.
  - intro H.
    assert (Hno : forall label, no_occurrence label result).
    { intros label i num Hocc. apply occurs_at_digit in Hocc. congruence. }
    rewrite (proj1 (proj2 (percent_of_spec "AI Generated" result)) (Hno _)).
    rewrite (proj1 (proj2 (percent_of_spec "Real Voice" result)) (Hno _)).
    reflexivity.
  - reflexivity.
  - cbn [fst]. intro H. split.
    + cbn [isAI resultOf]. rewrite parseScores_percent_of. cbn [fst].
      rewrite H. reflexivity.
    + unfold SingleRequest.detectionResult. rewrite parseScores_percent_of.
      cbn [SingleRequest.isAI]. rewrite H. reflexivity.
Qed.

Lemma parseScores_defaults_witness :
  parseScores (lit "AI Generated: 82.5 percent") = (zero, zero)
  /\ parseScores (lit "AI Generated: high%") = (zero, zero).
Proof.
  split.
  - exact (proj1 (parseScores_defaults (lit "AI Generated: 82.5 percent") 0 0)
             eq_refl).
  - exact (proj1 (proj2 (parseScores_defaults (lit "AI Generated: high%") 0 0))
             eq_refl).
Defined.

End DefaultFacts.

Section LedgerFacts.
Import Num SingleRequest.

(** X15. The history of the single-request flow holds the ten most
    recent verdicts, the most recent first: a push puts the new
    verdict in front and keeps the nine that follow it, and after any
    sequence of pushes on a history of at most ten verdicts the
    history is the first ten of the pushed verdicts, last pushed
    first, followed by the old ones. *)
Theorem pushHistory_recent (prev : list DetectionResult) :
  (forall d, pushHistory d prev = d :: firstn 9 prev)
  /\ (forall ds,
         (List.length prev <= 10)%nat ->
         fold_left (fun h d => pushHistory d h) ds prev
         = firstn 10 (rev ds ++ prev)).
Proof.
  split; [intro d; reflexivity |].
  intro ds. revert prev.
  induction ds as [| d ds IH]; intros prev Hlen.
  - cbn [fold_left rev app]. symmetry. apply firstn_all2. exact Hlen.
  - cbn [fold_left rev]. rewrite IH by (unfold pushHistory; apply firstn_le_length).
    rewrite <- app_assoc. cbn [app].
    unfold pushHistory.
    rewrite !firstn_app. f_equal.
    rewrite firstn_firstn. f_equal. lia.
Qed.

Lemma pushHistory_recent_witness :
  fold_left (fun h d => pushHistory d h)
            [detectionResult (RegExp.lit "AI Generated: 90%") 1;
             detectionResult (RegExp.lit "AI Generated: 10%") 2] []
  = [detectionResult (RegExp.lit "AI Generated: 10%") 2;
     detectionResult (RegExp.lit "AI Generated: 90%") 1].
Proof.
  rewrite (proj2 (pushHistory_recent [])) by (cbn; lia). reflexivity.
Defined.

End LedgerFacts.

Section StopFacts.
Import Num Streaming.

(** X16. [stopRecording] of the streaming component does nothing
    unless a session is being recorded, so stopping twice is stopping
    once.  When it acts it leaves the results, the chunk counter, the
    buffer and the round trips in flight as they are, and emits
    nothing. *)
Theorem stopRecording_once (release_ok : bool) (a : App) :
  (isRecording a = false -> stopRecording release_ok a = a)
  /\ (forall again,
         stopRecording again (stopRecording release_ok a)
         = stopRecording release_ok a)
  /\ verdicts (stopRecording release_ok a) = verdicts a
  /\ chunkCount (stopRecording release_ok a) = chunkCount a
  /\ audioBuffer (stopRecording release_ok a) = audioBuffer a
  /\ inflight (stopRecording release_ok a) = inflight a
  /\ effects (stopRecording release_ok a) = effects a.
Proof.
  unfold stopRecording.
  destruct (isRecording a) eqn:Hrec; cbn [negb].
  - split; [discriminate |].
    split.
    + intro again.
      destruct (streamingInterval _), release_ok; reflexivity.
    + destruct (streamingInterval _), release_ok; repeat split.
  - split; [reflexivity |].
    split; [intro again; rewrite Hrec; reflexivity | repeat split].
Qed.

Lemma stopRecording_once_witness :
  stopRecording true initial = initial.
Proof. exact (proj1 (stopRecording_once true initial) eq_refl). Defined.

End StopFacts.

(* ------------------------------------------------------------------ *)

Section TimerFacts.
Import Num Recorder.

Lemma tick_stopped (t : Timer) : running t = false -> tick t = t.
Proof. intro H. unfold tick. rewrite H. reflexivity. Qed.

Lemma ticks_S (n : nat) (t : Timer) : ticks (S n) t = tick (ticks n t).
Proof. reflexivity. Qed.

Lemma ticks_stopped (n : nat) (t : Timer) :
  running t = false -> ticks n t = t.
Proof.
  intro H. induction n as [| n IH]; [reflexivity |].
  rewrite ticks_S, IH. apply tick_stopped, H.
Qed.

Lemma ticks_add (n k : nat) (t : Timer) :
  ticks (n + k) t = ticks n (ticks k t).
Proof.
  induction n as [| n IH]; [reflexivity |].
  cbn [Nat.add]. rewrite !ticks_S, IH. reflexivity.
Qed.

(** The timer counted firing by firing: thirty additions of 1/30
    give a number below 1, so the callback fires [stopRecording] at
    the 31st firing. *)
Lemma timer_counts :
  (forall n, (n <= 30)%nat ->
             running (ticks n started) = true
             /\ stops (ticks n started) = 0%nat
             /\ ltb (progress (ticks n started)) (of_Z 1) = true
             /\ shownSeconds (progress (ticks n started)) = Z.of_nat n)
  /\ running (ticks 31 started) = false
  /\ stops (ticks 31 started) = 1%nat
  /\ progress (ticks 31 started) = of_Z 1
  /\ shownSeconds (progress (ticks 31 started)) = 30
  /\ (forall n, (31 <= n)%nat -> ticks n started = ticks 31 started)
  /\ (forall prev, ltb (of_Z 1) (fst (progressUpdater prev)) = false).
Proof.
  split.
  { intros n Hn.
    do 31 (destruct n as [| n]; [vm_compute; repeat split; reflexivity |]).
    lia. }
  split; [vm_compute; reflexivity |].
  split; [vm_compute; reflexivity |].
  split; [vm_compute; reflexivity |].
  split; [vm_compute; reflexivity |].
  split.
  - intros n Hn. replace n with ((n - 31) + 31)%nat by lia.
    rewrite ticks_add. apply ticks_stopped. vm_compute. reflexivity.
  - intro prev. unfold progressUpdater. cbn [fst].
    set (p := add prev (div (of_Z 1) (of_Z 30))).
    destruct p as [s | s | | s m e]; try reflexivity.
    + destruct s; reflexivity.
    + change (Math_min (S754_finite s m e) (of_Z 1))
        with (if ltb (of_Z 1) (S754_finite s m e)
              then of_Z 1 else S754_finite s m e).
      destruct (ltb (of_Z 1) (S754_finite s m e)) eqn:E; [reflexivity | exact E].
Qed.

End TimerFacts.

Section RequestFacts.
Import Num RegExp ScoreParser JS SingleRequest Recorder.

Variable JSON_parse : str -> option js.

Lemma count_app (p : effect -> bool) (xs ys : list effect) :
  count p (xs ++ ys) = (count p xs + count p ys)%nat.
Proof. unfold count. rewrite filter_app, length_app. reflexivity. Qed.

Lemma request_waited_app (xs ys : list effect) :
  waited (xs ++ ys) = waited xs + waited ys.
Proof.
  induction xs as [| x xs IH]; [reflexivity |].
  cbn [app waited fold_right] in *. fold (waited (xs ++ ys)). fold (waited xs).
  rewrite IH. destruct x; lia.
Qed.

(** The polling loop entered with no result yet. *)
Lemma pollResult_shape (eventId : js) (poll : nat -> option str) (n : nat) :
  forall i r,
    truthy r = false ->
    let calls := fst (pollResult JSON_parse eventId poll n i r) in
    let final := snd (pollResult JSON_parse eventId poll n i r) in
    (count is_poll calls <= n)%nat
    /\ count is_upload calls = 0%nat
    /\ count is_notification calls = 0%nat
    /\ count is_delete calls = 0%nat
    /\ 0 <= waited calls
    /\ match final with
       | Some result =>
           if truthy result
           then waited calls + 1000 = 1000 * Z.of_nat (count is_poll calls)
           else count is_poll calls = n /\ waited calls = 1000 * Z.of_nat n
       | None => waited calls + 1000 = 1000 * Z.of_nat (count is_poll calls)
       end.
Proof.
  induction n as [| n IH]; intros i r Hr; cbn [pollResult].
  - cbn [fst snd]. rewrite Hr. cbn. repeat split; lia.
  - destruct (poll i) as [text |]; [| cbn; repeat split; lia].
    destruct (truthy (Streaming.scanLines JSON_parse (split_lines text) r)) eqn:Ht.
    + cbn [fst snd]. rewrite Ht. cbn. repeat split; lia.
    + specialize (IH (S i) _ Ht). cbv zeta in IH.
      destruct (pollResult JSON_parse eventId poll n (S i) _) as [calls final].
      cbn [fst snd] in *. destruct IH as (Hp & Hu & Hn & Hd & Hw & Hf).
      change (Poll eventId :: Sleep 1000 :: calls)
        with ([Poll eventId; Sleep 1000] ++ calls).
      rewrite request_waited_app, !count_app, Hu, Hn, Hd.
      change (waited [Poll eventId; Sleep 1000]) with 1000.
      change (count is_poll [Poll eventId; Sleep 1000]) with 1%nat.
      repeat (split; [cbn; lia |]).
      destruct final as [result |]; [destruct (truthy result) |]; lia.
Qed.

Lemma request_shape (env : Env) (net : Net) (audioPath : str) :
  let calls := fst (request JSON_parse env net audioPath) in
  let final := snd (request JSON_parse env net audioPath) in
  hd_error calls = Some (formPart env audioPath)
  /\ count is_upload calls = 1%nat
  /\ (count is_poll calls <= 30)%nat
  /\ 0 <= waited calls <= 30000
  /\ (forall text, resultText final = Some text ->
                   waited calls + 1000 = 1000 * Z.of_nat (count is_poll calls))
  /\ (forall result, final = Some result -> truthy result = false ->
                     count is_poll calls = 30%nat /\ waited calls = 30000)
  /\ count is_notification calls = 0%nat
  /\ count is_delete calls = 0%nat.
Proof.
  cbv zeta. unfold request.
  assert (Hup : count is_upload [formPart env audioPath] = 1%nat)
    by (unfold formPart; destruct (isDevelopment env); reflexivity).
  assert (Hno : count is_notification [formPart env audioPath] = 0%nat
                /\ count is_delete [formPart env audioPath] = 0%nat
                /\ count is_poll [formPart env audioPath] = 0%nat
                /\ waited [formPart env audioPath] = 0)
    by (unfold formPart; destruct (isDevelopment env); repeat split).
  destruct Hno as (Hn & Hd & Hp & Hw).
  assert (Hshort : forall filePath,
             count is_upload [formPart env audioPath; Predict filePath] = 1%nat
             /\ count is_notification [formPart env audioPath; Predict filePath]
                = 0%nat
             /\ count is_delete [formPart env audioPath; Predict filePath] = 0%nat
             /\ count is_poll [formPart env audioPath; Predict filePath] = 0%nat
             /\ waited [formPart env audioPath; Predict filePath] = 0).
  { intro filePath.
    change [formPart env audioPath; Predict filePath]
      with ([formPart env audioPath] ++ [Predict filePath]).
    rewrite !count_app, request_waited_app, Hup, Hn, Hd, Hp, Hw. repeat split. }
  destruct (upload_response net) as [[[] [uploadResult |]] |];
    try (cbn [fst snd hd_error resultText]; rewrite Hup, Hn, Hd, Hp, Hw;
         repeat split; try lia; discriminate).
  destruct (index0 uploadResult) as [filePath |];
    [| cbn [fst snd hd_error resultText]; rewrite Hup, Hn, Hd, Hp, Hw;
       repeat split; try lia; discriminate].
  destruct (Hshort filePath) as (Hup2 & Hn2 & Hd2 & Hp2 & Hw2).
  destruct (predict_response net) as [[predictionResult |] |];
    try (cbn [fst snd hd_error resultText]; rewrite Hup2, Hn2, Hd2, Hp2, Hw2;
         repeat split; try lia; discriminate).
  destruct (event_id predictionResult) as [eventId |];
    [| cbn [fst snd hd_error resultText]; rewrite Hup2, Hn2, Hd2, Hp2, Hw2;
       repeat split; try lia; discriminate].
  pose proof (@pollResult_shape eventId (poll_response net) 30 0 JNull eq_refl)
    as H.
  cbv zeta in H.
  destruct (pollResult JSON_parse eventId (poll_response net) 30 0 JNull)
    as [calls final].
  cbn [fst snd] in *. destruct H as (Hpc & Huc & Hnc & Hdc & Hwc & Hf).
  rewrite request_waited_app, !count_app, Hup2, Hn2, Hd2, Hp2, Hw2, Huc, Hnc, Hdc.
  cbn [Nat.add Z.add].
  split; [reflexivity |]. split; [reflexivity |]. split; [exact Hpc |].
  assert (Hmax : waited calls <= 30000).
  { destruct final as [result |]; [destruct (truthy result) |]; lia. }
  split; [lia |].
  split.
  { intros text Ht. destruct final as [[| | | | [| c t] | |] |];
      try discriminate. exact Hf. }
  split.
  { intros result Hr Hfalse. subst final. rewrite Hfalse in Hf.
    destruct Hf as [-> ->]. split; reflexivity. }
  split; reflexivity.
Qed.

Lemma processAudio_cells (env : Env) (net : Net) (audioPath : str)
        (now : Z) (a : App) :
  let a' := processAudio JSON_parse env net audioPath now a in
  isProcessing a' = false
  /\ isRecording a' = isRecording a
  /\ devRecording a' = devRecording a
  /\ match resultText (snd (request JSON_parse env net audioPath)) with
     | Some text =>
         lastResult a' = Some (detectionResult text now)
         /\ history a' = pushHistory (detectionResult text now) (history a)
     | None => lastResult a' = lastResult a /\ history a' = history a
     end.
Proof.
  cbv zeta. unfold processAudio.
  destruct (request JSON_parse env net audioPath) as [calls final].
  cbn [snd].
  destruct final as [[| | [] | n | [| c text] | items | fields] |];
    cbn [truthy resultText]; try (repeat split; reflexivity).
  - destruct n as [s | s | | s m e]; repeat split; reflexivity.
  - destruct (isAI (detectionResult (c :: text) now));
      [destruct (notify_ok net) |]; repeat split; reflexivity.
Qed.

Lemma processAudio_log (env : Env) (net : Net) (audioPath : str)
        (now : Z) (a : App) :
  let a' := processAudio JSON_parse env net audioPath now a in
  let final := snd (request JSON_parse env net audioPath) in
  let failed :=
    match final with
    | None => true
    | Some (JStr (c :: text)) =>
        isAI (detectionResult (c :: text) now) && negb (notify_ok net)
    | Some result => truthy result
    end in
  count is_notification (effects a')
  = (count is_notification (effects a)
     + match resultText final with
       | Some text => if isAI (detectionResult text now) then 1 else 0
       | None => 0
       end)%nat
  /\ effects a'
     = effects a ++ fst (request JSON_parse env net audioPath)
       ++ match resultText final with
          | Some text =>
              if isAI (detectionResult text now)
              then [Notification (aiPercent (detectionResult text now))]
              else []
          | None => []
          end
       ++ (if failed
           then [LogError "Processing error:";
                 Alert "Error" "Failed to process audio"]
           else [DeleteFile audioPath]).
Proof.
  cbv zeta.
  pose proof (request_shape env net audioPath) as Hb. cbv zeta in Hb.
  destruct Hb as (_ & _ & _ & _ & _ & _ & Hn & _).
  unfold processAudio.
  destruct (request JSON_parse env net audioPath) as [calls final].
  cbn [fst snd] in *.
  assert (Heff : forall tail,
             count is_notification ((effects a ++ calls) ++ tail)
             = (count is_notification (effects a) + count is_notification tail)%nat)
    by (intro tail; rewrite !count_app, Hn; lia).
  destruct final as [[| | [] | n | [| c text] | items | fields] |];
    cbn [truthy resultText];
    try (cbn [effects emit setIsProcessing processingFailed];
         rewrite ?Heff, <- ?app_assoc; cbn; split; [lia | reflexivity]).
  - destruct n as [s | s | | s m e];
      cbn [effects emit setIsProcessing processingFailed];
      rewrite ?Heff, <- ?app_assoc; cbn; split; lia || reflexivity.
  - generalize (detectionResult (c :: text) now). intro d.
    destruct (isAI d); [destruct (notify_ok net) |];
      cbn [effects emit setIsProcessing processingFailed setHistory setLastResult
           andb negb];
      rewrite <- ?app_assoc; (split; [| reflexivity]);
      rewrite !count_app, Hn; cbn; lia.
Qed.

(** X18. The request of [App.tsx] uploads once, as its first call,
    polls 30 times at most and waits one second after every poll that
    brings nothing: 30000 milliseconds at most, and exactly that when
    it runs out of turns.  A result text is used as soon as the poll
    that brings it returns.  The request itself schedules no
    notification and deletes no file. *)
Theorem request_budget (env : Env) (net : Net) (audioPath : str) :
  let calls := fst (request JSON_parse env net audioPath) in
  let final := snd (request JSON_parse env net audioPath) in
  hd_error calls = Some (formPart env audioPath)
  /\ count is_upload calls = 1%nat
  /\ (count is_poll calls <= 30)%nat
  /\ 0 <= waited calls <= 30000
  /\ (forall text, resultText final = Some text ->
                   waited calls + 1000 = 1000 * Z.of_nat (count is_poll calls))
  /\ (forall result, final = Some result -> truthy result = false ->
                     count is_poll calls = 30%nat /\ waited calls = 30000)
  /\ count is_notification calls = 0%nat
  /\ count is_delete calls = 0%nat.
Proof. apply request_shape. Qed.

(** X19. [processAudio] always ends with [isProcessing] false, and
    touches neither the recording flag nor the recording.  It stores
    a verdict exactly when the request ends with a text that is not
    empty: the verdict read from that text becomes [lastResult] and
    is pushed on the history; in every other case (a failed call, no
    result after the last poll, a result that is not a text) both are
    left as they were. *)
Theorem processAudio_settles (env : Env) (net : Net) (audioPath : str)
        (now : Z) (a : App) :
  let a' := processAudio JSON_parse env net audioPath now a in
  isProcessing a' = false
  /\ isRecording a' = isRecording a
  /\ devRecording a' = devRecording a
  /\ match resultText (snd (request JSON_parse env net audioPath)) with
     | Some text =>
         lastResult a' = Some (detectionResult text now)
         /\ history a' = pushHistory (detectionResult text now) (history a)
     | None => lastResult a' = lastResult a /\ history a' = history a
     end.
Proof. apply processAudio_cells. Qed.

(** X20. What [processAudio] does besides the request.  It schedules
    a notification exactly when it stores a verdict whose AI
    percentage is above 50, one for every such verdict.  It deletes
    the recording, as its last step, when the request ends with no
    result or a falsy one, and when a verdict is stored and the
    notification, if any, could be scheduled; in every other case (a
    call that failed, a truthy result that is not a text, a
    notification that could not be scheduled) it logs the error and
    shows its alert, and the recording is not deleted. *)
Theorem processAudio_effects (env : Env) (net : Net) (audioPath : str)
        (now : Z) (a : App) :
  let a' := processAudio JSON_parse env net audioPath now a in
  let final := snd (request JSON_parse env net audioPath) in
  let failed :=
    match final with
    | None => true
    | Some (JStr (c :: text)) =>
        isAI (detectionResult (c :: text) now) && negb (notify_ok net)
    | Some result => truthy result
    end in
  count is_notification (effects a')
  = (count is_notification (effects a)
     + match resultText final with
       | Some text => if isAI (detectionResult text now) then 1 else 0
       | None => 0
       end)%nat
  /\ effects a'
     = effects a ++ fst (request JSON_parse env net audioPath)
       ++ match resultText final with
          | Some text =>
              if isAI (detectionResult text now)
              then [Notification (aiPercent (detectionResult text now))]
              else []
          | None => []
          end
       ++ (if failed
           then [LogError "Processing error:";
                 Alert "Error" "Failed to process audio"]
           else [DeleteFile audioPath]).
Proof. apply processAudio_log. Qed.

Lemma processAudio_uploads (env : Env) (net : Net) (audioPath : str)
      (now : Z) (a : App) :
  count is_upload (effects (processAudio JSON_parse env net audioPath now a))
  = S (count is_upload (effects a)).
Proof.
  destruct (processAudio_log env net audioPath now a) as [_ ->].
  destruct (request_shape env net audioPath) as (_ & Hu & _).
  rewrite !count_app, Hu.
  destruct (resultText _) as [text |];
    [destruct (isAI _) |];
    match goal with
    | |- context [if ?b then _ else _] => destruct b
    end; cbn; lia.
Qed.

(** [stopRecording] of a render, case by case: the cases in which it
    reaches [processAudio] and those in which it ends in its [catch]
    block. *)
Lemma stopRecordingOf_cases (held : option Recording) (env : Env)
      (cap : Capture) (net : Net) (now : Z) (a : App) :
  let a' := stopRecordingOf JSON_parse held env cap net now a in
  (isDevelopment env = true ->
   forall r c uri,
     held = Some r -> unload_ok cap = true -> getURI r = Some (c :: uri) ->
     a' = processAudio JSON_parse env net (c :: uri) now
            (setIsProcessing true
               (setDevRecording None
                  (emit [StopAndUnload] (setIsRecording false a)))))
  /\ (isDevelopment env = true -> held = None ->
      a' = stopFailed (setIsRecording false a))
  /\ (isDevelopment env = true ->
      forall r,
        held = Some r ->
        unload_ok cap = false \/ getURI r = None \/ getURI r = Some [] ->
        a' = stopFailed (emit [StopAndUnload] (setIsRecording false a)))
  /\ (isDevelopment env = false ->
      forall path,
        videoPath cap = Some path ->
        a' = processAudio JSON_parse env net path now
               (setIsProcessing true
                  (emit [StopScreenRecorder] (setIsRecording false a))))
  /\ (isDevelopment env = false -> videoPath cap = None ->
      a' = stopFailed (emit [StopScreenRecorder] (setIsRecording false a))).
Proof.
  cbv zeta. unfold stopRecordingOf.
  split; [| split; [| split; [| split]]].
  - intros -> r c uri -> -> ->. reflexivity.
  - intros -> ->. reflexivity.
  - intros -> r -> [-> | [Hu | Hu]]; [reflexivity | |];
      destruct (unload_ok cap); rewrite ?Hu; reflexivity.
  - intros -> path ->. reflexivity.
  - intros -> ->. reflexivity.
Qed.

(** What [stopRecording] of a render leaves behind, whatever the
    case. *)
Lemma stopRecordingOf_flags (held : option Recording) (env : Env)
      (cap : Capture) (net : Net) (now : Z) (a : App) :
  let a' := stopRecordingOf JSON_parse held env cap net now a in
  isRecording a' = false
  /\ (isProcessing a = false -> isProcessing a' = false)
  /\ (count is_upload (effects a') <= S (count is_upload (effects a)))%nat.
Proof.
  cbv zeta.
  assert (Hproc : forall path b,
             isRecording (processAudio JSON_parse env net path now b)
             = isRecording b
             /\ isProcessing (processAudio JSON_parse env net path now b) = false)
    by (intros path b;
        destruct (processAudio_cells env net path now b) as (H1 & H2 & _);
        split; assumption).
  assert (Hfail : forall es,
             (count is_upload es = 0)%nat ->
             isRecording (stopFailed (emit es (setIsRecording false a))) = false
             /\ (isProcessing a = false ->
                 isProcessing (stopFailed (emit es (setIsRecording false a)))
                 = false)
             /\ (count is_upload
                   (effects (stopFailed (emit es (setIsRecording false a))))
                 <= S (count is_upload (effects a)))%nat).
  { intros es Hes. split; [reflexivity |]. split; [intro H; exact H |].
    cbn [effects emit stopFailed setIsRecording].
    rewrite !count_app, Hes. unfold count. cbn. lia. }
  unfold stopRecordingOf.
  destruct (isDevelopment env).
  - destruct held as [recording |].
    + destruct (unload_ok cap); [| apply (Hfail [StopAndUnload]); reflexivity].
      destruct (getURI recording) as [[| c uri] |];
        try (apply (Hfail [StopAndUnload]); reflexivity).
      rewrite (proj1 (Hproc _ _)), (proj2 (Hproc _ _)), processAudio_uploads.
      cbn [effects emit setIsProcessing setDevRecording setIsRecording
           isRecording].
      split; [reflexivity |]. split; [reflexivity |].
      rewrite !count_app. unfold count. cbn. lia.
    + split; [reflexivity |]. split; [intro H; exact H |].
      cbn [effects emit stopFailed setIsRecording].
      rewrite !count_app. unfold count. cbn. lia.
  - destruct (videoPath cap) as [path |];
      [| apply (Hfail [StopScreenRecorder]); reflexivity].
    rewrite (proj1 (Hproc _ _)), (proj2 (Hproc _ _)), processAudio_uploads.
    cbn [effects emit setIsProcessing setIsRecording isRecording].
    split; [reflexivity |]. split; [reflexivity |].
    rewrite !count_app. unfold count. cbn. lia.
Qed.

Lemma firing_fst (held : option Recording) (env : Env) (cap : Capture)
      (net : Net) (now : Z) (t : Timer) (a : App) :
  fst (firing JSON_parse held env cap net now (t, a)) = tick t.
Proof.
  unfold firing, tick. destruct (running t); [| reflexivity].
  destruct (progressUpdater (progress t)) as [p fire]. reflexivity.
Qed.

Lemma firing_snd (held : option Recording) (env : Env) (cap : Capture)
      (net : Net) (now : Z) (t : Timer) (a : App) :
  snd (firing JSON_parse held env cap net now (t, a))
  = if (stops t <? stops (tick t))%nat
    then stopRecordingOf JSON_parse held env cap net now a
    else a.
Proof.
  unfold firing, tick. destruct (running t);
    [| rewrite Nat.ltb_irrefl; reflexivity].
  destruct (progressUpdater (progress t)) as [p [|]]; cbn [snd stops].
  - replace (stops t <? S (stops t))%nat with true
      by (symmetry; apply Nat.ltb_lt; lia).
    reflexivity.
  - rewrite Nat.ltb_irrefl. reflexivity.
Qed.

Lemma firings_S (held : option Recording) (env : Env) (cap : Capture)
      (net : Net) (now : Z) (n : nat) (ta : Timer * App) :
  firings JSON_parse held env cap net now (S n) ta
  = firing JSON_parse held env cap net now
           (firings JSON_parse held env cap net now n ta).
Proof. reflexivity. Qed.

Lemma firings_fst (held : option Recording) (env : Env) (cap : Capture)
      (net : Net) (now : Z) (t : Timer) (a : App) (n : nat) :
  fst (firings JSON_parse held env cap net now n (t, a)) = ticks n t.
Proof.
  induction n as [| n IH]; [reflexivity |].
  rewrite firings_S, ticks_S, <- IH.
  destruct (firings JSON_parse held env cap net now n (t, a)) as [t' a'].
  apply firing_fst.
Qed.

Lemma firings_snd_S (held : option Recording) (env : Env) (cap : Capture)
      (net : Net) (now : Z) (t : Timer) (a : App) (n : nat) :
  snd (firings JSON_parse held env cap net now (S n) (t, a))
  = if (stops (ticks n t) <? stops (ticks (S n) t))%nat
    then stopRecordingOf JSON_parse held env cap net now
           (snd (firings JSON_parse held env cap net now n (t, a)))
    else snd (firings JSON_parse held env cap net now n (t, a)).
Proof.
  rewrite firings_S, ticks_S, <- (firings_fst held env cap net now t a n).
  destruct (firings JSON_parse held env cap net now n (t, a)) as [t' a'].
  apply firing_snd.
Qed.

(** X17. The progress timer of [App.tsx] calls [stopRecording] at its
    31st firing, not at its 30th: thirty additions of 1/30 give a
    number below 1.  Up to the 30th firing the interval stays set,
    [stopRecording] has not been called, the component is as it was,
    the progress is below 1 and the seconds shown are the number of
    firings; the 31st firing clears the interval, calls
    [stopRecording] once and sets the progress to 1; nothing changes
    after that.  The progress is never above 1, whatever it was
    before.  The [stopRecording] that is called is the one of the
    render in which [startRecording] ran.  In development mode, when
    that render shows no recording held, the call does not stop the
    recording: it turns the recording flag off, logs and shows the
    alert that the recording could not be stopped, and leaves the
    recording held; the recorder is not unloaded and nothing is
    uploaded. *)
Theorem auto_stop_at_tick_31 (held : option Recording) (env : Env)
        (cap : Capture) (net : Net) (now : Z) (a : App) :
  let after n := firings JSON_parse held env cap net now n (started, a) in
  let stopped := stopRecordingOf JSON_parse held env cap net now a in
  (forall n, (n <= 30)%nat ->
             running (ticks n started) = true
             /\ stops (ticks n started) = 0%nat
             /\ ltb (progress (ticks n started)) (of_Z 1) = true
             /\ shownSeconds (progress (ticks n started)) = Z.of_nat n)
  /\ running (ticks 31 started) = false
  /\ stops (ticks 31 started) = 1%nat
  /\ progress (ticks 31 started) = of_Z 1
  /\ shownSeconds (progress (ticks 31 started)) = 30
  /\ (forall n, (31 <= n)%nat -> ticks n started = ticks 31 started)
  /\ (forall prev, ltb (of_Z 1) (fst (progressUpdater prev)) = false)
  /\ (forall n, fst (after n) = ticks n started)
  /\ (forall n, (n <= 30)%nat -> snd (after n) = a)
  /\ (forall n, (31 <= n)%nat -> snd (after n) = stopped)
  /\ (isDevelopment env = true -> held = None ->
      isRecording stopped = false
      /\ devRecording stopped = devRecording a
      /\ isProcessing stopped = isProcessing a
      /\ lastResult stopped = lastResult a
      /\ effects stopped
         = effects a ++ [LogError "Failed to stop recording:";
                         Alert "Error" "Failed to stop recording"]).
Proof.
  intros after stopped.
  destruct timer_counts as (T1 & T2 & T3 & T4 & T5 & T6 & T7).
  split; [exact T1 |]. split; [exact T2 |]. split; [exact T3 |].
  split; [exact T4 |]. split; [exact T5 |]. split; [exact T6 |].
  split; [exact T7 |].
  assert (Hbefore : forall n, (n <= 30)%nat -> snd (after n) = a).
  { induction n as [| n IH]; intro Hn; [reflexivity |].
    unfold after. rewrite firings_snd_S.
    destruct (T1 n ltac:(lia)) as (_ & -> & _).
    destruct (T1 (S n) Hn) as (_ & -> & _).
    cbn [Nat.ltb Nat.leb]. apply IH. lia. }
  assert (H31 : snd (after 31%nat) = stopped).
  { unfold after. rewrite firings_snd_S.
    destruct (T1 30%nat ltac:(lia)) as (_ & -> & _).
    rewrite T3. cbn [Nat.ltb Nat.leb].
    fold (after 30%nat). rewrite (Hbefore 30%nat) by lia. reflexivity. }
  split; [intro n; apply firings_fst |].
  split; [exact Hbefore |].
  split.
  - intros n Hn. replace n with ((n - 31) + 31)%nat by lia.
    induction (n - 31)%nat as [| k IH]; [exact H31 |].
    cbn [Nat.add]. unfold after. rewrite firings_snd_S.
    rewrite (T6 (S (k + 31))) by lia. rewrite (T6 (k + 31)%nat) by lia.
    rewrite Nat.ltb_irrefl. exact IH.
  - intros Hdev Hheld.
    destruct (stopRecordingOf_cases held env cap net now a)
      as (_ & Hnone & _).
    cbv zeta in Hnone. unfold stopped. rewrite (Hnone Hdev Hheld).
    repeat split.
Qed.

(** X21. [stopRecording] always ends with the recording flag off and
    never leaves the processing flag set when it was not set before.
    It uploads exactly once when the recorder hands over a file (in
    development mode a recording that could be unloaded and has a
    path, in production mode a path from the screen recorder), and
    then the processing flag ends cleared.  In every other case it
    uploads nothing and only reports the failure: it logs and shows
    the alert that the recording could not be stopped, after the call
    to the recorder when there is one, and leaves the result, the
    history, the processing flag and the recording held as they
    were. *)
Theorem stopRecording_settles (env : Env) (cap : Capture) (net : Net)
        (now : Z) (a : App) :
  let a' := stopRecording JSON_parse env cap net now a in
  let failure := [LogError "Failed to stop recording:";
                  Alert "Error" "Failed to stop recording"] in
  isRecording a' = false
  /\ (isProcessing a = false -> isProcessing a' = false)
  /\ (count is_upload (effects a') <= S (count is_upload (effects a)))%nat
  /\ (isDevelopment env = true ->
      forall r c uri,
        devRecording a = Some r -> unload_ok cap = true ->
        getURI r = Some (c :: uri) ->
        count is_upload (effects a') = S (count is_upload (effects a))
        /\ isProcessing a' = false
        /\ devRecording a' = None)
  /\ (isDevelopment env = false ->
      forall path,
        videoPath cap = Some path ->
        count is_upload (effects a') = S (count is_upload (effects a))
        /\ isProcessing a' = false)
  /\ (isDevelopment env = true -> devRecording a = None ->
      effects a' = effects a ++ failure
      /\ count is_upload (effects a') = count is_upload (effects a)
      /\ lastResult a' = lastResult a
      /\ history a' = history a
      /\ isProcessing a' = isProcessing a)
  /\ (isDevelopment env = true ->
      forall r,
        devRecording a = Some r ->
        unload_ok cap = false \/ getURI r = None \/ getURI r = Some [] ->
        effects a' = effects a ++ StopAndUnload :: failure
        /\ count is_upload (effects a') = count is_upload (effects a)
        /\ lastResult a' = lastResult a
        /\ history a' = history a
        /\ isProcessing a' = isProcessing a
        /\ devRecording a' = Some r)
  /\ (isDevelopment env = false -> videoPath cap = None ->
      effects a' = effects a ++ StopScreenRecorder :: failure
      /\ count is_upload (effects a') = count is_upload (effects a)
      /\ lastResult a' = lastResult a
      /\ history a' = history a
      /\ isProcessing a' = isProcessing a).
Proof.
  cbv zeta. unfold stopRecording.
  destruct (stopRecordingOf_flags (devRecording a) env cap net now a)
    as (Hrec & Hproc & Hle).
  destruct (stopRecordingOf_cases (devRecording a) env cap net now a)
    as (Hfile & Hnone & Hbad & Hpath & Hnopath).
  cbv zeta in *.
  split; [exact Hrec |]. split; [exact Hproc |]. split; [exact Hle |].
  split; [| split; [| split; [| split]]].
  - intros Hdev r c uri Hr Hu Huri.
    rewrite (Hfile Hdev r c uri Hr Hu Huri).
    destruct (processAudio_cells env net (c :: uri) now
                (setIsProcessing true
                   (setDevRecording None
                      (emit [StopAndUnload] (setIsRecording false a)))))
      as (Hp & _ & Hd & _).
    rewrite processAudio_uploads, Hp, Hd.
    cbn [effects emit setIsProcessing setDevRecording setIsRecording
         devRecording].
    rewrite !count_app. unfold count. cbn. repeat split. lia.
  - intros Hdev path Hp.
    rewrite (Hpath Hdev path Hp).
    destruct (processAudio_cells env net path now
                (setIsProcessing true
                   (emit [StopScreenRecorder] (setIsRecording false a))))
      as (Hpr & _).
    rewrite processAudio_uploads, Hpr.
    cbn [effects emit setIsProcessing setIsRecording].
    rewrite !count_app. unfold count. cbn. repeat split. lia.
  - intros Hdev Hr. rewrite (Hnone Hdev Hr).
    cbn [effects emit stopFailed setIsRecording lastResult history
         isProcessing].
    rewrite !count_app. unfold count. cbn. repeat split. lia.
  - intros Hdev r Hr Hcase. rewrite (Hbad Hdev r Hr Hcase).
    cbn [effects emit stopFailed setIsRecording lastResult history
         isProcessing devRecording].
    rewrite <- app_assoc, !count_app. unfold count. cbn.
    repeat split; [lia | exact Hr].
  - intros Hdev Hp. rewrite (Hnopath Hdev Hp).
    cbn [effects emit stopFailed setIsRecording lastResult history
         isProcessing].
    rewrite <- app_assoc, !count_app. unfold count. cbn. repeat split. lia.
Qed.

Lemma lookup_missing (key : str) (fields : list (str * js)) :
  (forall v, ~ In (key, v) fields) -> lookup key fields = JUndefined.
Proof.
  induction fields as [| [k v] fields IH]; intro H; [reflexivity |].
  cbn [lookup]. destruct (list_eq_dec ascii_dec k key) as [-> | Hk].
  - exfalso. apply (H v). left. reflexivity.
  - apply IH. intros v' Hin. apply (H v'). right. exact Hin.
Qed.

Lemma pollResult_target (eventId : js) (poll : nat -> option str) (n : nat) :
  forall i r,
    Forall (fun e => is_poll e = true -> e = Poll eventId)
           (fst (pollResult JSON_parse eventId poll n i r))
    /\ (0 < n -> 0 < count is_poll (fst (pollResult JSON_parse eventId poll n i r)))%nat.
Proof.
  induction n as [| n IH]; intros i r; cbn [pollResult].
  - split; [constructor | lia].
  - destruct (poll i) as [text |].
    + destruct (truthy _).
      * split; [repeat constructor | intros _; cbn; lia].
      * specialize (IH (S i) (Streaming.scanLines JSON_parse (split_lines text) r)).
        destruct (pollResult JSON_parse eventId poll n (S i) _) as [calls final].
        cbn [fst] in *. destruct IH as [IH _].
        split.
        -- constructor; [reflexivity |]. constructor; [discriminate | exact IH].
        -- intros _. unfold count. cbn. lia.
    + split; [repeat constructor | intros _; cbn; lia].
Qed.

(** X22. The request does not check what the server answers.  When
    the upload answers an empty array, the file path submitted is
    [undefined]; when the answer to the submit call is an object
    without an [event_id], the request still polls, and every poll
    asks for the event [undefined]. *)
Theorem request_unchecked (env : Env) (net : Net) (audioPath : str) :
  let calls := fst (request JSON_parse env net audioPath) in
  (upload_response net = Some (true, Some (JArr [])) ->
   exists rest,
     calls = formPart env audioPath :: Predict JUndefined :: rest)
  /\ (forall uploadResult filePath fields,
         upload_response net = Some (true, Some uploadResult) ->
         index0 uploadResult = Some filePath ->
         predict_response net = Some (Some (JObj fields)) ->
         (forall v, ~ In (lit "event_id", v) fields) ->
         (0 < count is_poll calls)%nat
         /\ Forall (fun e => is_poll e = true -> e = Poll JUndefined) calls).
Proof.
  cbv zeta. unfold request. split.
  - intros ->. cbn [index0].
    destruct (predict_response net) as [[predictionResult |] |];
      try (exists []; reflexivity).
    destruct (event_id predictionResult) as [eventId |];
      [| exists []; reflexivity].
    destruct (pollResult JSON_parse eventId (poll_response net) 30 0 JNull)
      as [calls final].
    exists calls. reflexivity.
  - intros uploadResult filePath fields -> -> -> Hmissing.
    cbn [event_id]. rewrite (@lookup_missing (lit "event_id") fields Hmissing).
    pose proof (pollResult_target JUndefined (poll_response net) 30 0 JNull)
      as [Hall Hsome].
    destruct (pollResult JSON_parse JUndefined (poll_response net) 30 0 JNull)
      as [calls final].
    cbn [fst] in *. split.
    + rewrite count_app. specialize (Hsome ltac:(lia)). lia.
    + apply Forall_app. split; [| exact Hall].
      constructor.
      * unfold formPart. destruct (isDevelopment env); discriminate.
      * constructor; [discriminate | constructor].
Qed.

End RequestFacts.

Section RequestExamples.
Import Num RegExp ScoreParser JS SingleRequest Recorder.

Lemma request_unchecked_witness :
  exists rest,
    fst (request JSON_parse_fragment
           {| isDevelopment := true; ios := false |}
           {| upload_response := Some (true, Some (JArr []));
              predict_response := Some (Some (JObj []));
              poll_response := fun _ => None;
              notify_ok := true |}
           (lit "/tmp/a.wav"))
    = Upload (lit "/tmp/a.wav") "audio/wav" "audio.wav"
      :: Predict JUndefined :: rest.
Proof.
  destruct (proj1 (request_unchecked JSON_parse_fragment
                     {| isDevelopment := true; ios := false |}
                     {| upload_response := Some (true, Some (JArr []));
                        predict_response := Some (Some (JObj []));
                        poll_response := fun _ => None;
                        notify_ok := true |}
                     (lit "/tmp/a.wav")) eq_refl) as [rest H].
  exists rest. exact H.
Defined.

Lemma request_budget_witness :
  count is_poll
    (fst (request JSON_parse_fragment
            {| isDevelopment := true; ios := false |}
            {| upload_response := Some (true, Some (JArr [JStr (lit "/f")]));
               predict_response :=
                 Some (Some (JObj [(lit "event_id", JStr (lit "e1"))]));
               poll_response := fun _ => Some (lit "event: heartbeat");
               notify_ok := true |}
            (lit "/tmp/a.wav"))) = 30%nat
  /\ waited
       (fst (request JSON_parse_fragment
               {| isDevelopment := true; ios := false |}
               {| upload_response := Some (true, Some (JArr [JStr (lit "/f")]));
                  predict_response :=
                    Some (Some (JObj [(lit "event_id", JStr (lit "e1"))]));
                  poll_response := fun _ => Some (lit "event: heartbeat");
                  notify_ok := true |}
               (lit "/tmp/a.wav"))) = 30000.
Proof.
  apply (proj1 (proj2 (proj2 (proj2 (proj2 (proj2
           (request_budget JSON_parse_fragment
              {| isDevelopment := true; ios := false |}
              {| upload_response := Some (true, Some (JArr [JStr (lit "/f")]));
                 predict_response :=
                   Some (Some (JObj [(lit "event_id", JStr (lit "e1"))]));
                 poll_response := fun _ => Some (lit "event: heartbeat");
                 notify_ok := true |}
              (lit "/tmp/a.wav")))))))
         JNull); reflexivity.
Defined.

(** A session in development mode, started while no recording was
    held: after 31 firings the recording made by this session is still
    held, and the component has only reported a failure. *)
Lemma auto_stop_at_tick_31_witness :
  let a0 :=
    {| isRecording := true; isProcessing := false; lastResult := None;
       history := [];
       devRecording := Some {| getURI := Some (lit "a.wav") |};
       effects := [] |} in
  let a31 :=
    snd (firings JSON_parse_fragment None
           {| isDevelopment := true; ios := false |}
           {| unload_ok := true; videoPath := None |}
           {| upload_response := None; predict_response := None;
              poll_response := fun _ => None; notify_ok := true |}
           0 31 (started, a0)) in
  isRecording a31 = false
  /\ devRecording a31 = Some {| getURI := Some (lit "a.wav") |}
  /\ effects a31 = [LogError "Failed to stop recording:";
                    Alert "Error" "Failed to stop recording"].
Proof.
  intros a0 a31.
  destruct (auto_stop_at_tick_31 JSON_parse_fragment None
              {| isDevelopment := true; ios := false |}
              {| unload_ok := true; videoPath := None |}
              {| upload_response := None; predict_response := None;
                 poll_response := fun _ => None; notify_ok := true |}
              0 a0)
    as (_ & _ & _ & _ & _ & _ & _ & _ & _ & Hlate & Hdev).
  unfold a31. rewrite (Hlate 31%nat (Nat.le_refl 31)).
  destruct (Hdev eq_refl eq_refl) as (H1 & H2 & _ & _ & H5).
  split; [exact H1 |]. split; [exact H2 |]. exact H5.
Defined.

(** A recording that is unloaded and has a path, on a network that
    refuses the upload: one upload is made and the processing flag
    ends cleared. *)
Lemma stopRecording_settles_witness :
  count is_upload
    (effects
       (stopRecording JSON_parse_fragment
          {| isDevelopment := true; ios := false |}
          {| unload_ok := true; videoPath := None |}
          {| upload_response := None; predict_response := None;
             poll_response := fun _ => None; notify_ok := true |}
          0
          {| isRecording := true; isProcessing := false; lastResult := None;
             history := [];
             devRecording := Some {| getURI := Some (lit "a.wav") |};
             effects := [] |}))
  = 1%nat.
Proof.
  exact (proj1 (proj1 (proj2 (proj2 (proj2
           (stopRecording_settles JSON_parse_fragment
              {| isDevelopment := true; ios := false |}
              {| unload_ok := true; videoPath := None |}
              {| upload_response := None; predict_response := None;
                 poll_response := fun _ => None; notify_ok := true |}
              0
              {| isRecording := true; isProcessing := false; lastResult := None;
                 history := [];
                 devRecording := Some {| getURI := Some (lit "a.wav") |};
                 effects := [] |}))))
           eq_refl {| getURI := Some (lit "a.wav") |} "a"%char (lit ".wav")
           eq_refl eq_refl eq_refl)).
Defined.

End RequestExamples.

(* ------------------------------------------------------------------ *)

Section MicRecorderFacts.
Import Num RegExp ScoreParser JS MicRecorder.

Variable JSON_parse : str -> option js.

Lemma processAudio_ends (net : Recorder.Net) (audioUri : str) (a : App) :
  let a' := processAudio JSON_parse net audioUri a in
  let final := snd (request JSON_parse net audioUri) in
  isProcessing a' = false
  /\ recording a' = recording a
  /\ (exists es, effects a' = effects a ++ es ++ [Recorder.DeleteFile audioUri]
                 /\ Recorder.count Recorder.is_delete es = 0%nat)
  /\ match stored net final with
     | Some v => lastResult a' = Some v /\ progress a' = of_Z 0
     | None => lastResult a' = lastResult a /\ progress a' = progress a
     end.
Proof.
  cbv zeta. unfold processAudio, stored.
  assert (Hd : Recorder.count Recorder.is_delete
                 (fst (request JSON_parse net audioUri)) = 0%nat).
  { pose proof (request_shape JSON_parse
                  {| Recorder.isDevelopment := true; Recorder.ios := false |}
                  net audioUri) as Hs.
    cbv zeta in Hs. destruct Hs as (_ & _ & _ & _ & _ & _ & _ & Hd).
    unfold request.
    destruct (Recorder.upload_response net) as [[[] [body |]] |];
      first [exact Hd | reflexivity]. }
  destruct (request JSON_parse net audioUri) as [calls final].
  cbn [fst snd] in *.
  assert (Htail : forall tail,
             Recorder.count Recorder.is_delete tail = 0%nat ->
             Recorder.count Recorder.is_delete (calls ++ tail) = 0%nat)
    by (intros tail Ht; rewrite count_app, Hd, Ht; reflexivity).
  assert (Hdone : forall b es,
             Recorder.count Recorder.is_delete es = 0%nat ->
             exists es',
               effects (emit [Recorder.DeleteFile audioUri]
                          (setIsProcessing false (emit es b)))
               = effects b ++ es' ++ [Recorder.DeleteFile audioUri]
               /\ Recorder.count Recorder.is_delete es' = 0%nat).
  { intros b es Hes. exists es. cbn [effects emit setIsProcessing].
    rewrite <- app_assoc. split; [reflexivity | exact Hes]. }
  assert (Hjoin : forall es,
             Recorder.count Recorder.is_delete es = 0%nat ->
             exists es',
               (effects a ++ calls) ++ es ++ [Recorder.DeleteFile audioUri]
               = effects a ++ es' ++ [Recorder.DeleteFile audioUri]
               /\ Recorder.count Recorder.is_delete es' = 0%nat).
  { intros es Hes. exists (calls ++ es). rewrite <- !app_assoc.
    split; [reflexivity | apply Htail, Hes]. }
  destruct final as [result |].
  2:{ split; [reflexivity |]. split; [reflexivity |]. split; [| split; reflexivity].
      cbn [effects emit setIsProcessing processingFailed].
      rewrite <- (app_assoc (effects a ++ calls)). apply Hjoin. reflexivity. }
  destruct result as [| | b | n | text | items | fields].
  5:{ destruct text as [| c text].
      - cbn [truthy Recorder.resultText].
        split; [reflexivity |]. split; [reflexivity |].
        split; [| split; reflexivity].
        cbn [effects emit setIsProcessing].
        change [Recorder.DeleteFile audioUri]
          with ([] ++ [Recorder.DeleteFile audioUri]).
        apply Hjoin. reflexivity.
      - cbn [truthy Recorder.resultText].
        generalize (verdict (c :: text)). intro v.
        destruct (isAI v); [destruct (Recorder.notify_ok net) |];
          cbn [andb negb];
          (split; [reflexivity |]; split; [reflexivity |];
           split; [| split; reflexivity]);
          cbn [effects emit setIsProcessing processingFailed setLastResult
               setProgress].
        + rewrite <- (app_assoc (effects a ++ calls)). apply Hjoin. reflexivity.
        + rewrite <- !(app_assoc (effects a ++ calls)). apply Hjoin. reflexivity.
        + change [Recorder.DeleteFile audioUri]
            with ([] ++ [Recorder.DeleteFile audioUri]).
          apply Hjoin. reflexivity. }
  all: try (destruct b); try (destruct n as [s | s | | s m e]);
    cbn [truthy Recorder.resultText];
    (split; [reflexivity |]; split; [reflexivity |];
     split; [| split; reflexivity]);
    cbn [effects emit setIsProcessing processingFailed];
    first [ rewrite <- (app_assoc (effects a ++ calls)); apply Hjoin; reflexivity
          | change [Recorder.DeleteFile audioUri]
              with ([] ++ [Recorder.DeleteFile audioUri]);
            apply Hjoin; reflexivity ].
Qed.

(** X23. [processAudio] of the microphone recorder always ends by
    clearing the processing flag and deleting the recording, whatever
    happened to the request: the deletion is the last thing it does,
    and it is the only one.  The verdict read from the result text is
    stored, and the progress set back to 0, unless the request failed,
    brought no text, or the notification of an AI verdict could not be
    scheduled; then the last result and the progress stay as they
    were. *)
Theorem processAudio_always_cleans (net : Recorder.Net) (audioUri : str)
        (a : App) :
  let a' := processAudio JSON_parse net audioUri a in
  let final := snd (request JSON_parse net audioUri) in
  isProcessing a' = false
  /\ recording a' = recording a
  /\ (exists es, effects a' = effects a ++ es ++ [Recorder.DeleteFile audioUri]
                 /\ Recorder.count Recorder.is_delete es = 0%nat)
  /\ match stored net final with
     | Some v => lastResult a' = Some v /\ progress a' = of_Z 0
     | None => lastResult a' = lastResult a /\ progress a' = progress a
     end.
Proof. apply processAudio_ends. Qed.

(** X24. [stopRecording] of the microphone recorder does nothing when
    no recording is held, and clears the recording as its first step,
    so a second call does nothing: stopping twice is stopping once.
    It never leaves the processing flag set when it was not set
    before. *)
Theorem stopRecording_twice (unload_ok : bool) (net : Recorder.Net) (a : App) :
  (recording a = None -> stopRecording JSON_parse unload_ok net a = a)
  /\ recording (stopRecording JSON_parse unload_ok net a) = None
  /\ (forall again net',
         stopRecording JSON_parse again net'
                       (stopRecording JSON_parse unload_ok net a)
         = stopRecording JSON_parse unload_ok net a)
  /\ (isProcessing a = false ->
      isProcessing (stopRecording JSON_parse unload_ok net a) = false).
Proof.
  assert (Hnone : recording (stopRecording JSON_parse unload_ok net a) = None).
  { unfold stopRecording, stopRecordingOf.
    destruct (recording a) as [held |] eqn:Hrec; [| exact Hrec].
    destruct unload_ok; [| reflexivity].
    destruct (Recorder.getURI held) as [[| c uri] |]; try reflexivity.
    destruct (processAudio_ends net (c :: uri)
                (setIsProcessing true
                   (emit [Recorder.StopAndUnload] (setRecording None a))))
      as (_ & -> & _). reflexivity. }
  split; [| split; [exact Hnone | split]].
  - intro H. unfold stopRecording, stopRecordingOf. rewrite H. reflexivity.
  - intros again net'. unfold stopRecording at 1. rewrite Hnone. reflexivity.
  - intro Hp. unfold stopRecording, stopRecordingOf.
    destruct (recording a) as [held |]; [| exact Hp].
    destruct unload_ok; [| exact Hp].
    destruct (Recorder.getURI held) as [[| c uri] |]; try exact Hp.
    apply processAudio_ends.
Qed.

End MicRecorderFacts.

Section MicRecorderExamples.
Import Num RegExp ScoreParser JS MicRecorder.

Lemma stopRecording_twice_witness :
  stopRecording JSON_parse_fragment true
    {| Recorder.upload_response := None; Recorder.predict_response := None;
       Recorder.poll_response := fun _ => None;
       Recorder.notify_ok := true |}
    {| recording := None; isProcessing := false; progress := zero;
       lastResult := None; effects := [] |}
  = {| recording := None; isProcessing := false; progress := zero;
       lastResult := None; effects := [] |}.
Proof.
  exact (proj1 (stopRecording_twice JSON_parse_fragment true
                  {| Recorder.upload_response := None;
                     Recorder.predict_response := None;
                     Recorder.poll_response := fun _ => None;
                     Recorder.notify_ok := true |}
                  {| recording := None; isProcessing := false; progress := zero;
                     lastResult := None; effects := [] |}) eq_refl).
Defined.

End MicRecorderExamples.

(* ------------------------------------------------------------------ *)

Section ReplaceFacts.
Import Num RegExp JS Recorder.

Lemma startsWith_app (p post : str) : startsWith (p ++ post) p = true.
Proof.
  induction p as [| c p IH]; [destruct post; reflexivity |].
  cbn [app startsWith]. rewrite Ascii.eqb_refl, IH. reflexivity.
Qed.

Lemma startsWith_inv (p : str) :
  forall s, startsWith s p = true -> s = p ++ skipn (List.length p) s.
Proof.
  induction p as [| c p IH]; intros s H; [reflexivity |].
  destruct s as [| d s]; [discriminate |].
  cbn [startsWith] in H. apply andb_true_iff in H as [Hc Hs].
  apply Ascii.eqb_eq in Hc. subst d.
  cbn [app List.length skipn]. f_equal. apply IH, Hs.
Qed.

Lemma replace_from_eq (before pattern replacement s : str) :
  replace_from before pattern replacement s
  = if startsWith s pattern
    then getSubstitution pattern before (skipn (List.length pattern) s)
                         replacement
         ++ skipn (List.length pattern) s
    else match s with
         | [] => []
         | c :: s' => c :: replace_from (before ++ [c]) pattern replacement s'
         end.
Proof. destruct s; reflexivity. Qed.

Lemma not_occurs_head (pattern s : str) :
  ~ occurs pattern s 0 -> startsWith s pattern = false.
Proof.
  intro H. destruct (startsWith s pattern) eqn:E; [| reflexivity].
  exfalso. apply H. exists [], (skipn (List.length pattern) s).
  split; [apply startsWith_inv, E | reflexivity].
Qed.

Lemma occurs_tail (pattern s : str) (c : ascii) (k : nat) :
  occurs pattern s k -> occurs pattern (c :: s) (S k).
Proof.
  intros (pre & post & -> & <-). exists (c :: pre), post. split; reflexivity.
Qed.

(** The search replaces the first occurrence it meets. *)
Lemma replace_from_first (pattern replacement : str) (pre : str) :
  forall before post,
    (forall j, (j < List.length pre)%nat ->
               ~ occurs pattern (pre ++ pattern ++ post) j) ->
    replace_from before pattern replacement (pre ++ pattern ++ post)
    = pre ++ getSubstitution pattern (before ++ pre) post replacement ++ post.
Proof.
  induction pre as [| c pre IH]; intros before post Hfirst.
  - rewrite replace_from_eq. cbn [app]. rewrite startsWith_app.
    rewrite skipn_app, skipn_all, Nat.sub_diag, app_nil_r. reflexivity.
  - rewrite replace_from_eq.
    rewrite not_occurs_head by (apply Hfirst; cbn; lia).
    cbn [app]. f_equal.
    rewrite IH.
    + rewrite <- app_assoc. reflexivity.
    + intros j Hj Hocc. apply (Hfirst (S j)); [cbn; lia |].
      apply occurs_tail, Hocc.
Qed.

Lemma replace_from_none (pattern replacement : str) (s : str) :
  forall before,
    (forall k, ~ occurs pattern s k) ->
    replace_from before pattern replacement s = s.
Proof.
  induction s as [| c s IH]; intros before Hnone.
  - rewrite replace_from_eq. rewrite not_occurs_head by apply Hnone.
    reflexivity.
  - rewrite replace_from_eq. rewrite not_occurs_head by apply Hnone.
    f_equal. apply IH. intros k Hocc.
    apply (Hnone (S k)), occurs_tail, Hocc.
Qed.

(** A replacement text without a dollar sign stands for itself. *)
Lemma getSubstitution_plain (matched before after replacement : str) :
  forallb (fun c => negb (Ascii.eqb c "$"%char)) replacement = true ->
  getSubstitution matched before after replacement = replacement.
Proof.
  induction replacement as [| c r IH]; intro H; [reflexivity |].
  cbn [forallb] in H. apply andb_true_iff in H as [Hc Hr].
  cbn [getSubstitution].
  destruct (Ascii.eqb c "$"%char); [discriminate |].
  rewrite (IH Hr). reflexivity.
Qed.

(** X25. [replace] with a text as its pattern replaces the first
    occurrence of the pattern and nothing else: when the pattern
    occurs at index [k] and at no smaller index, the result is what
    precedes it, the text the replacement stands for, and what follows
    it; when the pattern occurs nowhere the text is returned as it
    is.  A replacement without a dollar sign stands for itself; in a
    replacement with dollar signs [$$], [$&], [$`] and [$'] stand for
    a dollar sign, the match, what precedes it and what follows it.
    The path sent from iOS is the recording path without its leading
    [file://]. *)
Theorem replace_first_occurrence (pattern replacement s : str) :
  (forall pre post,
      s = pre ++ pattern ++ post ->
      (forall j, (j < List.length pre)%nat -> ~ occurs pattern s j) ->
      replace pattern replacement s
      = pre ++ getSubstitution pattern pre post replacement ++ post
      /\ (forallb (fun c => negb (Ascii.eqb c "$"%char)) replacement = true ->
          replace pattern replacement s = pre ++ replacement ++ post))
  /\ ((forall k, ~ occurs pattern s k) -> replace pattern replacement s = s)
  /\ replace (lit "a") (lit "$&$&") (lit "xay") = lit "xaay"
  /\ replace (lit "b") (lit "[$`|$&|$'|$$|$1|$]") (lit "abcb")
     = lit "a[a|b|cb|$|$1|$]cb"
  /\ (forall rest,
         formPart {| isDevelopment := false; ios := true |}
                  (lit "file://" ++ rest)
         = Upload rest "video/mp4" "recording.mp4").
Proof.
  split; [| split; [| split; [| split]]].
  - intros pre post -> Hfirst.
    assert (H : replace pattern replacement (pre ++ pattern ++ post)
                = pre ++ getSubstitution pattern pre post replacement ++ post).
    { unfold replace. rewrite replace_from_first by exact Hfirst.
      reflexivity. }
    split; [exact H |].
    intro Hplain. rewrite H, getSubstitution_plain by exact Hplain.
    reflexivity.
  - intro Hnone. unfold replace. apply replace_from_none, Hnone.
  - reflexivity.
  - reflexivity.
  - intro rest. unfold formPart, replace. cbn [isDevelopment ios].
    rewrite replace_from_eq, startsWith_app.
    rewrite skipn_app, skipn_all, Nat.sub_diag. reflexivity.
Qed.

Lemma replace_first_occurrence_witness :
  replace (lit "file://") [] (lit "/var/file://a/file://b")
  = lit "/var/a/file://b".
Proof.
  refine (proj2 (proj1 (replace_first_occurrence (lit "file://") []
                          (lit "/var/file://a/file://b"))
                       (lit "/var/") (lit "a/file://b") eq_refl _)
                eq_refl).
  intros j Hj (pre & post & E & Hlen).
  cbn in Hj.
  destruct j as [| [| [| [| [| j]]]]]; [| | | | | lia];
    destruct pre as [| c0 [| c1 [| c2 [| c3 [| c4 pre]]]]]; try discriminate;
    cbn in E; discriminate.
Defined.

End ReplaceFacts.

Section SimulationFacts.
Import Num Simulation.

Lemma count_notifications_app (xs ys : list effect) :
  count_notifications (xs ++ ys)
  = (count_notifications xs + count_notifications ys)%nat.
Proof. unfold count_notifications. rewrite filter_app, length_app. reflexivity. Qed.

Lemma simulate_consistent (seen : Seen) (r1 r2 r3 : number) (now : Z) (a : App) :
  consistent a -> consistent (simulate seen r1 r2 r3 now a).
Proof.
  intros (Ht & Ha & Hn & Hl). unfold simulate.
  destruct (isRecording seen); cbn [negb].
  - destruct (List.length _ =? 0)%nat; [repeat split; tauto |].
    unfold consistent.
    cbn [stats effects lastResult updateStats total ai real alerts isAI aiPercent].
    rewrite count_notifications_app.
    destruct (gtb r2 (RegExp.decimal 83 2)); cbn [count_notifications filter List.length];
      (split; [lia |]); (split; [lia |]); (split; [cbn; lia |]);
      split; intro H; [discriminate | lia | discriminate | lia].
  - unfold consistent. cbn [stats effects lastResult].
    rewrite count_notifications_app. cbn.
    repeat split; try tauto; lia.
Qed.

(** X26. The counters of the simulated detector stay consistent,
    whatever the interval callback sees and whatever the random
    values are: after every sequence of firings the total is the
    number of AI results plus the number of real ones, the alerts are
    the AI results, one notification has been scheduled for each of
    them, and there is a last result exactly when something has been
    counted.  A firing that sees the recording flag off only clears
    its interval, and a firing that sees no detection enabled does
    nothing. *)
Theorem stats_stay_consistent
        (firings : list (Seen * number * number * number * Z)) :
  let a := simulate_all firings initial in
  total (stats a) = (ai (stats a) + real (stats a))%nat
  /\ alerts (stats a) = ai (stats a)
  /\ count_notifications (effects a) = alerts (stats a)
  /\ (lastResult a = None <-> total (stats a) = 0%nat)
  /\ (total (stats a) <= List.length firings)%nat
  /\ (forall a0 seen r1 r2 r3 now,
         isRecording seen = false ->
         simulate seen r1 r2 r3 now a0
         = {| lastResult := lastResult a0; stats := stats a0;
              effects := effects a0 ++ [ClearInterval] |})
  /\ (forall a0 seen r1 r2 r3 now,
         isRecording seen = true ->
         voiceDetectionEnabled seen = false ->
         textDetectionEnabled seen = false ->
         simulate seen r1 r2 r3 now a0 = a0).
Proof.
  cbv zeta.
  assert (H : forall fs a0,
             consistent a0 ->
             consistent (simulate_all fs a0)
             /\ (total (stats (simulate_all fs a0))
                 <= total (stats a0) + List.length fs)%nat).
  { induction fs as [| [[[[seen r1] r2] r3] now] fs IH]; intros a0 Ha0.
    - split; [exact Ha0 | cbn; lia].
    - unfold simulate_all in *. cbn [fold_left].
      destruct (IH _ (simulate_consistent seen r1 r2 r3 now Ha0)) as [Hc Hle].
      split; [exact Hc |].
      assert (Hstep : (total (stats (simulate seen r1 r2 r3 now a0))
                       <= S (total (stats a0)))%nat).
      { unfold simulate. destruct (isRecording seen); cbn [negb]; [| cbn; lia].
        destruct (_ =? 0)%nat; cbn; lia. }
      cbn [List.length]. lia. }
  destruct (H firings initial) as [(Ht & Ha & Hn & Hl) Hle].
  { repeat split; tauto. }
  split; [exact Ht |]. split; [exact Ha |]. split; [exact Hn |].
  split; [exact Hl |]. split; [exact Hle |].
  split.
  - intros a0 seen r1 r2 r3 now Hrec. unfold simulate. rewrite Hrec. reflexivity.
  - intros a0 seen r1 r2 r3 now Hrec Hv Ht'. unfold simulate.
    rewrite Hrec, Hv, Ht'. reflexivity.
Qed.

Lemma stats_stay_consistent_witness :
  total (stats (simulate_all
                  [({| isRecording := true; voiceDetectionEnabled := true;
                       textDetectionEnabled := false |},
                    zero, of_Z 1, zero, 8000)] initial)) = 1%nat
  /\ simulate {| isRecording := false; voiceDetectionEnabled := true;
                 textDetectionEnabled := false |} zero zero zero 8000 initial
     = {| lastResult := None; stats := stats initial;
          effects := [ClearInterval] |}.
Proof.
  split; [reflexivity |].
  exact (proj1 (proj2 (proj2 (proj2 (proj2 (proj2 (stats_stay_consistent []))))))
           initial
           {| isRecording := false; voiceDetectionEnabled := true;
              textDetectionEnabled := false |}
           zero zero zero 8000 eq_refl).
Defined.

End SimulationFacts.

(* ------------------------------------------------------------------ *)

Section CardFacts.
Import Num RegExp ScoreParser Volume Wav JS.

Variable JSON_parse : str -> option js.

Lemma step_card (e : Streaming.event) (a : Streaming.App) :
  Streaming.lastResult a = hd_error (Streaming.history a) ->
  Streaming.lastResult (Streaming.step JSON_parse e a)
  = hd_error (Streaming.history (Streaming.step JSON_parse e a)).
Proof.
  intro H.
  destruct e as [capture_ok | release_ok | now | k net now]; cbn [Streaming.step].
  - unfold Streaming.startRecording. destruct capture_ok; exact H.
  - unfold Streaming.stopRecording.
    destruct (Streaming.isRecording a); cbn [negb]; [| exact H].
    destruct (Streaming.streamingInterval _) as [seen |], release_ok; exact H.
  - destruct (Streaming.streamingInterval a) as [seen |]; [| exact H].
    unfold Streaming.processStreamingChunk.
    destruct (negb (Streaming.isStreaming a) || _); [exact H |].
    destruct (_ <? _); [exact H |].
    cbn [Streaming.audioBuffer Streaming.setLastProcessTime].
    destruct (ltb (Streaming.bufferDuration _) _); [exact H |].
    destruct (ltb (Volume.calculateRMS _) _); [exact H |].
    rewrite createWavBlob_bytes. exact H.
  - destruct (nth_error (Streaming.inflight a) k) as [job |]; [| exact H].
    set (a0 := Streaming.setInflight _ a).
    destruct (snd (Streaming.roundTrip JSON_parse net (Streaming.job_chunkId job)))
      as [[| | | | result | |] | |] eqn:Hout;
      try (pose proof (@processAudioChunk_dropped JSON_parse
                         (Streaming.job_render job) net
                         (Streaming.job_chunkId job) now a0) as Hd;
           assert (Hv : Streaming.verdicts
                          (Streaming.processAudioChunk JSON_parse
                             (Streaming.job_render job) net
                             (Streaming.job_chunkId job) now a0)
                        = Streaming.verdicts a0)
             by (apply Hd; intros r Hr; rewrite Hout in Hr; discriminate);
           unfold Streaming.verdicts in Hv;
           injection Hv as Hl Hh _ _; rewrite Hl, Hh; exact H).
    destruct (@processAudioChunk_handled JSON_parse (Streaming.job_render job)
                net (Streaming.job_chunkId job) now a0 result Hout)
      as [-> ->].
    reflexivity.
Qed.

(** X27. The result shown on the card is always the newest entry of
    the history.  In the streaming component this holds after every
    sequence of events once it holds before the first of them, as it
    does in the initial state; in the recorder of [App.tsx] it is kept
    by [processAudio] and by [stopRecording]. *)
Theorem last_result_heads_history :
  (forall es a,
      Streaming.lastResult a = hd_error (Streaming.history a) ->
      Streaming.lastResult (Streaming.run_events JSON_parse es a)
      = hd_error (Streaming.history (Streaming.run_events JSON_parse es a)))
  /\ Streaming.lastResult Streaming.initial
     = hd_error (Streaming.history Streaming.initial)
  /\ (forall env net audioPath now a,
         Recorder.lastResult a = hd_error (Recorder.history a) ->
         Recorder.lastResult
           (Recorder.processAudio JSON_parse env net audioPath now a)
         = hd_error (Recorder.history
                       (Recorder.processAudio JSON_parse env net audioPath now a)))
  /\ (forall env cap net now a,
         Recorder.lastResult a = hd_error (Recorder.history a) ->
         Recorder.lastResult
           (Recorder.stopRecording JSON_parse env cap net now a)
         = hd_error (Recorder.history
                       (Recorder.stopRecording JSON_parse env cap net now a))).
Proof.
  assert (Hprocess : forall env net audioPath now a,
             Recorder.lastResult a = hd_error (Recorder.history a) ->
             Recorder.lastResult
               (Recorder.processAudio JSON_parse env net audioPath now a)
             = hd_error (Recorder.history
                           (Recorder.processAudio JSON_parse env net audioPath
                                                  now a))).
  { intros env net audioPath now a H.
    destruct (processAudio_cells JSON_parse env net audioPath now a)
      as (_ & _ & _ & Hcells).
    destruct (Recorder.resultText _) as [text |].
    - destruct Hcells as [-> ->]. reflexivity.
    - destruct Hcells as [-> ->]. exact H. }
  split; [| split; [reflexivity | split; [exact Hprocess |]]].
  - intros es. unfold Streaming.run_events.
    induction es as [| e es IH]; intros a H; [exact H |].
    cbn [fold_left]. apply IH, step_card, H.
  - intros env cap net now a H.
    unfold Recorder.stopRecording, Recorder.stopRecordingOf.
    destruct (Recorder.isDevelopment env).
    + cbn [Recorder.devRecording Recorder.setIsRecording].
      destruct (Recorder.devRecording a) as [recording |]; [| exact H].
      destruct (Recorder.unload_ok cap); [| exact H].
      destruct (Recorder.getURI recording) as [[| c uri] |]; try exact H.
      apply Hprocess. exact H.
    + destruct (Recorder.videoPath cap) as [path |]; [| exact H].
      apply Hprocess. exact H.
Qed.

End CardFacts.

Section CardExamples.
Import Num RegExp ScoreParser Volume Wav JS Streaming.

Lemma last_result_heads_history_witness :
  lastResult (run_events JSON_parse_fragment
                [Tick 1000; RoundTripEnds 0 (answering complete_response) 2000]
                recording)
  = hd_error (history (run_events JSON_parse_fragment
                [Tick 1000; RoundTripEnds 0 (answering complete_response) 2000]
                recording)).
Proof.
  apply (proj1 (last_result_heads_history JSON_parse_fragment)). reflexivity.
Defined.

End CardExamples.
